(** * The USD exporter of MuJoCo scenes ([python/mujoco/usd/exporter.py])

    A shallow embedding of class [USDExporter]: the exporter object is a
    record, its methods are programs of a state-and-exception monad over that
    record (an exception leaves the mutations made before it in place, as in
    Python), and the scene-graph document ([self.stage]) is a store of prims
    with time-sampled attributes.

    Outside the model: console output, creation of the output directories and
    the pixel contents of the texture images. *)

From Stdlib Require Import ZArith Floats.
From stdpp Require Import gmap strings list pretty.

Set Warnings "-inexact-float".

Local Open Scope Z_scope.
Local Open Scope string_scope.

(** ** Python values *)

(** Arrays of fixed length of the C structs ([float pos[3]], [float rgba[4]],
    [float mat[9]] in rows). *)
Definition vec3 : Type := float * float * float.
Definition vec4 : Type := float * float * float * float.
Definition mat3 : Type := vec3 * vec3 * vec3.

(** A flat array of 9 entries, as [np.zeros(9)] makes it. *)
Inductive vec9 := Vec9 (r0 r1 r2 r3 r4 r5 r6 r7 r8 : float).

(** [rgba[3]] *)
Definition alpha (c : vec4) : float := snd c.

(** The exceptions the exporter can raise. *)
Inductive Exn :=
| ValueError (msg : string)
| AssertionError
| KeyError (key : string)
| IndexError
| TypeError.

Inductive Result (A : Type) :=
| Ok (a : A)
| Raise (e : Exn).
Arguments Ok {A} a.
Arguments Raise {A} e.

(** [l[i]] of a Python list or a numpy array: a negative index counts from the
    end, an index out of range raises [IndexError] (here [None]). *)
Definition py_index {A} (l : list A) (i : Z) : option A :=
  let n := Z.of_nat (length l) in
  if bool_decide (0 <= i < n) then l !! Z.to_nat i
  else if bool_decide (- n <= i < 0) then l !! Z.to_nat (n + i)
  else None.

(** The number of elements of [a[start:stop]] for an array of length [n]. *)
Definition py_slice_len (n start stop : Z) : Z :=
  let clip i := if bool_decide (i < 0) then Z.max 0 (n + i) else Z.min i n in
  Z.max 0 (clip stop - clip start).

(** [np.allclose(a, [0, 0, 0])] with the default tolerances:
    [abs(a - b) <= atol + rtol * abs(b)] in every component. *)
Definition isclose (a b : float) : bool :=
  (abs (a - b) <=? 1e-8 + 1e-5 * abs b)%float.

Definition allclose_origin (p : vec3) : bool :=
  let '(x, y, z) := p in
  isclose x 0%float && isclose y 0%float && isclose z 0%float.

(** [np.cross(a, b)] *)
Definition cross (a b : vec3) : vec3 :=
  let '(a0, a1, a2) := a in
  let '(b0, b1, b2) := b in
  (a1 * b2 - a2 * b1, a2 * b0 - a0 * b2, a0 * b1 - a1 * b0)%float.

(** ** MuJoCo data read by the exporter *)

(** [mjtObj]: the object types that tag the geoms of a scene. *)
Inductive mjtObj :=
| mjOBJ_UNKNOWN | mjOBJ_BODY | mjOBJ_JOINT | mjOBJ_GEOM | mjOBJ_SITE
| mjOBJ_CAMERA | mjOBJ_LIGHT | mjOBJ_FLEX | mjOBJ_SKIN | mjOBJ_TENDON
| mjOBJ_ACTUATOR.

(** [mjtGeom] *)
Inductive mjtGeom :=
| mjGEOM_PLANE | mjGEOM_HFIELD | mjGEOM_SPHERE | mjGEOM_CAPSULE
| mjGEOM_ELLIPSOID | mjGEOM_CYLINDER | mjGEOM_BOX | mjGEOM_MESH
| mjGEOM_ARROW | mjGEOM_LINE | mjGEOM_LABEL.

#[global] Instance mjtObj_eq_dec : EqDecision mjtObj.
Proof. solve_decision. Defined.
#[global] Instance mjtGeom_eq_dec : EqDecision mjtGeom.
Proof. solve_decision. Defined.

Module MjvGeom.
Record t := {
    type : mjtGeom;
    objtype : mjtObj;
    objid : Z;
    segid : Z;
    matid : Z;
    rgba : vec4;
    pos : vec3;
    mat : mat3;
    size : vec3;
}.
End MjvGeom.

Module MjvLight.
Record t := { pos : vec3; diffuse : vec3 }.
End MjvLight.

Module MjvGLCamera.
Record t := { pos : vec3; forward : vec3; up : vec3 }.
End MjvGLCamera.

(** [renderer.scene]: the first [ngeom] entries of [geoms], the first [nlight]
    of [lights], and the pair of stereo cameras. *)
Module MjvScene.
Record t := {
    geoms : list MjvGeom.t;
    lights : list MjvLight.t;
    camera : MjvGLCamera.t * MjvGLCamera.t;
}.
Definition ngeom (s : t) : nat := length (geoms s).
Definition nlight (s : t) : nat := length (lights s).
End MjvScene.

Module MjTexture.
Record t := { tex_height : N; tex_width : N; tex_nchannel : N; tex_type : Z }.
End MjTexture.

(** The fields of [MjModel] the exporter reads. The per-texture arrays are the
    columns of [textures], so [ntex] is its length; [ntexdata] is the length of
    [tex_data]; [names] is the name table behind [mj_id2name]. *)
Module MjModel.
Record t := {
    offwidth : Z;
    offheight : Z;
    textures : list MjTexture.t;
    ntexdata : Z;
    mat_texid : list (list Z);
    geom_dataid : list Z;
    names : mjtObj -> Z -> option string;
}.
Definition ntex (m : t) : nat := length (textures m).
Definition tex_type (m : t) : list Z := MjTexture.tex_type <$> textures m.
End MjModel.

Definition mj_id2name (m : MjModel.t) (objtype : mjtObj) (objid : Z) : option string :=
  MjModel.names m objtype objid.

(** ** The scene-graph document *)

(** What an attribute of a prim can hold. *)
Inductive Value :=
| VBool (b : bool)
| VInt (z : Z)
| VVec3 (v : vec3)
| VPose (pos : vec3) (mat : mat3).

(** An attribute: its default value and its time samples. *)
Record Attr := {
  attr_default : option Value;
  attr_samples : gmap Z Value;
}.

Definition empty_attr : Attr := {| attr_default := None; attr_samples := ∅ |}.

(** [attr.Set(value)] and [attr.Set(value, time)] *)
Definition Attr_Set (v : Value) (time : option Z) (a : Attr) : Attr :=
  match time with
  | None => {| attr_default := Some v; attr_samples := attr_samples a |}
  | Some t => {| attr_default := attr_default a; attr_samples := <[t := v]> (attr_samples a) |}
  end.

(** Modelled from the spec: the result of [shapes_module.mesh_config_generator],
    of which the spec says that it is synthesized from a name, the declared
    geometry type and a size, decoupled for a tendon. *)
Record MeshConfig := {
  mc_name : string;
  mc_geom_type : mjtGeom;
  mc_size : vec3;
  mc_decouple : bool;
}.

Definition mesh_config_generator (name : string) (geom_type : mjtGeom)
    (size : vec3) (decouple : bool) : MeshConfig :=
  {| mc_name := name; mc_geom_type := geom_type; mc_size := size; mc_decouple := decouple |}.

(** The entries of [geom_textures]: a texture file with its type, or [None]. *)
Definition GeomTextures : Type := list (option (string * Z)).

(** What a prim was built from: the constructor of the record class and the
    arguments that the exporter passes to it ([radius] is [None] where the
    exporter leaves it to the default of the class). *)
Inductive PrimSource :=
| SrcXform
| SrcMesh (dataid : Z) (rgba : vec4) (geom_textures : GeomTextures)
| SrcTendon (mesh_config : MeshConfig) (rgba : vec4) (geom_textures : GeomTextures)
| SrcPrimitiveMesh (mesh_config : MeshConfig) (rgba : vec4) (geom_textures : GeomTextures)
| SrcSphereLight (radius : option (option float))
| SrcDomeLight
| SrcCamera.

Record Prim := {
  prim_name : string;
  prim_source : PrimSource;
  prim_attrs : gmap string Attr;
}.

Definition prim_attr (name : string) (p : Prim) : Attr :=
  default empty_attr (prim_attrs p !! name).

(** [prim.GetAttribute(name).Set(value, time)] *)
Definition Prim_Set (name : string) (v : Value) (time : option Z) (p : Prim) : Prim :=
  {| prim_name := prim_name p;
     prim_source := prim_source p;
     prim_attrs := <[name := Attr_Set v time (prim_attr name p)]> (prim_attrs p) |}.

(** [Usd.Stage]: prims are kept under the identity they were created with; an
    identity is never used twice in a session, so a record created on a stage
    that has been replaced since does not reach the prims of the new one. *)
Record Stage := {
  up_axis : option string;
  start_time_code : option Z;
  end_time_code : option Z;
  time_codes_per_second : option float;
  default_prim : option nat;
  prims : gmap nat Prim;
}.

Definition Stage_with_prims (f : gmap nat Prim -> gmap nat Prim) (s : Stage) : Stage :=
  {| up_axis := up_axis s;
     start_time_code := start_time_code s;
     end_time_code := end_time_code s;
     time_codes_per_second := time_codes_per_second s;
     default_prim := default_prim s;
     prims := f (prims s) |}.

(** [stage.SetEndTimeCode(t)] *)
Definition SetEndTimeCode (t : Z) (s : Stage) : Stage :=
  {| up_axis := up_axis s;
     start_time_code := start_time_code s;
     end_time_code := Some t;
     time_codes_per_second := time_codes_per_second s;
     default_prim := default_prim s;
     prims := prims s |}.

(** The samples of attribute [name] of prim [id]. *)
Definition samples_of (s : Stage) (id : nat) (name : string) : gmap Z Value :=
  match prims s !! id with
  | Some p => attr_samples (prim_attr name p)
  | None => ∅
  end.

(** ** The Python objects that wrap a prim *)

(** An instance of [USDMesh], [USDTendon] or [USDPrimitiveMesh]. *)
Record USDObject := {
  obj_prim : nat;
  last_visible_frame : Z;
}.

(** An instance of [USDSphereLight] or [USDDomeLight]. *)
Record USDLight := { light_prim : nat }.

Record USDCamera := { camera_prim : nat }.

(** ** The exporter object *)

(** The arguments of [__init__], stored unchanged as attributes. *)
Record ExporterArgs := {
  model : MjModel.t;
  height : Z;
  width : Z;
  max_geom : Z;
  output_directory_name : string;
  output_directory_root : string;
  light_intensity : Z;
  camera_names : option (list string);
  specialized_materials_file : option string;
  verbose : bool;
}.

(** [self], with the two pieces of the environment its methods act on:
    [next_prim], the next unused prim identity, and [exported], the files
    written by [stage.Export] with the document each one received. *)
Record USDExporter := {
  args : ExporterArgs;
  frame_count : Z;
  updates : Z;
  geom_names : gset string;
  geom_refs : gmap string USDObject;
  usd_lights : list (option USDLight);
  usd_cameras : list USDCamera;
  scene : MjvScene.t;
  stage : Stage;
  texture_files : list string;
  next_prim : nat;
  exported : list (string * Stage);
}.

(** Assignments to the attributes of [self]. *)
Definition set_frame_count (v : Z) (s : USDExporter) : USDExporter :=
  {| args := args s; frame_count := v; updates := updates s;
     geom_names := geom_names s; geom_refs := geom_refs s;
     usd_lights := usd_lights s; usd_cameras := usd_cameras s;
     scene := scene s; stage := stage s; texture_files := texture_files s;
     next_prim := next_prim s; exported := exported s |}.

Definition set_updates (v : Z) (s : USDExporter) : USDExporter :=
  {| args := args s; frame_count := frame_count s; updates := v;
     geom_names := geom_names s; geom_refs := geom_refs s;
     usd_lights := usd_lights s; usd_cameras := usd_cameras s;
     scene := scene s; stage := stage s; texture_files := texture_files s;
     next_prim := next_prim s; exported := exported s |}.

Definition set_geom_names (v : gset string) (s : USDExporter) : USDExporter :=
  {| args := args s; frame_count := frame_count s; updates := updates s;
     geom_names := v; geom_refs := geom_refs s;
     usd_lights := usd_lights s; usd_cameras := usd_cameras s;
     scene := scene s; stage := stage s; texture_files := texture_files s;
     next_prim := next_prim s; exported := exported s |}.

Definition set_geom_refs (v : gmap string USDObject) (s : USDExporter) : USDExporter :=
  {| args := args s; frame_count := frame_count s; updates := updates s;
     geom_names := geom_names s; geom_refs := v;
     usd_lights := usd_lights s; usd_cameras := usd_cameras s;
     scene := scene s; stage := stage s; texture_files := texture_files s;
     next_prim := next_prim s; exported := exported s |}.

Definition set_usd_lights (v : list (option USDLight)) (s : USDExporter) : USDExporter :=
  {| args := args s; frame_count := frame_count s; updates := updates s;
     geom_names := geom_names s; geom_refs := geom_refs s;
     usd_lights := v; usd_cameras := usd_cameras s;
     scene := scene s; stage := stage s; texture_files := texture_files s;
     next_prim := next_prim s; exported := exported s |}.

Definition set_usd_cameras (v : list USDCamera) (s : USDExporter) : USDExporter :=
  {| args := args s; frame_count := frame_count s; updates := updates s;
     geom_names := geom_names s; geom_refs := geom_refs s;
     usd_lights := usd_lights s; usd_cameras := v;
     scene := scene s; stage := stage s; texture_files := texture_files s;
     next_prim := next_prim s; exported := exported s |}.

Definition set_scene (v : MjvScene.t) (s : USDExporter) : USDExporter :=
  {| args := args s; frame_count := frame_count s; updates := updates s;
     geom_names := geom_names s; geom_refs := geom_refs s;
     usd_lights := usd_lights s; usd_cameras := usd_cameras s;
     scene := v; stage := stage s; texture_files := texture_files s;
     next_prim := next_prim s; exported := exported s |}.

Definition set_stage (v : Stage) (s : USDExporter) : USDExporter :=
  {| args := args s; frame_count := frame_count s; updates := updates s;
     geom_names := geom_names s; geom_refs := geom_refs s;
     usd_lights := usd_lights s; usd_cameras := usd_cameras s;
     scene := scene s; stage := v; texture_files := texture_files s;
     next_prim := next_prim s; exported := exported s |}.

Definition set_next_prim (v : nat) (s : USDExporter) : USDExporter :=
  {| args := args s; frame_count := frame_count s; updates := updates s;
     geom_names := geom_names s; geom_refs := geom_refs s;
     usd_lights := usd_lights s; usd_cameras := usd_cameras s;
     scene := scene s; stage := stage s; texture_files := texture_files s;
     next_prim := v; exported := exported s |}.

Definition set_exported (v : list (string * Stage)) (s : USDExporter) : USDExporter :=
  {| args := args s; frame_count := frame_count s; updates := updates s;
     geom_names := geom_names s; geom_refs := geom_refs s;
     usd_lights := usd_lights s; usd_cameras := usd_cameras s;
     scene := scene s; stage := stage s; texture_files := texture_files s;
     next_prim := next_prim s; exported := v |}.

(** ** Methods as programs over [self] *)

(** A method body: it returns a value or raises, and leaves [self] as it was
    at that point. *)
Definition M (A : Type) : Type := USDExporter -> Result A * USDExporter.

#[global] Instance M_ret : MRet M := fun A a self => (Ok a, self).

#[global] Instance M_bind : MBind M := fun A B f m self =>
  match m self with
  | (Ok a, self') => f a self'
  | (Raise e, self') => (Raise e, self')
  end.

Definition raise {A} (e : Exn) : M A := fun self => (Raise e, self).
Definition gets {A} (f : USDExporter -> A) : M A := fun self => (Ok (f self), self).
Definition modify (f : USDExporter -> USDExporter) : M unit := fun self => (Ok tt, f self).

(** [assert b] *)
Definition assert (b : bool) : M unit :=
  if b then mret tt else raise AssertionError.

(** A subscript that raises when it is out of range. *)
Definition subscript {A} (o : option A) (e : Exn) : M A :=
  match o with
  | Some a => mret a
  | None => raise e
  end.

(** [for x in l: body(x)] *)
Fixpoint for_each {A} (l : list A) (body : A -> M unit) : M unit :=
  match l with
  | [] => mret tt
  | x :: l' => body x ;; for_each l' body
  end.

(** [for i in range(len(l)): body(i, l[i])], with [i] counted from [start]. *)
Fixpoint for_range {A} (start : nat) (l : list A) (body : nat -> A -> M unit) : M unit :=
  match l with
  | [] => mret tt
  | x :: l' => body start x ;; for_range (S start) l' body
  end.

Definition set_texture_files (v : list string) (s : USDExporter) : USDExporter :=
  {| args := args s; frame_count := frame_count s; updates := updates s;
     geom_names := geom_names s; geom_refs := geom_refs s;
     usd_lights := usd_lights s; usd_cameras := usd_cameras s;
     scene := scene s; stage := stage s; texture_files := v;
     next_prim := next_prim s; exported := exported s |}.

(** ** The stage and the record classes *)

(** [Usd.Stage.CreateInMemory()] *)
Definition Stage_CreateInMemory : Stage :=
  {| up_axis := None; start_time_code := None; end_time_code := None;
     time_codes_per_second := None; default_prim := None; prims := ∅ |}.

Definition SetStageUpAxis (axis : string) (s : Stage) : Stage :=
  {| up_axis := Some axis;
     start_time_code := start_time_code s;
     end_time_code := end_time_code s;
     time_codes_per_second := time_codes_per_second s;
     default_prim := default_prim s;
     prims := prims s |}.

Definition SetStartTimeCode (t : Z) (s : Stage) : Stage :=
  {| up_axis := up_axis s;
     start_time_code := Some t;
     end_time_code := end_time_code s;
     time_codes_per_second := time_codes_per_second s;
     default_prim := default_prim s;
     prims := prims s |}.

Definition SetTimeCodesPerSecond (r : float) (s : Stage) : Stage :=
  {| up_axis := up_axis s;
     start_time_code := start_time_code s;
     end_time_code := end_time_code s;
     time_codes_per_second := Some r;
     default_prim := default_prim s;
     prims := prims s |}.

Definition SetDefaultPrim (id : nat) (s : Stage) : Stage :=
  {| up_axis := up_axis s;
     start_time_code := start_time_code s;
     end_time_code := end_time_code s;
     time_codes_per_second := time_codes_per_second s;
     default_prim := Some id;
     prims := prims s |}.

(** Apply a stage method to [self.stage]. *)
Definition on_stage (f : Stage -> Stage) : M unit :=
  modify (fun self => set_stage (f (stage self)) self).

(** A new prim on [self.stage], under the next unused identity. *)
Definition define_prim (name : string) (src : PrimSource) : M nat := fun self =>
  let id := next_prim self in
  let p := {| prim_name := name; prim_source := src; prim_attrs := ∅ |} in
  (Ok id, set_next_prim (S id) (set_stage (Stage_with_prims <[id := p]> (stage self)) self)).

(** A write to the prim [id]; a prim of a stage that [self.stage] has replaced
    is out of reach of every later export, and the write is dropped. *)
Definition write_prim (id : nat) (f : Prim -> Prim) : M unit :=
  on_stage (Stage_with_prims (alter f id)).

(** Modelled from the spec: the constructors of [object_module.USDMesh],
    [USDTendon] and [USDPrimitiveMesh] (module [mujoco.usd.objects] is not
    among the sources). A geometry record is created on the stage under the
    derived name; the frame it was last visible in starts at
    [initial_last_visible_frame], a value the spec leaves open. *)
Definition USDObject_new (initial_last_visible_frame : Z) (obj_name : string)
    (src : PrimSource) : M USDObject :=
  id ← define_prim obj_name src;
  mret {| obj_prim := id; last_visible_frame := initial_last_visible_frame |}.

(** Modelled from the spec: [update_visibility(visible, frame)] of a geometry
    record writes one visibility time sample. *)
Definition USDObject_update_visibility (obj : USDObject) (visible : bool) (frame : Z) : M unit :=
  write_prim (obj_prim obj) (Prim_Set "visibility" (VBool visible) (Some frame)).

(** Modelled from the spec: [update(pos, mat, visible, frame, scale)] of a
    geometry record. According to the spec, the per-frame update writes world
    position, orientation matrix and visibility at the time sample [frame],
    and the scale for a tendon; [last_visible_frame] is the last frame the
    record was updated as visible in. The mutated object is returned. *)
Definition USDObject_update (obj : USDObject) (pos : vec3) (mat : mat3)
    (scale : option vec3) (visible : bool) (frame : Z) : M USDObject :=
  write_prim (obj_prim obj) (Prim_Set "xformOp:transform" (VPose pos mat) (Some frame));;
  USDObject_update_visibility obj visible frame;;
  match scale with
  | Some s => write_prim (obj_prim obj) (Prim_Set "xformOp:scale" (VVec3 s) (Some frame))
  | None => mret tt
  end;;
  mret {| obj_prim := obj_prim obj;
          last_visible_frame := if visible then frame else last_visible_frame obj |}.

(** Modelled from the spec: [light_module.USDSphereLight] and [USDDomeLight]
    (module [mujoco.usd.lights] is not among the sources). The update of a
    sphere light sets position, intensity and colour at a time sample; the
    one-shot update of a dome light carries no time sample. *)
Definition USDSphereLight (obj_name : string) (radius : option (option float)) : M USDLight :=
  id ← define_prim obj_name (SrcSphereLight radius);
  mret {| light_prim := id |}.

Definition USDSphereLight_update (l : USDLight) (pos : vec3) (intensity : Z)
    (color : vec3) (frame : Z) : M unit :=
  write_prim (light_prim l) (Prim_Set "xformOp:translate" (VVec3 pos) (Some frame));;
  write_prim (light_prim l) (Prim_Set "inputs:intensity" (VInt intensity) (Some frame));;
  write_prim (light_prim l) (Prim_Set "inputs:color" (VVec3 color) (Some frame)).

Definition USDDomeLight (obj_name : string) : M USDLight :=
  id ← define_prim obj_name SrcDomeLight;
  mret {| light_prim := id |}.

Definition USDDomeLight_update (l : USDLight) (intensity : Z) (color : vec3) : M unit :=
  write_prim (light_prim l) (Prim_Set "inputs:intensity" (VInt intensity) None);;
  write_prim (light_prim l) (Prim_Set "inputs:color" (VVec3 color) None).

(** Modelled from the spec: [camera_module.USDCamera] (module
    [mujoco.usd.camera] is not among the sources); its update writes position
    and orientation at a time sample. [USDCamera_update] is the update with a
    3 by 3 array for [cam_mat], as [_update_cameras] calls it. *)
Definition USDCamera_new (obj_name : string) : M USDCamera :=
  id ← define_prim obj_name SrcCamera;
  mret {| camera_prim := id |}.

Definition USDCamera_update (c : USDCamera) (cam_pos : vec3) (cam_mat : mat3) (frame : Z) : M unit :=
  write_prim (camera_prim c) (Prim_Set "xformOp:transform" (VPose cam_pos cam_mat) (Some frame)).

(** Modelled from the spec: the same update with a flat array of 9 entries for
    [cam_mat], as [add_camera] calls it. The spec does not say what the
    update makes of an array of that shape: [flat_cam_mat] gives the rotation
    it writes, or the exception it raises. *)
Definition USDCamera_update_flat (flat_cam_mat : vec9 -> Result mat3) (c : USDCamera)
    (cam_pos : vec3) (cam_mat : vec9) (frame : Z) : M unit :=
  match flat_cam_mat cam_mat with
  | Ok m => USDCamera_update c cam_pos m frame
  | Raise e => raise e
  end.

(** ** Class [USDExporter] *)

Definition dquote : string := String (Ascii.ascii_of_nat 34) "".
Definition newline : string := String (Ascii.ascii_of_nat 10) "".
Definition indent16 : string := "                ".

(** The messages of the two [ValueError]s of [__init__], after [lstrip]. *)
Definition width_message (width buffer_width : Z) : string :=
  "Image width " +:+ pretty width +:+ " > framebuffer width " +:+ pretty buffer_width
  +:+ ". Either reduce the image" +:+ newline +:+ indent16
  +:+ "width or specify a larger offscreen framebuffer in the model XML using the"
  +:+ newline +:+ indent16 +:+ "clause:"
  +:+ newline +:+ indent16 +:+ "<visual>"
  +:+ newline +:+ indent16 +:+ "<global offwidth=" +:+ dquote +:+ "my_width" +:+ dquote +:+ "/>"
  +:+ newline +:+ indent16 +:+ "</visual>".

Definition height_message (height buffer_height : Z) : string :=
  "Image height " +:+ pretty height +:+ " > framebuffer height " +:+ pretty buffer_height
  +:+ ". Either reduce the" +:+ newline +:+ indent16
  +:+ "image height or specify a larger offscreen framebuffer in the model XML using"
  +:+ newline +:+ indent16 +:+ "the clause:"
  +:+ newline +:+ indent16 +:+ "<visual>"
  +:+ newline +:+ indent16 +:+ "<global offheight=" +:+ dquote +:+ "my_height" +:+ dquote +:+ "/>"
  +:+ newline +:+ indent16 +:+ "</visual>".

Section Exporter.

(** The collaborators of the exporter: simulation data and scene options are
    opaque to it; [Renderer] is the scene of a new [mujoco.Renderer];
    [renderer_update_scene] is the scene that [renderer.update_scene] computes
    for the model, the data, the option and the camera name; [mju_quat2Mat]
    fills the flat array [R] of 9 entries; [flat_cam_mat] is what
    [USDCamera.update] makes of such an array. *)
Context {MjData MjvOption : Type}.
Variable MjvOption_default : MjvOption.
Variable Renderer : MjModel.t -> Z -> Z -> Z -> MjvScene.t.
Variable renderer_update_scene :
  MjModel.t -> MjData -> MjvOption -> option string -> MjvScene.t.
Variable mjv_averageCamera : MjvGLCamera.t -> MjvGLCamera.t -> MjvGLCamera.t.
Variable mju_euler2Quat : vec3 -> string -> vec4.
Variable mju_quat2Mat : vec4 -> vec9.
Variable flat_cam_mat : vec9 -> Result mat3.
Variable initial_last_visible_frame : Z.

Definition _initialize_usd_stage : M unit :=
  modify (set_stage Stage_CreateInMemory);;
  on_stage (SetStageUpAxis "Z");;
  on_stage (SetStartTimeCode 0);;
  on_stage (SetTimeCodesPerSecond 60%float);;
  default_prim ← define_prim "/World" SrcXform;
  on_stage (SetDefaultPrim default_prim).

(** [_load_textures]: the loop over [range(self.model.ntex)], with the local
    [data_adr]. The slice of [tex_data] is reshaped to
    [(texture_height, texture_width, 3)], which raises unless the sizes agree;
    the path appended is [os.path.relpath(assets, frames)] joined with the
    file name. *)
Fixpoint _load_textures_loop (texture_id : nat) (data_adr : Z)
    (textures : list MjTexture.t) : M unit :=
  match textures with
  | [] => mret tt
  | tex :: rest =>
      let texture_height := Z.of_N (MjTexture.tex_height tex) in
      let texture_width := Z.of_N (MjTexture.tex_width tex) in
      let texture_nchannel := Z.of_N (MjTexture.tex_nchannel tex) in
      let pixels := texture_nchannel * texture_height * texture_width in
      ntexdata ← gets (fun self => MjModel.ntexdata (model (args self)));
      (if bool_decide (py_slice_len ntexdata data_adr (data_adr + pixels)
                       = texture_height * texture_width * 3)
       then mret tt
       else raise (ValueError "cannot reshape array"));;
      let texture_file_name := "texture_" +:+ pretty texture_id +:+ ".png" in
      let img_path := "../assets" +:+ "/" +:+ texture_file_name in
      modify (fun self => set_texture_files (texture_files self ++ [img_path]) self);;
      _load_textures_loop (S texture_id) (data_adr + pixels) rest
  end.

Definition _load_textures : M unit :=
  modify (set_texture_files []);;
  textures ← gets (fun self => MjModel.textures (model (args self)));
  _load_textures_loop 0 0 textures.

(** The attributes that [__init__] assigns before it builds the stage. *)
Definition new_exporter (a : ExporterArgs) : USDExporter :=
  {| args := a; frame_count := 0; updates := 0;
     geom_names := ∅; geom_refs := ∅;
     usd_lights := []; usd_cameras := [];
     scene := Renderer (model a) (height a) (width a) (max_geom a);
     stage := Stage_CreateInMemory; texture_files := [];
     next_prim := 0%nat; exported := [] |}.

(** The object a constructor leaves: none when its body raises. *)
Definition constructed (r : Result unit * USDExporter) : Result USDExporter :=
  match r with
  | (Ok _, self) => Ok self
  | (Raise e, _) => Raise e
  end.

Definition __init__ (a : ExporterArgs) : Result USDExporter :=
  let buffer_width := MjModel.offwidth (model a) in
  let buffer_height := MjModel.offheight (model a) in
  if bool_decide (width a > buffer_width) then
    Raise (ValueError (width_message (width a) buffer_width))
  else if bool_decide (height a > buffer_height) then
    Raise (ValueError (height_message (height a) buffer_height))
  else
    constructed ((_initialize_usd_stage;; _load_textures) (new_exporter a)).

Definition _get_geom_name (self : USDExporter) (geom : MjvGeom.t) : string :=
  let geom_name := mj_id2name (model (args self)) (MjvGeom.objtype geom) (MjvGeom.objid geom) in
  let geom_name :=
    match geom_name with
    | Some (String c s) => String c s
    | _ => "None"
    end in
  let geom_name := geom_name +:+ "_id" +:+ pretty (MjvGeom.objid geom) in
  match MjvGeom.objtype geom with
  | mjOBJ_GEOM => geom_name +:+ "_geom"
  | mjOBJ_TENDON => geom_name +:+ "_tendon_segid" +:+ pretty (MjvGeom.segid geom)
  | _ => geom_name
  end.

(** The list comprehension of [_load_geom]: one entry per texture id of the
    material. *)
Fixpoint geom_textures_of (texture_files : list string) (tex_type : list Z)
    (texids : list Z) : option GeomTextures :=
  match texids with
  | [] => Some []
  | i :: rest =>
      entry ← (if bool_decide (i ≠ -1)
               then file ← py_index texture_files i;
                    ty ← py_index tex_type i;
                    Some (Some (file, ty))
               else Some None);
      entries ← geom_textures_of texture_files tex_type rest;
      Some (entry :: entries)
  end.

Definition _load_geom (geom : MjvGeom.t) : M unit :=
  geom_name ← gets (fun self => _get_geom_name self geom);
  known ← gets (fun self => bool_decide (geom_name ∈ geom_names self));
  assert (negb known);;
  geom_textures ←
    (if bool_decide (MjvGeom.matid geom = -1) then mret []
     else
       self ← gets id;
       texids ← subscript (py_index (MjModel.mat_texid (model (args self))) (MjvGeom.matid geom))
                          IndexError;
       subscript (geom_textures_of (texture_files self) (MjModel.tex_type (model (args self))) texids)
                 IndexError);
  usd_geom ←
    (if bool_decide (MjvGeom.type geom = mjGEOM_MESH) then
       geom_dataid ← gets (fun self => MjModel.geom_dataid (model (args self)));
       dataid ← subscript (py_index geom_dataid (MjvGeom.objid geom)) IndexError;
       USDObject_new initial_last_visible_frame geom_name
         (SrcMesh dataid (MjvGeom.rgba geom) geom_textures)
     else if bool_decide (MjvGeom.objtype geom = mjOBJ_TENDON) then
       let mesh_config :=
         mesh_config_generator geom_name (MjvGeom.type geom) (1, 1, 1)%float true in
       USDObject_new initial_last_visible_frame geom_name
         (SrcTendon mesh_config (MjvGeom.rgba geom) geom_textures)
     else
       let mesh_config :=
         mesh_config_generator geom_name (MjvGeom.type geom) (MjvGeom.size geom) false in
       USDObject_new initial_last_visible_frame geom_name
         (SrcPrimitiveMesh mesh_config (MjvGeom.rgba geom) geom_textures));
  modify (fun self => set_geom_names ({[geom_name]} ∪ geom_names self) self);;
  modify (fun self => set_geom_refs (<[geom_name := usd_geom]> (geom_refs self)) self).

(** The body of the loop of [_update_geoms]. The record object is mutated in
    place by [update]: the mutated object is put back under its name. *)
Definition _update_geom (geom : MjvGeom.t) : M unit :=
  geom_name ← gets (fun self => _get_geom_name self geom);
  known ← gets (fun self => bool_decide (geom_name ∈ geom_names self));
  (if negb known then _load_geom geom else mret tt);;
  refs ← gets geom_refs;
  ref ← subscript (refs !! geom_name) (KeyError geom_name);
  frame ← gets updates;
  let visible := (0 <? alpha (MjvGeom.rgba geom))%float in
  ref' ←
    (if bool_decide (MjvGeom.objtype geom = mjOBJ_TENDON) then
       let tendon_scale := MjvGeom.size geom in
       USDObject_update ref (MjvGeom.pos geom) (MjvGeom.mat geom) (Some tendon_scale) visible frame
     else
       USDObject_update ref (MjvGeom.pos geom) (MjvGeom.mat geom) None visible frame);
  modify (fun self => set_geom_refs (<[geom_name := ref']> (geom_refs self)) self).

Definition _update_geoms : M unit :=
  geoms ← gets (fun self => MjvScene.geoms (scene self));
  for_each geoms _update_geom.

(** The body of the loop of [_load_lights]. *)
Definition _load_light (i : nat) (light : MjvLight.t) : M unit :=
  if negb (allclose_origin (MjvLight.pos light)) then
    usd_light ← USDSphereLight (pretty i) None;
    modify (fun self => set_usd_lights (usd_lights self ++ [Some usd_light]) self)
  else
    modify (fun self => set_usd_lights (usd_lights self ++ [None]) self).

Definition _load_lights : M unit :=
  lights ← gets (fun self => MjvScene.lights (scene self));
  for_range 0 lights _load_light.

(** The body of the loop of [_update_lights]; [continue] is [mret tt]. *)
Definition _update_light (i : nat) (light : MjvLight.t) : M unit :=
  if allclose_origin (MjvLight.pos light) then mret tt
  else
    usd_lights ← gets usd_lights;
    match usd_lights !! i with
    | None | Some None => mret tt
    | Some (Some usd_light) =>
        intensity ← gets (fun self => light_intensity (args self));
        frame ← gets updates;
        USDSphereLight_update usd_light (MjvLight.pos light) intensity
          (MjvLight.diffuse light) frame
    end.

Definition _update_lights : M unit :=
  lights ← gets (fun self => MjvScene.lights (scene self));
  for_range 0 lights _update_light.

Definition _load_cameras : M unit :=
  camera_names ← gets (fun self => camera_names (args self));
  match camera_names with
  | Some names =>
      for_each names (fun name =>
        usd_camera ← USDCamera_new name;
        modify (fun self => set_usd_cameras (usd_cameras self ++ [usd_camera]) self))
  | None => mret tt
  end.

Definition neg3 (v : vec3) : vec3 :=
  let '(x, y, z) := v in (- x, - y, - z)%float.

(** The matrix whose columns are [c0], [c1] and [c2]. *)
Definition of_columns (c0 c1 c2 : vec3) : mat3 :=
  let '(x0, y0, z0) := c0 in
  let '(x1, y1, z1) := c1 in
  let '(x2, y2, z2) := c2 in
  ((x0, x1, x2), (y0, y1, y2), (z0, z1, z2)).

Definition _update_cameras (data : MjData) (scene_option : MjvOption) : M unit :=
  usd_cameras ← gets usd_cameras;
  for_range 0 usd_cameras (fun i camera =>
    camera_names ← gets (fun self => camera_names (args self));
    names ← subscript camera_names TypeError;
    camera_name ← subscript (names !! i) IndexError;
    modify (fun self =>
      set_scene (renderer_update_scene (model (args self)) data scene_option (Some camera_name)) self);;
    cameras ← gets (fun self => MjvScene.camera (scene self));
    let avg_camera := mjv_averageCamera (fst cameras) (snd cameras) in
    let forward := MjvGLCamera.forward avg_camera in
    let up := MjvGLCamera.up avg_camera in
    let right := cross forward up in
    let rotation := of_columns right up (neg3 forward) in
    frame ← gets updates;
    USDCamera_update camera (MjvGLCamera.pos avg_camera) rotation frame).

(** The block [if self.updates == 0: ...] of [update_scene]. *)
Definition first_update_block : M unit :=
  updates ← gets updates;
  if bool_decide (updates = 0)
  then _initialize_usd_stage;; _load_lights;; _load_cameras
  else mret tt.

(** The statements of [update_scene], in order. *)
Definition update_scene_steps (data : MjData) (scene_option : option MjvOption) : list (M unit) :=
  let scene_option := default MjvOption_default scene_option in
  [ modify (fun self => set_frame_count (frame_count self + 1) self);
    modify (fun self =>
      set_scene (renderer_update_scene (model (args self)) data scene_option None) self);
    first_update_block;
    _update_geoms;
    _update_lights;
    _update_cameras data scene_option;
    modify (fun self => set_updates (updates self + 1) self) ].

Definition update_scene (data : MjData) (scene_option : option MjvOption) : M unit :=
  for_each (update_scene_steps data scene_option) (fun step => step).

Definition add_light (pos : vec3) (intensity : Z) (radius : option float)
    (color : vec3) (obj_name : string) (light_type : string) : M unit :=
  if bool_decide (light_type = "sphere") then
    new_light ← USDSphereLight obj_name (Some radius);
    USDSphereLight_update new_light pos intensity color 0
  else if bool_decide (light_type = "dome") then
    new_light ← USDDomeLight obj_name;
    USDDomeLight_update new_light intensity color
  else mret tt.

Definition add_camera (pos : vec3) (rotation_xyz : vec3) (obj_name : string) : M unit :=
  new_camera ← USDCamera_new obj_name;
  let quat := mju_euler2Quat rotation_xyz "xyz" in
  let R := mju_quat2Mat quat in
  USDCamera_update_flat flat_cam_mat new_camera pos R 0.

(** The file that [save_scene] writes. *)
Definition frame_path (self : USDExporter) (filetype : string) : string :=
  output_directory_root (args self) +:+ "/" +:+ output_directory_name (args self) +:+ "/"
  +:+ "frames/frame_" +:+ pretty (frame_count self) +:+ "." +:+ filetype.

Definition save_scene (filetype : string) : M unit :=
  assert (bool_decide (filetype ∈ ["usd"; "usda"; "usdc"]));;
  self ← gets id;
  on_stage (SetEndTimeCode (frame_count self));;
  refs ← gets (fun self => map_to_list (geom_refs self));
  for_each refs (fun '(_, geom_ref) =>
    USDObject_update_visibility geom_ref false (last_visible_frame geom_ref + 1));;
  modify (fun self =>
    set_exported (exported self ++ [(frame_path self filetype, stage self)]) self).

(** ** Sessions *)

(** The calls a session makes to an exporter. *)
Inductive Call :=
| Call_update_scene (data : MjData) (scene_option : option MjvOption)
| Call_save_scene (filetype : string)
| Call_add_light (pos : vec3) (intensity : Z) (radius : option float)
    (color : vec3) (obj_name : string) (light_type : string)
| Call_add_camera (pos : vec3) (rotation_xyz : vec3) (obj_name : string).

Definition run_call (c : Call) : M unit :=
  match c with
  | Call_update_scene data scene_option => update_scene data scene_option
  | Call_save_scene filetype => save_scene filetype
  | Call_add_light pos intensity radius color obj_name light_type =>
      add_light pos intensity radius color obj_name light_type
  | Call_add_camera pos rotation_xyz obj_name => add_camera pos rotation_xyz obj_name
  end.

(** The exporter after a series of calls, each one made whether or not the
    one before it raised. *)
Definition after_calls (calls : list Call) (self : USDExporter) : USDExporter :=
  foldl (fun self c => (run_call c self).2) self calls.

(** A loop that calls [update_scene] for each frame and stops at the first
    exception. *)
Definition update_scenes (frames : list (MjData * option MjvOption)) : M unit :=
  for_each frames (fun frame => update_scene frame.1 frame.2).

(** The snapshot that the renderer computes at the start of [update_scene]. *)
Definition snapshot (self : USDExporter) (frame : MjData * option MjvOption) : MjvScene.t :=
  renderer_update_scene (model (args self)) frame.1 (default MjvOption_default frame.2) None.

(** ** Reasoning about method bodies *)

(** [wp m self Q]: running [m] on [self] ends with a result and an exporter
    that satisfy [Q]. *)
Definition wp {A} (m : M A) (self : USDExporter) (Q : Result A -> USDExporter -> Prop) : Prop :=
  Q (m self).1 (m self).2.

Lemma wp_ret {A} (a : A) self Q : Q (Ok a) self -> wp (mret a) self Q.
Proof. done. Qed.

Lemma wp_raise {A} e self (Q : Result A -> USDExporter -> Prop) :
  Q (Raise e) self -> wp (raise e) self Q.
Proof. done. Qed.

Lemma wp_gets {A} (f : USDExporter -> A) self Q : Q (Ok (f self)) self -> wp (gets f) self Q.
Proof. done. Qed.

Lemma wp_modify f self Q : Q (Ok tt) (f self) -> wp (modify f) self Q.
Proof. done. Qed.

Lemma wp_on_stage f self Q :
  Q (Ok tt) (set_stage (f (stage self)) self) -> wp (on_stage f) self Q.
Proof. done. Qed.

Lemma wp_define_prim name src self Q :
  Q (Ok (next_prim self))
    (set_next_prim (S (next_prim self))
       (set_stage (Stage_with_prims
          <[next_prim self := {| prim_name := name; prim_source := src; prim_attrs := ∅ |}]>
          (stage self)) self)) ->
  wp (define_prim name src) self Q.
Proof. done. Qed.

Lemma wp_bind {A B} (m : M A) (f : A -> M B) self Q :
  wp m self (fun r self' =>
    match r with
    | Ok a => wp (f a) self' Q
    | Raise e => Q (Raise e) self'
    end) ->
  wp (m ≫= f) self Q.
Proof.
  unfold wp, mbind, M_bind. destruct (m self) as [[a|e] self']; done.
Qed.

Lemma wp_mono {A} (m : M A) self (Q Q' : Result A -> USDExporter -> Prop) :
  wp m self Q -> (forall r self', Q r self' -> Q' r self') -> wp m self Q'.
Proof. unfold wp. auto. Qed.

Lemma wp_assert b self Q :
  (b = true -> Q (Ok tt) self) ->
  (b = false -> Q (Raise AssertionError) self) ->
  wp (assert b) self Q.
Proof. destruct b; unfold wp; simpl; auto. Qed.

Lemma wp_subscript {A} (o : option A) e self Q :
  (forall a, o = Some a -> Q (Ok a) self) ->
  (o = None -> Q (Raise e) self) ->
  wp (subscript o e) self Q.
Proof. destruct o; unfold wp; simpl; auto. Qed.

(** A loop keeps an invariant [I] that its body keeps; when the body raises,
    the loop ends with that exception. *)
Lemma wp_for_each {A} (I : USDExporter -> Prop) (l : list A) body self Q :
  I self ->
  (forall x self, x ∈ l -> I self ->
     wp (body x) self (fun r self' =>
       match r with Ok _ => I self' | Raise e => Q (Raise e) self' end)) ->
  (forall self, I self -> Q (Ok tt) self) ->
  wp (for_each l body) self Q.
Proof.
  revert self. induction l as [|x l IH]; intros self HI Hbody Hend.
  - apply wp_ret. auto.
  - simpl. apply wp_bind. eapply wp_mono.
    + apply Hbody; [left | done].
    + intros [[]|e] self' H; [|done].
      apply IH; [done | | done].
      intros y self'' Hy. apply Hbody. by right.
Qed.

Lemma wp_for_range {A} (I : nat -> USDExporter -> Prop) (l : list A) body start self Q :
  I start self ->
  (forall i x self, l !! i = Some x -> I (start + i)%nat self ->
     wp (body (start + i)%nat x) self (fun r self' =>
       match r with Ok _ => I (S (start + i)) self' | Raise e => Q (Raise e) self' end)) ->
  (forall self, I (start + length l)%nat self -> Q (Ok tt) self) ->
  wp (for_range start l body) self Q.
Proof.
  revert start self. induction l as [|x l IH]; intros start self HI Hbody Hend.
  - apply wp_ret. apply Hend. simpl. by rewrite Nat.add_0_r.
  - simpl. apply wp_bind. eapply wp_mono.
    + specialize (Hbody 0%nat x self eq_refl). rewrite Nat.add_0_r in Hbody. by apply Hbody.
    + intros [[]|e] self' H; [|done].
      apply IH; [done | | ].
      * intros i y self'' Hi. replace (S start + i)%nat with (start + S i)%nat by lia.
        by apply Hbody.
      * intros self''. replace (S start + length l)%nat with (start + length (x :: l))%nat
          by (simpl; lia). apply Hend.
Qed.

(** What a [wp] says about the run itself. *)
Lemma wp_run {A} (m : M A) self Q : wp m self Q -> Q (m self).1 (m self).2.
Proof. done. Qed.

(** One step through straight-line code. *)
Ltac wp_line :=
  lazymatch goal with
  | |- wp (mret _) _ _ => apply wp_ret
  | |- wp (raise _) _ _ => apply wp_raise
  | |- wp (gets _) _ _ => apply wp_gets
  | |- wp (modify _) _ _ => apply wp_modify
  | |- wp (on_stage _) _ _ => apply wp_on_stage
  | |- wp (write_prim _ _) _ _ => apply wp_on_stage
  | |- wp (define_prim _ _) _ _ => apply wp_define_prim
  | |- wp (assert _) _ _ => apply wp_assert; intros; try discriminate
  | |- wp (subscript _ _) _ _ => apply wp_subscript; intros; try discriminate
  | |- wp (_ ≫= _) _ _ => apply wp_bind
  | |- match ?r with Ok _ => _ | Raise _ => _ end => progress cbv beta iota
  | |- _ => progress cbv beta
  end.

(** One step, also into the branches of a conditional. *)
Ltac wp_step :=
  lazymatch goal with
  | |- wp (if ?b then _ else _) _ _ => destruct b eqn:?
  | |- wp (match ?x with _ => _ end) _ _ => destruct x eqn:?
  | |- _ => wp_line
  end.

Ltac wp_lines := repeat wp_line.
Ltac wp_steps := repeat wp_step.

(** ** Construction *)

Lemma _initialize_usd_stage_run self :
  exists st,
    _initialize_usd_stage self = (Ok tt, set_next_prim (S (next_prim self)) (set_stage st self))
    /\ start_time_code st = Some 0 /\ end_time_code st = None
    /\ prims st = {[ next_prim self := {| prim_name := "/World"; prim_source := SrcXform;
                                          prim_attrs := ∅ |} ]}.
Proof. eexists. split; [reflexivity|]. simpl. by rewrite insert_empty. Qed.

(** The size of the texture data that [_load_textures] reads for textures of
    three channels. *)
Definition rgb_size (textures : list MjTexture.t) : Z :=
  foldr (fun tex n =>
    3 * Z.of_N (MjTexture.tex_height tex) * Z.of_N (MjTexture.tex_width tex) + n) 0 textures.

Lemma py_slice_len_fits n start len :
  0 <= start -> 0 <= len -> start + len <= n -> py_slice_len n start (start + len) = len.
Proof.
  intros. unfold py_slice_len.
  rewrite !bool_decide_eq_false_2 by lia. lia.
Qed.

Lemma _load_textures_loop_ok textures : forall texture_id data_adr self,
  Forall (fun tex => MjTexture.tex_nchannel tex = 3%N) textures ->
  0 <= data_adr ->
  data_adr + rgb_size textures <= MjModel.ntexdata (model (args self)) ->
  wp (_load_textures_loop texture_id data_adr textures) self (fun r self' =>
    r = Ok tt /\ args self' = args self /\ frame_count self' = frame_count self
    /\ updates self' = updates self /\ geom_names self' = geom_names self
    /\ geom_refs self' = geom_refs self /\ usd_lights self' = usd_lights self
    /\ usd_cameras self' = usd_cameras self /\ stage self' = stage self
    /\ exported self' = exported self).
Proof.
  induction textures as [|tex rest IH]; intros texture_id data_adr self Hch Hadr Hfit.
  - apply wp_ret. done.
  - inversion_clear Hch as [|? ? Hc Hrest]. simpl in Hfit.
    assert (0 <= rgb_size rest).
    { clear. induction rest; simpl; lia. }
    cbn [_load_textures_loop]. rewrite Hc.
    apply wp_bind, wp_gets. cbv beta iota.
    apply wp_bind. rewrite bool_decide_eq_true_2.
    2:{ replace (Z.of_N 3 * Z.of_N (MjTexture.tex_height tex) * Z.of_N (MjTexture.tex_width tex))
          with (3 * Z.of_N (MjTexture.tex_height tex) * Z.of_N (MjTexture.tex_width tex)) by lia.
        rewrite py_slice_len_fits; lia. }
    apply wp_ret. cbv beta iota.
    apply wp_bind, wp_modify. cbv beta iota.
    eapply wp_mono.
    + apply IH; [done | lia | simpl; lia].
    + simpl. intros r self'. tauto.
Qed.

(** Construction succeeds for dimensions within the buffer and a model whose
    textures have three channels and lie within [tex_data]. *)
Lemma __init___ok (a : ExporterArgs) :
  width a <= MjModel.offwidth (model a) ->
  height a <= MjModel.offheight (model a) ->
  Forall (fun tex => MjTexture.tex_nchannel tex = 3%N) (MjModel.textures (model a)) ->
  rgb_size (MjModel.textures (model a)) <= MjModel.ntexdata (model a) ->
  exists self, __init__ a = Ok self.
Proof.
  intros Hw Hh Hch Hfit. unfold __init__.
  rewrite !bool_decide_eq_false_2 by lia.
  destruct (_initialize_usd_stage_run (new_exporter a)) as (st & Hrun & _).
  unfold mbind, M_bind. rewrite Hrun.
  unfold _load_textures, mbind, M_bind. simpl.
  pose proof (_load_textures_loop_ok (MjModel.textures (model a)) 0%nat 0
    (set_texture_files [] (set_next_prim 1 (set_stage st (new_exporter a)))) Hch) as H.
  unfold wp in H. simpl in H.
  destruct H as [H _]; [lia | lia |].
  destruct (_load_textures_loop _ _ _ _) as [r self']. simpl in H. subst r.
  by eexists.
Qed.

(** C4: [__init__] checks the requested image size against the offscreen
    buffer of the model. When [width <= offwidth] and [height <= offheight]
    the check passes and construction goes on with the stage and the
    textures; when [width > offwidth] or [height > offheight] it raises
    [ValueError]. *)
Theorem init_checks_dimensions (a : ExporterArgs) :
  (width a <= MjModel.offwidth (model a) /\ height a <= MjModel.offheight (model a) ->
     __init__ a = constructed ((_initialize_usd_stage;; _load_textures) (new_exporter a)))
  /\ (width a > MjModel.offwidth (model a) \/ height a > MjModel.offheight (model a) ->
     exists msg, __init__ a = Raise (ValueError msg)).
Proof.
  unfold __init__. split.
  - intros [Hw Hh]. by rewrite !bool_decide_eq_false_2 by lia.
  - intros Hbig. case_bool_decide; [by eexists|].
    rewrite bool_decide_eq_true_2 by lia. by eexists.
Qed.

(** ** Export *)

(** What [save_scene] leaves unchanged, with the end of the time range it sets
    and the file it writes. *)
Definition saved (filetype : string) (self self' : USDExporter) : Prop :=
  args self' = args self /\ frame_count self' = frame_count self
  /\ updates self' = updates self /\ geom_names self' = geom_names self
  /\ geom_refs self' = geom_refs self /\ usd_lights self' = usd_lights self
  /\ usd_cameras self' = usd_cameras self /\ next_prim self' = next_prim self
  /\ start_time_code (stage self') = start_time_code (stage self)
  /\ end_time_code (stage self') = Some (frame_count self)
  /\ exported self' = (exported self ++ [(frame_path self filetype, stage self')])%list.

Lemma save_scene_run filetype self :
  filetype ∈ ["usd"; "usda"; "usdc"] ->
  wp (save_scene filetype) self (fun r self' => r = Ok tt /\ saved filetype self self').
Proof.
  intros Hft. unfold save_scene.
  rewrite bool_decide_eq_true_2 by done. wp_steps.
  apply (wp_for_each (fun self' =>
    args self' = args self /\ frame_count self' = frame_count self
    /\ updates self' = updates self /\ geom_names self' = geom_names self
    /\ geom_refs self' = geom_refs self /\ usd_lights self' = usd_lights self
    /\ usd_cameras self' = usd_cameras self /\ next_prim self' = next_prim self
    /\ start_time_code (stage self') = start_time_code (stage self)
    /\ end_time_code (stage self') = Some (frame_count self)
    /\ exported self' = exported self)).
  - done.
  - intros [name geom_ref] self' _ HI. unfold USDObject_update_visibility. wp_steps.
    exact HI.
  - intros self' HI. wp_steps. unfold saved, frame_path. simpl.
    destruct HI as (Ha & Hf & ? & ? & ? & ? & ? & ? & ? & ? & He).
    rewrite Ha, Hf, He. done.
Qed.

(** C5: [save_scene] with a filetype outside [usd], [usda], [usdc] fails on its
    assertion, before the document is touched and before any file is written
    (the exporter is left as it was); with a filetype of the set the assertion
    passes and the document is written to the frame file. *)
Theorem save_scene_checks_filetype (filetype : string) (self : USDExporter) :
  (filetype ∉ ["usd"; "usda"; "usdc"] ->
     save_scene filetype self = (Raise AssertionError, self))
  /\ (filetype ∈ ["usd"; "usda"; "usdc"] ->
     exists self', save_scene filetype self = (Ok tt, self')
       /\ exported self' = (exported self ++ [(frame_path self filetype, stage self')])%list).
Proof.
  split.
  - intros Hft. unfold save_scene, mbind, M_bind.
    by rewrite bool_decide_eq_false_2.
  - intros Hft. pose proof (save_scene_run filetype self Hft) as H.
    unfold wp in H. destruct (save_scene filetype self) as [r self'].
    simpl in H. destruct H as [-> Hs]. exists self'. split; [done|].
    apply Hs.
Qed.

(** ** User-defined lights *)

(** The prim of a light after its single update. *)
Definition sphere_light_prim (obj_name : string) (radius : option float)
    (pos : vec3) (intensity : Z) (color : vec3) : Prim :=
  {| prim_name := obj_name;
     prim_source := SrcSphereLight (Some radius);
     prim_attrs :=
       {[ "xformOp:translate" := {| attr_default := None; attr_samples := {[ 0 := VVec3 pos ]} |};
          "inputs:intensity" := {| attr_default := None; attr_samples := {[ 0 := VInt intensity ]} |};
          "inputs:color" := {| attr_default := None; attr_samples := {[ 0 := VVec3 color ]} |} ]} |}.

Definition dome_light_prim (obj_name : string) (intensity : Z) (color : vec3) : Prim :=
  {| prim_name := obj_name;
     prim_source := SrcDomeLight;
     prim_attrs :=
       {[ "inputs:intensity" := {| attr_default := Some (VInt intensity); attr_samples := ∅ |};
          "inputs:color" := {| attr_default := Some (VVec3 color); attr_samples := ∅ |} ]} |}.

(** The exporter after one prim has been added to its stage. *)
Definition with_new_prim (p : Prim) (self : USDExporter) : USDExporter :=
  set_next_prim (S (next_prim self))
    (set_stage (Stage_with_prims <[next_prim self := p]> (stage self)) self).

Lemma Stage_with_prims_compose f g st :
  Stage_with_prims f (Stage_with_prims g st) = Stage_with_prims (f ∘ g) st.
Proof. done. Qed.

Lemma Stage_with_prims_ext f g st :
  f (prims st) = g (prims st) -> Stage_with_prims f st = Stage_with_prims g st.
Proof. unfold Stage_with_prims. by intros ->. Qed.

(** C10: [add_light] with a [light_type] other than [sphere] and [dome] does
    nothing: it returns without an error and leaves the exporter as it was.
    With [sphere] it adds a sphere-light prim to the stage, updated once, at
    time sample 0; with [dome] it adds a dome-light prim, whose single update
    sets values without a time sample. *)
Theorem add_light_by_type (pos : vec3) (intensity : Z) (radius : option float)
    (color : vec3) (obj_name light_type : string) (self : USDExporter) :
  (light_type ≠ "sphere" -> light_type ≠ "dome" ->
     add_light pos intensity radius color obj_name light_type self = (Ok tt, self))
  /\ (light_type = "sphere" ->
     add_light pos intensity radius color obj_name light_type self
     = (Ok tt, with_new_prim (sphere_light_prim obj_name radius pos intensity color) self))
  /\ (light_type = "dome" ->
     add_light pos intensity radius color obj_name light_type self
     = (Ok tt, with_new_prim (dome_light_prim obj_name intensity color) self)).
Proof.
  unfold add_light. split; [|split].
  - intros Hs Hd. by rewrite !bool_decide_eq_false_2.
  - intros H; subst light_type. simpl.
    unfold USDSphereLight, USDSphereLight_update, write_prim, on_stage, modify,
      define_prim, mbind, M_bind, mret, M_ret, with_new_prim, set_stage, set_next_prim.
    cbn. do 2 f_equal. rewrite !Stage_with_prims_compose.
    apply Stage_with_prims_ext. cbn. by rewrite !alter_insert_eq.
  - intros H; subst light_type. simpl.
    unfold USDDomeLight, USDDomeLight_update, write_prim, on_stage, modify,
      define_prim, mbind, M_bind, mret, M_ret, with_new_prim, set_stage, set_next_prim.
    cbn. do 2 f_equal. rewrite !Stage_with_prims_compose.
    apply Stage_with_prims_ext. cbn. by rewrite !alter_insert_eq.
Qed.

(** ** Time samples under the writes of the record classes *)

Lemma prim_attr_Prim_Set name v time p name' :
  prim_attr name' (Prim_Set name v time p)
  = if decide (name = name') then Attr_Set v time (prim_attr name p) else prim_attr name' p.
Proof.
  unfold prim_attr, Prim_Set. simpl. rewrite lookup_insert.
  by destruct (decide (name = name')) as [->|].
Qed.

Lemma samples_of_write st id name v time id' name' :
  samples_of (Stage_with_prims (alter (Prim_Set name v time) id) st) id' name'
  = if decide (id = id' /\ name = name' /\ is_Some (prims st !! id))
    then match time with
         | Some t => <[t := v]> (samples_of st id' name')
         | None => samples_of st id' name'
         end
    else samples_of st id' name'.
Proof.
  unfold samples_of. simpl. rewrite lookup_alter.
  destruct (decide (id = id')) as [<-|Hid].
  - destruct (prims st !! id) as [p|] eqn:Hp; simpl.
    + rewrite prim_attr_Prim_Set.
      destruct (decide (name = name')) as [<-|Hn].
      * rewrite decide_True by eauto. by destruct time.
      * rewrite decide_False by tauto. done.
    + rewrite decide_False; [done|]. intros (_ & _ & []). done.
  - rewrite decide_False by tauto. done.
Qed.

Lemma samples_of_define st id p id' name' :
  prim_attrs p = ∅ ->
  samples_of (Stage_with_prims <[id := p]> st) id' name'
  = if decide (id = id') then ∅ else samples_of st id' name'.
Proof.
  intros Hp. unfold samples_of. simpl. rewrite lookup_insert.
  destruct (decide (id = id')); [|done].
  unfold prim_attr. by rewrite Hp, lookup_empty.
Qed.

(** ** What the steps inside [update_scene] keep *)

(** [Inner self0 self]: from [self0] to [self] the exporter has only moved
    the way the statements between the two counter increments of
    [update_scene] move it. Counters, arguments and files stay; records are
    added and kept; every time sample written lies at [updates self0]. *)
Record Inner (self0 self : USDExporter) : Prop := {
  inner_args : args self = args self0;
  inner_frame_count : frame_count self = frame_count self0;
  inner_updates : updates self = updates self0;
  inner_texture_files : texture_files self = texture_files self0;
  inner_exported : exported self = exported self0;
  inner_next_prim : (next_prim self0 <= next_prim self)%nat;
  inner_start :
    start_time_code (stage self0) = Some 0 -> start_time_code (stage self) = Some 0;
  inner_names : geom_names self0 ⊆ geom_names self;
  inner_refs : forall n ref, geom_refs self0 !! n = Some ref ->
    exists ref', geom_refs self !! n = Some ref' /\ obj_prim ref' = obj_prim ref;
  inner_keys : forall id name k, k ∈ dom (samples_of (stage self) id name) ->
    k = updates self0 \/ k ∈ dom (samples_of (stage self0) id name);
}.

#[local] Instance Inner_refl : Reflexive Inner.
Proof. intros s. split; eauto. Qed.

Lemma Inner_step self0 self1 self2 : Inner self1 self2 -> Inner self0 self1 -> Inner self0 self2.
Proof.
  intros [] []. split; try congruence; try (etrans; eassumption); auto.
  - intros n ref Hn. edestruct inner_refs1 as (ref1 & Hn1 & ?); [done|].
    edestruct inner_refs0 as (ref2 & Hn2 & ?); [done|].
    exists ref2. split; [done | congruence].
  - intros id name k Hk. destruct (inner_keys0 _ _ _ Hk) as [->|Hk1]; [left; congruence|].
    auto.
Qed.

Lemma Inner_set_scene self v : Inner self (set_scene v self).
Proof. split; simpl; eauto. Qed.

Lemma Inner_set_usd_lights self v : Inner self (set_usd_lights v self).
Proof. split; simpl; eauto. Qed.

Lemma Inner_set_usd_cameras self v : Inner self (set_usd_cameras v self).
Proof. split; simpl; eauto. Qed.

Lemma Inner_set_geom_names self n : Inner self (set_geom_names ({[n]} ∪ geom_names self) self).
Proof. split; simpl; eauto. set_solver. Qed.

Lemma Inner_set_geom_refs self n obj :
  (forall ref, geom_refs self !! n = Some ref -> obj_prim obj = obj_prim ref) ->
  Inner self (set_geom_refs (<[n := obj]> (geom_refs self)) self).
Proof.
  intros Hobj. split; simpl; eauto.
  intros n' ref Hn'. destruct (decide (n = n')) as [<-|Hne].
  - exists obj. rewrite lookup_insert_eq. eauto.
  - exists ref. by rewrite lookup_insert_ne.
Qed.

Lemma Inner_write self id name v t :
  t = updates self ->
  Inner self (set_stage (Stage_with_prims (alter (Prim_Set name v (Some t)) id) (stage self)) self).
Proof.
  intros ->. split; simpl; eauto.
  intros id' name' k. rewrite samples_of_write. case_decide; [|auto].
  rewrite dom_insert_L. set_solver.
Qed.

Lemma Inner_define self p :
  prim_attrs p = ∅ ->
  Inner self (set_next_prim (S (next_prim self))
    (set_stage (Stage_with_prims <[next_prim self := p]> (stage self)) self)).
Proof.
  intros Hp. split; simpl; eauto.
  intros id' name' k. rewrite samples_of_define by done. case_decide; [set_solver|auto].
Qed.

Lemma Inner_initialize self st :
  start_time_code st = Some 0 ->
  (forall id p, prims st !! id = Some p -> prim_attrs p = ∅) ->
  Inner self (set_next_prim (S (next_prim self)) (set_stage st self)).
Proof.
  intros Hstart Hprims. split; simpl; eauto.
  intros id name k. unfold samples_of.
  destruct (prims st !! id) as [p|] eqn:Hp; [|set_solver].
  unfold prim_attr. rewrite (Hprims _ _ Hp), lookup_empty. set_solver.
Qed.

Ltac inner_prim :=
  first
    [ apply Inner_set_scene | apply Inner_set_usd_lights | apply Inner_set_usd_cameras
    | apply Inner_set_geom_names
    | apply Inner_write; reflexivity
    | apply Inner_define; reflexivity ].

(** Split a chain of assignments into its links. *)
Ltac inner_chain :=
  repeat (eapply Inner_step; [solve [inner_prim]|]); try eassumption.

(** The names seen are those of the records. *)
Definition Consistent (self : USDExporter) : Prop :=
  geom_names self = dom (geom_refs self).

Definition Kept (self0 self : USDExporter) : Prop :=
  Consistent self /\ Inner self0 self.

Lemma _load_geom_kept self0 self geom :
  Kept self0 self -> wp (_load_geom geom) self (fun _ self' => Kept self0 self').
Proof.
  intros [Hc Hi]. unfold _load_geom, USDObject_new. wp_steps; try (by split).
  all: match goal with H : negb _ = true |- _ =>
         apply negb_true_iff, bool_decide_eq_false in H end.
  all: split;
    [ unfold Consistent in *; simpl; rewrite dom_insert_L; congruence
    | eapply Inner_step;
      [ apply Inner_set_geom_refs; simpl; intros ref Href;
        exfalso; apply elem_of_dom_2 in Href; congruence
      | inner_chain ] ].
Qed.

Lemma USDObject_update_kept self0 self ref pos mat scale visible :
  Kept self0 self ->
  wp (USDObject_update ref pos mat scale visible (updates self)) self (fun r self' =>
    Kept self0 self' /\ geom_refs self' = geom_refs self
    /\ exists ref', r = Ok ref' /\ obj_prim ref' = obj_prim ref).
Proof.
  intros [Hc Hi]. unfold USDObject_update, USDObject_update_visibility.
  wp_steps; (split; [split; [done | inner_chain] | eauto]).
Qed.

Lemma _update_geom_kept self0 self geom :
  Kept self0 self -> wp (_update_geom geom) self (fun _ self' => Kept self0 self').
Proof.
  intros HK. unfold _update_geom. wp_lines.
  eapply wp_mono.
  { instantiate (1 := fun _ self' => Kept self0 self').
    wp_step; [by apply _load_geom_kept | by wp_step]. }
  intros [[]|e] self1 HK1; [|done].
  wp_lines; [|done].
  eapply wp_mono.
  { instantiate (1 := fun r self' => Kept self0 self' /\ geom_refs self' = geom_refs self1
      /\ exists ref', r = Ok ref' /\ obj_prim ref' = obj_prim a).
    wp_step; by apply USDObject_update_kept. }
  intros r self2 (HK2 & Hrefs & ref' & -> & Hprim). wp_lines.
  destruct HK2 as [Hc Hi]. split.
  - unfold Consistent in *. simpl. rewrite dom_insert_L, <- Hc.
    assert (_get_geom_name self geom ∈ geom_names self2).
    { rewrite Hc, Hrefs. by eapply elem_of_dom_2. }
    symmetry. apply subseteq_union_1_L. by apply singleton_subseteq_l.
  - eapply Inner_step; [|done]. apply Inner_set_geom_refs.
    intros ref. rewrite Hrefs. congruence.
Qed.

Lemma _update_geoms_kept self0 self :
  Kept self0 self -> wp _update_geoms self (fun _ self' => Kept self0 self').
Proof.
  intros HK. unfold _update_geoms. wp_steps.
  apply (wp_for_each (Kept self0)); [done | | done].
  intros geom self' _ HK'. eapply wp_mono; [by apply _update_geom_kept|].
  by intros [|].
Qed.

Lemma _initialize_usd_stage_kept self0 self :
  Kept self0 self -> wp _initialize_usd_stage self (fun _ self' => Kept self0 self').
Proof.
  intros [Hc Hi]. destruct (_initialize_usd_stage_run self) as (st & Hrun & Hstart & _ & Hprims).
  unfold wp. rewrite Hrun. simpl. split; [done|].
  eapply Inner_step; [|done]. apply Inner_initialize; [done|].
  intros id p. rewrite Hprims. intros [_ <-]%lookup_singleton_Some. done.
Qed.

Lemma _load_lights_kept self0 self :
  Kept self0 self -> wp _load_lights self (fun _ self' => Kept self0 self').
Proof.
  intros HK. unfold _load_lights. wp_lines.
  apply (wp_for_range (fun _ => Kept self0)); [done | | done].
  intros i light self' _ [Hc Hi]. unfold _load_light, USDSphereLight.
  wp_step; wp_lines; (split; [done | inner_chain]).
Qed.

Lemma _update_lights_kept self0 self :
  Kept self0 self -> wp _update_lights self (fun _ self' => Kept self0 self').
Proof.
  intros HK. unfold _update_lights. wp_lines.
  apply (wp_for_range (fun _ => Kept self0)); [done | | done].
  intros i light self' _ [Hc Hi]. unfold _update_light, USDSphereLight_update.
  repeat wp_step; (split; [done | inner_chain]).
Qed.

Lemma _load_cameras_kept self0 self :
  Kept self0 self -> wp _load_cameras self (fun _ self' => Kept self0 self').
Proof.
  intros HK. unfold _load_cameras. wp_lines. wp_step; [|by wp_lines].
  apply (wp_for_each (Kept self0)); [done | | done].
  intros name self' _ [Hc Hi]. unfold USDCamera_new.
  wp_lines. split; [done | inner_chain].
Qed.

Lemma _update_cameras_kept self0 self data scene_option :
  Kept self0 self ->
  wp (_update_cameras data scene_option) self (fun _ self' => Kept self0 self').
Proof.
  intros HK. unfold _update_cameras. wp_lines.
  apply (wp_for_range (fun _ => Kept self0)); [done | | done].
  intros i camera self' _ [Hc Hi]. unfold USDCamera_update.
  wp_lines; (split; [done | inner_chain]).
Qed.

Lemma first_update_block_kept self0 self :
  Kept self0 self -> wp first_update_block self (fun _ self' => Kept self0 self').
Proof.
  intros HK. unfold first_update_block. wp_lines. wp_step; [|by wp_lines].
  wp_line. eapply wp_mono; [by apply _initialize_usd_stage_kept|].
  intros [[]|e] self1 HK1; [|done]. wp_line.
  eapply wp_mono; [by apply _load_lights_kept|].
  intros [[]|e] self2 HK2; [|done].
  eapply wp_mono; [by apply _load_cameras_kept|]. by intros [|].
Qed.

(** ** [update_scene] as a whole *)

(** The exporter at the first statement of [update_scene], after the frame
    counter has been incremented. *)
Definition entered (self : USDExporter) : USDExporter :=
  set_frame_count (frame_count self + 1) self.

(** How a call of [update_scene] ends: [mid] is the exporter at the last
    statement reached before the update counter is incremented. *)
Definition update_scene_ends (self : USDExporter) (r : Result unit) (self' : USDExporter) : Prop :=
  exists mid, Kept (entered self) mid
    /\ ((r = Ok tt /\ self' = set_updates (updates mid + 1) mid)
        \/ (exists e, r = Raise e /\ self' = mid)).

Lemma update_scene_run self data scene_option :
  Consistent self ->
  wp (update_scene data scene_option) self (update_scene_ends self).
Proof.
  intros Hc. unfold update_scene, update_scene_steps. cbn [for_each].
  assert (Kept (entered self) (entered self)) as HK by (by split).
  do 5 wp_line.
  match goal with |- wp _ ?s _ => assert (Kept (entered self) s) as HK1 end.
  { split; [done|]. unfold entered. inner_chain. reflexivity. }
  eapply wp_mono; [by apply first_update_block_kept|].
  intros [[]|e] self2 HK2; [|exists self2; eauto].
  wp_line. eapply wp_mono; [by apply _update_geoms_kept|].
  intros [[]|e] self3 HK3; [|exists self3; eauto].
  wp_line. eapply wp_mono; [by apply _update_lights_kept|].
  intros [[]|e] self4 HK4; [|exists self4; eauto].
  wp_line. eapply wp_mono; [by apply _update_cameras_kept|].
  intros [[]|e] self5 HK5; [|exists self5; eauto].
  wp_lines. exists self5. eauto.
Qed.

(** ** The exporter that [__init__] returns *)

Lemma _load_textures_loop_frame textures : forall texture_id data_adr self,
  wp (_load_textures_loop texture_id data_adr textures) self (fun _ self' =>
    args self' = args self /\ frame_count self' = frame_count self
    /\ updates self' = updates self /\ geom_names self' = geom_names self
    /\ geom_refs self' = geom_refs self /\ usd_lights self' = usd_lights self
    /\ usd_cameras self' = usd_cameras self /\ stage self' = stage self
    /\ next_prim self' = next_prim self /\ exported self' = exported self).
Proof.
  induction textures as [|tex rest IH]; intros texture_id data_adr self.
  - by apply wp_ret.
  - cbn [_load_textures_loop]. wp_lines. wp_step; wp_lines; [|done].
    eapply wp_mono; [apply IH|]. simpl. intros r self'. tauto.
Qed.

(** A new exporter: no frame, no record, and a stage that holds the root prim
    and starts at time code 0. *)
Record Fresh (a : ExporterArgs) (self : USDExporter) : Prop := {
  fresh_args : args self = a;
  fresh_frame_count : frame_count self = 0;
  fresh_updates : updates self = 0;
  fresh_geom_names : geom_names self = ∅;
  fresh_geom_refs : geom_refs self = ∅;
  fresh_usd_lights : usd_lights self = [];
  fresh_usd_cameras : usd_cameras self = [];
  fresh_start : start_time_code (stage self) = Some 0;
  fresh_end : end_time_code (stage self) = None;
  fresh_exported : exported self = [];
}.

Lemma __init___fresh a self : __init__ a = Ok self -> Fresh a self.
Proof.
  unfold __init__. do 2 (case_bool_decide; [done|]).
  destruct (_initialize_usd_stage_run (new_exporter a)) as (st & Hrun & Hstart & Hend & _).
  unfold mbind, M_bind. rewrite Hrun.
  unfold _load_textures, mbind, M_bind. simpl.
  pose proof (_load_textures_loop_frame (MjModel.textures (model a)) 0%nat 0
    (set_texture_files [] (set_next_prim 1 (set_stage st (new_exporter a))))) as Hfr.
  unfold wp in Hfr. simpl in Hfr.
  destruct (_load_textures_loop _ _ _ _) as [[[]|e] self']; simpl in *; [|done].
  intros [= ->]. destruct Hfr as (? & ? & ? & ? & ? & ? & ? & Hst & ? & ?).
  split; try done; by rewrite Hst.
Qed.

Lemma Fresh_Consistent a self : Fresh a self -> Consistent self.
Proof. intros []. unfold Consistent. by rewrite fresh_geom_names0, fresh_geom_refs0, dom_empty_L. Qed.

(** ** What every call keeps *)

(** [Evolves self self']: what holds between an exporter and the same
    exporter after a call. The counters do not decrease, the names and
    records are kept, and a stage that starts at time code 0 is followed by
    one that does. *)
Record Evolves (self self' : USDExporter) : Prop := {
  ev_args : args self' = args self;
  ev_frame_count : frame_count self <= frame_count self';
  ev_updates : updates self <= updates self';
  ev_start :
    start_time_code (stage self) = Some 0 -> start_time_code (stage self') = Some 0;
  ev_names : geom_names self ⊆ geom_names self';
  ev_refs : forall n ref, geom_refs self !! n = Some ref ->
    exists ref', geom_refs self' !! n = Some ref' /\ obj_prim ref' = obj_prim ref;
}.

#[local] Instance Evolves_refl : Reflexive Evolves.
Proof. intros s. split; eauto; lia. Qed.

#[local] Instance Evolves_trans : Transitive Evolves.
Proof.
  intros s1 s2 s3 [] []. split; try congruence; try (etrans; eassumption); auto.
  intros n ref Hn. edestruct ev_refs0 as (ref1 & Hn1 & ?); [done|].
  edestruct ev_refs1 as (ref2 & Hn2 & ?); [done|].
  exists ref2. split; [done | congruence].
Qed.

Lemma update_scene_ends_counters self r self' :
  update_scene_ends self r self' ->
  frame_count self' = frame_count self + 1
  /\ updates self' = match r with Ok _ => updates self + 1 | Raise _ => updates self end.
Proof.
  intros (mid & [_ []] & [[-> ->]|(e & -> & ->)]); simpl in *; split; congruence.
Qed.

Lemma update_scene_ends_Evolves self r self' :
  update_scene_ends self r self' -> Consistent self' /\ Evolves self self'.
Proof.
  intros (mid & [Hc []] & Hend). simpl in *.
  assert (Consistent self' /\ geom_names self' = geom_names mid
          /\ geom_refs self' = geom_refs mid /\ args self' = args mid
          /\ frame_count self' = frame_count mid /\ stage self' = stage mid
          /\ updates mid <= updates self') as (? & Hn & Hr & Ha & Hf & Hs & ?).
  { destruct Hend as [[-> ->]|(e & -> & ->)]; simpl; repeat split; try done; lia. }
  split; [done|]. split; rewrite ?Hn, ?Hr, ?Ha, ?Hf, ?Hs; auto; lia.
Qed.

Lemma add_light_frame pos intensity radius color obj_name light_type self :
  wp (add_light pos intensity radius color obj_name light_type) self (fun _ self' =>
    args self' = args self /\ frame_count self' = frame_count self
    /\ updates self' = updates self /\ geom_names self' = geom_names self
    /\ geom_refs self' = geom_refs self
    /\ start_time_code (stage self') = start_time_code (stage self)).
Proof.
  unfold add_light, USDSphereLight, USDSphereLight_update, USDDomeLight, USDDomeLight_update.
  repeat wp_step; done.
Qed.

Lemma add_camera_frame pos rotation_xyz obj_name self :
  wp (add_camera pos rotation_xyz obj_name) self (fun _ self' =>
    args self' = args self /\ frame_count self' = frame_count self
    /\ updates self' = updates self /\ geom_names self' = geom_names self
    /\ geom_refs self' = geom_refs self
    /\ start_time_code (stage self') = start_time_code (stage self)).
Proof.
  unfold add_camera, USDCamera_new, USDCamera_update_flat, USDCamera_update.
  repeat wp_step; done.
Qed.

Lemma save_scene_frame filetype self :
  wp (save_scene filetype) self (fun _ self' =>
    args self' = args self /\ frame_count self' = frame_count self
    /\ updates self' = updates self /\ geom_names self' = geom_names self
    /\ geom_refs self' = geom_refs self
    /\ start_time_code (stage self') = start_time_code (stage self)).
Proof.
  destruct (decide (filetype ∈ ["usd"; "usda"; "usdc"])) as [Hft|Hft].
  - eapply wp_mono; [by apply save_scene_run|].
    intros r self' [_ (? & ? & ? & ? & ? & ? & ? & ? & ? & ?)]. done.
  - unfold wp, save_scene, mbind, M_bind. by rewrite bool_decide_eq_false_2.
Qed.

Lemma same_Evolves self self' :
  args self' = args self /\ frame_count self' = frame_count self
  /\ updates self' = updates self /\ geom_names self' = geom_names self
  /\ geom_refs self' = geom_refs self
  /\ start_time_code (stage self') = start_time_code (stage self) ->
  (Consistent self -> Consistent self') /\ Evolves self self'.
Proof.
  intros (Ha & Hf & Hu & Hn & Hr & Hs). unfold Consistent.
  split; [congruence|]. split; rewrite ?Hn, ?Hr, ?Hs; eauto; lia.
Qed.

Lemma run_call_Evolves c self :
  Consistent self ->
  Consistent (run_call c self).2 /\ Evolves self (run_call c self).2.
Proof.
  intros Hc. destruct c; simpl.
  - by eapply update_scene_ends_Evolves, (update_scene_run self).
  - destruct (same_Evolves self (save_scene filetype self).2); [apply save_scene_frame|]. auto.
  - destruct (same_Evolves self
      (add_light pos intensity radius color obj_name light_type self).2);
      [apply add_light_frame|]. auto.
  - destruct (same_Evolves self (add_camera pos rotation_xyz obj_name self).2);
      [apply add_camera_frame|]. auto.
Qed.

Lemma after_calls_Evolves calls : forall self,
  Consistent self ->
  Consistent (after_calls calls self) /\ Evolves self (after_calls calls self).
Proof.
  induction calls as [|c calls IH]; intros self Hc; [by split|].
  destruct (run_call_Evolves c self Hc) as [Hc1 He1].
  destruct (IH _ Hc1) as [Hc2 He2]. split; [done|]. by etrans.
Qed.

(** ** Sessions of [update_scene] calls *)

(** The calls [update_scene(data, scene_option)] for the frames of a list. *)
Definition update_calls (frames : list (MjData * option MjvOption)) : list Call :=
  (fun frame => Call_update_scene frame.1 frame.2) <$> frames.

Lemma after_update_calls frames : forall self,
  Consistent self ->
  Consistent (after_calls (update_calls frames) self)
  /\ frame_count (after_calls (update_calls frames) self)
     = frame_count self + Z.of_nat (length frames)
  /\ (start_time_code (stage self) = Some 0 ->
      start_time_code (stage (after_calls (update_calls frames) self)) = Some 0).
Proof.
  induction frames as [|[data scene_option] frames IH]; intros self Hc.
  - simpl. split; [done|]. split; [lia|done].
  - pose proof (update_scene_run self data scene_option Hc) as Hrun. unfold wp in Hrun.
    destruct (update_scene_ends_counters _ _ _ Hrun) as [Hf _].
    destruct (update_scene_ends_Evolves _ _ _ Hrun) as [Hc1 []].
    destruct (IH _ Hc1) as (Hc2 & Hf2 & Hs2).
    change (after_calls (update_calls ((data, scene_option) :: frames)) self)
      with (after_calls (update_calls frames) (update_scene data scene_option self).2).
    split; [done|]. split; [|by auto].
    rewrite Hf2, Hf. cbn [length]. lia.
Qed.

(** A loop of [update_scene] calls that ends without an exception has
    incremented both counters once per call. *)
Lemma update_scenes_counts frames : forall self self',
  Consistent self ->
  update_scenes frames self = (Ok tt, self') ->
  Consistent self'
  /\ frame_count self' = frame_count self + Z.of_nat (length frames)
  /\ updates self' = updates self + Z.of_nat (length frames).
Proof.
  induction frames as [|[data scene_option] frames IH]; intros self self' Hc Hrun.
  - injection Hrun as <-. split; [done|]. simpl. lia.
  - unfold update_scenes in Hrun. cbn [for_each fst snd] in Hrun.
    unfold mbind, M_bind in Hrun.
    pose proof (update_scene_run self data scene_option Hc) as Hone. unfold wp in Hone.
    destruct (update_scene data scene_option self) as [[[]|e] self1]; [|done].
    destruct (update_scene_ends_counters _ _ _ Hone) as [Hf Hu].
    destruct (update_scene_ends_Evolves _ _ _ Hone) as [Hc1 _].
    destruct (IH _ _ Hc1 Hrun) as (Hc2 & Hf2 & Hu2). simpl in *.
    split; [done|]. cbn [length]. lia.
Qed.

(** C3: after [N] calls of [update_scene] on a new exporter, [save_scene]
    writes a document whose start time code is 0 and whose end time code is
    [N]: its time range is [[0, N]]. Every call is counted, also one that
    raised. *)
Theorem time_range_after_updates (a : ExporterArgs) (self0 : USDExporter)
    (frames : list (MjData * option MjvOption)) (filetype : string) :
  __init__ a = Ok self0 ->
  filetype ∈ ["usd"; "usda"; "usdc"] ->
  let self := after_calls (update_calls frames) self0 in
  exists self',
    save_scene filetype self = (Ok tt, self')
    /\ last (exported self') = Some (frame_path self filetype, stage self')
    /\ start_time_code (stage self') = Some 0
    /\ end_time_code (stage self') = Some (Z.of_nat (length frames)).
Proof.
  intros Hinit Hft self. apply __init___fresh in Hinit.
  destruct (after_update_calls frames self0 (Fresh_Consistent _ _ Hinit)) as (_ & Hf & Hs).
  fold self in Hf, Hs. destruct Hinit.
  pose proof (save_scene_run filetype self Hft) as Hsave. unfold wp in Hsave.
  destruct (save_scene filetype self) as [r self']. simpl in Hsave.
  destruct Hsave as [-> (_ & _ & _ & _ & _ & _ & _ & _ & Hstart & Hend & Hexp)].
  exists self'. split; [done|]. split; [by rewrite Hexp, last_snoc|].
  split; [rewrite Hstart; auto|]. rewrite Hend, Hf. f_equal. lia.
Qed.


Lemma first_update_block_eq self :
  first_update_block self
  = if bool_decide (updates self = 0)
    then (_initialize_usd_stage;; _load_lights;; _load_cameras) self
    else (Ok tt, self).
Proof.
  unfold first_update_block, mbind at 1, M_bind at 1, gets. by case_bool_decide.
Qed.

(** C8: a geometry record is never deleted. Once the record map holds a
    record under a derived name, it holds that record (the same prim) under
    that name after any further calls of [update_scene], [save_scene],
    [add_light] and [add_camera], and the name stays among the names seen. *)
Theorem geom_records_persist (a : ExporterArgs) (self0 : USDExporter)
    (before after : list Call) (name : string) (ref : USDObject) :
  __init__ a = Ok self0 ->
  let self := after_calls before self0 in
  geom_refs self !! name = Some ref ->
  exists ref',
    geom_refs (after_calls after self) !! name = Some ref'
    /\ obj_prim ref' = obj_prim ref
    /\ name ∈ geom_names (after_calls after self).
Proof.
  intros Hinit self Href. apply __init___fresh, Fresh_Consistent in Hinit.
  destruct (after_calls_Evolves before self0 Hinit) as [Hc _]. fold self in Hc.
  destruct (after_calls_Evolves after self Hc) as [Hc' []].
  destruct (ev_refs0 _ _ Href) as (ref' & Href' & Hprim).
  exists ref'. split; [done|]. split; [done|].
  rewrite Hc'. by eapply elem_of_dom_2.
Qed.

(** ** Inside a call of [update_scene] *)

(** The statements between the two counter increments. *)
Definition Keeps (m : M unit) : Prop :=
  forall self0 self, Kept self0 self -> wp m self (fun _ self' => Kept self0 self').

Lemma steps_kept (steps : list (M unit)) self0 self :
  Forall Keeps steps ->
  Kept self0 self ->
  wp (for_each steps (fun step => step)) self (fun _ self' => Kept self0 self').
Proof.
  intros Hsteps HK. apply (wp_for_each (Kept self0)); [done | | done].
  intros step self' Hin HK'. rewrite Forall_forall in Hsteps.
  eapply wp_mono; [by apply Hsteps|]. by intros [|].
Qed.

(** The statements of [update_scene] after the first and before the last. *)
Definition update_scene_inner_steps (data : MjData) (scene_option : option MjvOption)
    : list (M unit) :=
  take 5 (drop 1 (update_scene_steps data scene_option)).

Lemma update_scene_inner_steps_keep data scene_option :
  Forall Keeps (update_scene_inner_steps data scene_option).
Proof.
  unfold update_scene_inner_steps, update_scene_steps; cbn [take drop].
  assert (forall m, Keeps m -> forall l, Forall Keeps l -> Forall Keeps (m :: l)) as Hcons
    by (intros; by constructor).
  apply Hcons; [|apply Hcons; [|apply Hcons; [|apply Hcons; [|apply Hcons; [|constructor]]]]];
    intros self0 self HK.
  - wp_lines. destruct HK as [Hc Hi]. split; [exact Hc | inner_chain].
  - by apply first_update_block_kept.
  - by apply _update_geoms_kept.
  - by apply _update_lights_kept.
  - by apply _update_cameras_kept.
Qed.

Lemma take_update_scene_steps data scene_option (n : nat) self :
  (n <= 5)%nat ->
  (for_each (take (S n) (update_scene_steps data scene_option)) (fun step => step) self).2
  = (for_each (take n (update_scene_inner_steps data scene_option)) (fun step => step)
       (entered self)).2.
Proof.
  intros Hn. do 6 (destruct n as [|n]; [reflexivity|]). lia.
Qed.

(** ** Names that collide *)

Lemma _load_geom_asserts self geom :
  _get_geom_name self geom ∈ geom_names self ->
  _load_geom geom self = (Raise AssertionError, self).
Proof.
  intros Hin. unfold _load_geom, mbind, M_bind, gets. by rewrite bool_decide_eq_true_2.
Qed.

Lemma _load_geom_new_name self geom :
  _get_geom_name self geom ∉ geom_names self ->
  wp (_load_geom geom) self (fun r _ => r ≠ Raise AssertionError).
Proof.
  intros Hnew. unfold _load_geom, USDObject_new. wp_lines.
  - repeat wp_step; done.
  - rewrite bool_decide_eq_false_2 in * by done. done.
Qed.

Lemma _update_geom_no_assertion self geom :
  wp (_update_geom geom) self (fun r _ => r ≠ Raise AssertionError).
Proof.
  unfold _update_geom. wp_lines. case_bool_decide as Hin; cbn [negb].
  - unfold USDObject_update, USDObject_update_visibility. repeat wp_step; done.
  - eapply wp_mono; [by apply _load_geom_new_name|].
    intros [[]|e] self1 Hr; [|done].
    unfold USDObject_update, USDObject_update_visibility. repeat wp_step; done.
Qed.

Lemma _update_geom_known self geom ref :
  _get_geom_name self geom ∈ geom_names self ->
  geom_refs self !! _get_geom_name self geom = Some ref ->
  exists self' ref',
    _update_geom geom self = (Ok tt, self')
    /\ geom_names self' = geom_names self
    /\ geom_refs self' = <[_get_geom_name self geom := ref']> (geom_refs self)
    /\ obj_prim ref' = obj_prim ref.
Proof.
  intros Hin Href.
  assert (wp (_update_geom geom) self (fun r self' =>
    r = Ok tt /\ geom_names self' = geom_names self
    /\ exists ref', geom_refs self' = <[_get_geom_name self geom := ref']> (geom_refs self)
       /\ obj_prim ref' = obj_prim ref)) as Hwp.
  { unfold _update_geom. wp_lines. rewrite bool_decide_eq_true_2 by done. cbn [negb].
    wp_lines; [|congruence].
    unfold USDObject_update, USDObject_update_visibility.
    repeat wp_step; (split; [done|]; split; [done|]; eexists; split; [reflexivity|];
      simpl; congruence). }
  unfold wp in Hwp. destruct (_update_geom geom self) as [r self']. simpl in Hwp.
  destruct Hwp as (-> & Hn & ref' & Hr & Hp). by exists self', ref'.
Qed.

(** C1: [_load_geom] asserts that the derived name is new, and raises
    [AssertionError] when it is called for a name already seen. Inside
    [update_scene] it is never called for such a name: [_update_geoms]
    looks every name up first, so it never raises [AssertionError], and an
    instance whose derived name is already known updates the record that
    exists under that name. *)
Theorem known_name_is_updated (self : USDExporter) (geom : MjvGeom.t) :
  (_get_geom_name self geom ∈ geom_names self ->
     _load_geom geom self = (Raise AssertionError, self))
  /\ (_update_geoms self).1 ≠ Raise AssertionError
  /\ (forall ref,
        _get_geom_name self geom ∈ geom_names self ->
        geom_refs self !! _get_geom_name self geom = Some ref ->
        exists self' ref',
          _update_geom geom self = (Ok tt, self')
          /\ geom_names self' = geom_names self
          /\ geom_refs self' = <[_get_geom_name self geom := ref']> (geom_refs self)
          /\ obj_prim ref' = obj_prim ref).
Proof.
  split; [apply _load_geom_asserts|]. split; [|apply _update_geom_known].
  assert (wp _update_geoms self (fun r _ => r ≠ Raise AssertionError)) as Hwp; [|done].
  unfold _update_geoms. wp_lines.
  apply (wp_for_each (fun _ => True)); [done | | done].
  intros g self' _ _. eapply wp_mono; [apply _update_geom_no_assertion|].
  by intros [|].
Qed.

(** ** Lights at the origin *)

Lemma _load_light_origin i light self :
  allclose_origin (MjvLight.pos light) = true ->
  _load_light i light self = (Ok tt, set_usd_lights (usd_lights self ++ [None]) self).
Proof. intros H. unfold _load_light. by rewrite H. Qed.

Lemma _update_light_origin i light self :
  allclose_origin (MjvLight.pos light) = true ->
  _update_light i light self = (Ok tt, self).
Proof. intros H. unfold _update_light. by rewrite H. Qed.

Lemma _update_light_placeholder i light self :
  usd_lights self !! i = Some None ->
  _update_light i light self = (Ok tt, self).
Proof.
  intros H. unfold _update_light. destruct (allclose_origin _); [done|].
  unfold mbind, M_bind, gets. by rewrite H.
Qed.

(** [Lit self0 self]: from [self0] to [self] the list of light records is
    the same and no sphere-light prim has come to the stage. *)
Record Lit (self0 self : USDExporter) : Prop := {
  lit_usd_lights : usd_lights self = usd_lights self0;
  lit_prims : forall id p r,
    prims (stage self) !! id = Some p -> prim_source p = SrcSphereLight r ->
    exists p0, prims (stage self0) !! id = Some p0
      /\ prim_name p0 = prim_name p /\ prim_source p0 = prim_source p;
}.

#[local] Instance Lit_refl : Reflexive Lit.
Proof. intros s. split; eauto. Qed.

Lemma Lit_step self0 self1 self2 : Lit self1 self2 -> Lit self0 self1 -> Lit self0 self2.
Proof.
  intros [] []. split; try congruence.
  intros id p r Hp Hsrc. destruct (lit_prims0 _ _ _ Hp Hsrc) as (p1 & Hp1 & Hn1 & Hs1).
  rewrite <- Hs1 in Hsrc.
  destruct (lit_prims1 _ _ _ Hp1 Hsrc) as (p0 & Hp0 & Hn0 & Hs0).
  exists p0. split; [done|]. split; congruence.
Qed.

Lemma Lit_set_scene self v : Lit self (set_scene v self).
Proof. split; simpl; eauto. Qed.

Lemma Lit_set_frame_count self v : Lit self (set_frame_count v self).
Proof. split; simpl; eauto. Qed.

Lemma Lit_set_updates self v : Lit self (set_updates v self).
Proof. split; simpl; eauto. Qed.

Lemma Lit_set_usd_cameras self v : Lit self (set_usd_cameras v self).
Proof. split; simpl; eauto. Qed.

Lemma Lit_set_geom_names self v : Lit self (set_geom_names v self).
Proof. split; simpl; eauto. Qed.

Lemma Lit_set_geom_refs self v : Lit self (set_geom_refs v self).
Proof. split; simpl; eauto. Qed.

Lemma Lit_set_end_time_code self t : Lit self (set_stage (SetEndTimeCode t (stage self)) self).
Proof. split; simpl; eauto. Qed.

Lemma Lit_set_exported self v : Lit self (set_exported v self).
Proof. split; simpl; eauto. Qed.

Lemma Lit_write self id name v time :
  Lit self (set_stage (Stage_with_prims (alter (Prim_Set name v time) id) (stage self)) self).
Proof.
  split; simpl; eauto. intros id' p r. rewrite lookup_alter.
  destruct (decide (id = id')) as [<-|]; [|eauto].
  destruct (prims (stage self) !! id) as [p0|]; [|done].
  simpl. intros [= <-] Hsrc. eauto.
Qed.

Lemma Lit_define self p :
  (forall r, prim_source p ≠ SrcSphereLight r) ->
  Lit self (set_next_prim (S (next_prim self))
    (set_stage (Stage_with_prims <[next_prim self := p]> (stage self)) self)).
Proof.
  intros Hsrc. split; simpl; eauto. intros id' p' r. rewrite lookup_insert.
  destruct (decide (next_prim self = id')) as [<-|]; [|eauto].
  intros [= <-] Hp. by destruct (Hsrc r).
Qed.

Ltac lit_prim :=
  first
    [ apply Lit_set_scene | apply Lit_set_frame_count | apply Lit_set_updates
    | apply Lit_set_usd_cameras | apply Lit_set_geom_names
    | apply Lit_set_geom_refs | apply Lit_set_end_time_code | apply Lit_set_exported
    | apply Lit_write
    | apply Lit_define; done ].

Ltac lit_chain :=
  repeat (eapply Lit_step; [solve [lit_prim]|]); try eassumption.

Lemma _update_geom_lit self0 self geom :
  Lit self0 self -> wp (_update_geom geom) self (fun _ self' => Lit self0 self').
Proof.
  intros HL. unfold _update_geom, _load_geom, USDObject_new, USDObject_update,
    USDObject_update_visibility.
  repeat wp_step; lit_chain.
Qed.

Lemma _update_geoms_lit self0 self :
  Lit self0 self -> wp _update_geoms self (fun _ self' => Lit self0 self').
Proof.
  intros HL. unfold _update_geoms. wp_lines.
  apply (wp_for_each (Lit self0)); [done | | done].
  intros geom self' _ HL'. eapply wp_mono; [by apply _update_geom_lit|]. by intros [|].
Qed.

Lemma _update_lights_lit self0 self :
  Lit self0 self -> wp _update_lights self (fun _ self' => Lit self0 self').
Proof.
  intros HL. unfold _update_lights. wp_lines.
  apply (wp_for_range (fun _ => Lit self0)); [done | | done].
  intros i light self' _ HL'. unfold _update_light, USDSphereLight_update.
  repeat wp_step; lit_chain.
Qed.

Lemma _load_cameras_lit self0 self :
  Lit self0 self -> wp _load_cameras self (fun _ self' => Lit self0 self').
Proof.
  intros HL. unfold _load_cameras. wp_lines. wp_step; [|by wp_lines].
  apply (wp_for_each (Lit self0)); [done | | done].
  intros name self' _ HL'. unfold USDCamera_new. wp_lines. lit_chain.
Qed.

Lemma _update_cameras_lit self0 self data scene_option :
  Lit self0 self ->
  wp (_update_cameras data scene_option) self (fun _ self' => Lit self0 self').
Proof.
  intros HL. unfold _update_cameras. wp_lines.
  apply (wp_for_range (fun _ => Lit self0)); [done | | done].
  intros i camera self' _ HL'. unfold USDCamera_update. wp_lines; lit_chain.
Qed.

Lemma save_scene_lit self filetype :
  wp (save_scene filetype) self (fun _ self' => Lit self self').
Proof.
  unfold save_scene. wp_lines; [|done].
  apply (wp_for_each (Lit self)).
  - lit_chain. reflexivity.
  - intros [name ref] self' _ HL'. unfold USDObject_update_visibility. wp_lines. lit_chain.
  - intros self' HL'. wp_lines. lit_chain.
Qed.

(** [LightsUpTo L n self]: the light records are those loaded from the first
    [n] lights of [L]. A light at the origin has the placeholder [None] at
    its index, and every sphere-light prim of the stage is named after the
    index of a light that is not at the origin. *)
Record LightsUpTo (L : list MjvLight.t) (n : nat) (self : USDExporter) : Prop := {
  lights_length : length (usd_lights self) = n;
  lights_placeholder : forall i light,
    (i < n)%nat -> L !! i = Some light -> allclose_origin (MjvLight.pos light) = true ->
    usd_lights self !! i = Some None;
  lights_prims : forall id p r,
    prims (stage self) !! id = Some p -> prim_source p = SrcSphereLight r ->
    exists i light, (i < n)%nat /\ prim_name p = pretty i /\ L !! i = Some light
      /\ allclose_origin (MjvLight.pos light) = false;
}.

Lemma LightsUpTo_Lit L n self0 self :
  Lit self0 self -> LightsUpTo L n self0 -> LightsUpTo L n self.
Proof.
  intros [Hl Hp] [Hlen Hph Hpr]. split.
  - by rewrite Hl.
  - intros i light ? ? ?. rewrite Hl. eauto.
  - intros id p r Hid Hsrc. destruct (Hp _ _ _ Hid Hsrc) as (p0 & Hid0 & Hn & Hs).
    rewrite <- Hs in Hsrc. rewrite <- Hn. eauto.
Qed.

Lemma _load_lights_loaded self :
  usd_lights self = [] ->
  (forall id p r, prims (stage self) !! id = Some p -> prim_source p ≠ SrcSphereLight r) ->
  wp _load_lights self (fun r self' =>
    r = Ok tt /\ updates self' = updates self /\ args self' = args self
    /\ LightsUpTo (MjvScene.lights (scene self)) (length (MjvScene.lights (scene self))) self').
Proof.
  intros Hnil Hnone. unfold _load_lights. wp_lines.
  set (L := MjvScene.lights (scene self)).
  apply (wp_for_range (fun n self' =>
    updates self' = updates self /\ args self' = args self /\ LightsUpTo L n self')).
  - split; [done|]. split; [done|]. split.
    + by rewrite Hnil.
    + intros; lia.
    + intros id p r Hid Hsrc. by destruct (Hnone _ _ r Hid).
  - intros i light self' Hi (Hu & Ha & [Hlen Hph Hpr]). cbn [Nat.add] in *.
    unfold _load_light, USDSphereLight.
    destruct (allclose_origin (MjvLight.pos light)) eqn:Hclose; cbn [negb]; wp_lines.
    + split; [done|]. split; [done|]. split; simpl.
      * rewrite length_app, Hlen. simpl. lia.
      * intros j light' Hj Hlj Hcj. destruct (decide (j = i)) as [->|].
        -- rewrite lookup_app_r by lia. by rewrite Hlen, Nat.sub_diag.
        -- rewrite lookup_app_l by lia. apply (Hph j light'); [lia|done|done].
      * intros id p r Hid Hsrc. destruct (Hpr _ _ _ Hid Hsrc) as (j & lj & ? & ? & ? & ?).
        exists j, lj. repeat split; try done. lia.
    + split; [done|]. split; [done|]. split; simpl.
      * rewrite length_app, Hlen. simpl. lia.
      * intros j light' Hj Hlj Hcj. destruct (decide (j = i)) as [->|].
        -- congruence.
        -- rewrite lookup_app_l by lia. apply (Hph j light'); [lia|done|done].
      * intros id p r. rewrite lookup_insert.
        destruct (decide (next_prim self' = id)) as [<-|].
        -- intros [= <-] _. exists i, light. simpl. repeat split; try done. lia.
        -- intros Hid Hsrc. destruct (Hpr _ _ _ Hid Hsrc) as (j & lj & ? & ? & ? & ?).
           exists j, lj. repeat split; try done. lia.
  - intros self' (Hu & Ha & HL). done.
Qed.

Lemma wp_initialize_usd_stage self Q :
  (forall st,
     start_time_code st = Some 0 ->
     prims st = {[ next_prim self := {| prim_name := "/World"; prim_source := SrcXform;
                                        prim_attrs := ∅ |} ]} ->
     Q (Ok tt) (set_next_prim (S (next_prim self)) (set_stage st self))) ->
  wp _initialize_usd_stage self Q.
Proof.
  intros HQ. destruct (_initialize_usd_stage_run self) as (st & Hrun & Hstart & _ & Hprims).
  unfold wp. rewrite Hrun. by apply HQ.
Qed.

Lemma update_scene_first_lights self data scene_option :
  updates self = 0 ->
  usd_lights self = [] ->
  wp (update_scene data scene_option) self (fun r self' =>
    r = Ok tt ->
    let L := MjvScene.lights (snapshot self (data, scene_option)) in
    LightsUpTo L (length L) self').
Proof.
  intros Hu Hnil. unfold update_scene, update_scene_steps. cbn [for_each].
  do 5 wp_line. unfold first_update_block. wp_lines.
  rewrite bool_decide_eq_true_2 by done. wp_line.
  apply wp_initialize_usd_stage. intros st _ Hprims. wp_line.
  eapply wp_mono.
  { apply _load_lights_loaded; [done|]. simpl. rewrite Hprims.
    intros id p r [_ <-]%lookup_singleton_Some. done. }
  intros [[]|e] self1 (Hr & _ & _ & HL); [|done]. simpl in HL.
  eapply wp_mono; [by apply (_load_cameras_lit self1)|].
  intros [[]|e] self2 HL2; [|done]. wp_line.
  eapply wp_mono; [by apply (_update_geoms_lit self1)|].
  intros [[]|e] self3 HL3; [|done]. wp_line.
  eapply wp_mono; [by apply (_update_lights_lit self1)|].
  intros [[]|e] self4 HL4; [|done]. wp_line.
  eapply wp_mono; [by apply (_update_cameras_lit self1)|].
  intros [[]|e] self5 HL5; [|done]. wp_lines.
  intros _. eapply LightsUpTo_Lit; [|exact HL]. lit_chain.
Qed.

Lemma update_scene_later_lights self data scene_option :
  updates self ≠ 0 ->
  wp (update_scene data scene_option) self (fun _ self' => Lit self self').
Proof.
  intros Hu. unfold update_scene, update_scene_steps. cbn [for_each].
  do 5 wp_line. unfold first_update_block. wp_lines.
  rewrite bool_decide_eq_false_2 by done. wp_lines.
  match goal with |- wp _ ?s _ => assert (Lit self s) as HL1 by (lit_chain; reflexivity) end.
  eapply wp_mono; [by apply _update_geoms_lit|].
  intros [[]|e] self3 HL3; [|done]. wp_line.
  eapply wp_mono; [by apply _update_lights_lit|].
  intros [[]|e] self4 HL4; [|done]. wp_line.
  eapply wp_mono; [by apply _update_cameras_lit|].
  intros [[]|e] self5 HL5; [|done]. wp_lines. lit_chain.
Qed.

Lemma update_scenes_lights L n frames : forall self self',
  Consistent self ->
  0 < updates self ->
  LightsUpTo L n self ->
  update_scenes frames self = (Ok tt, self') ->
  LightsUpTo L n self'.
Proof.
  induction frames as [|[data scene_option] frames IH]; intros self self' Hc Hu HL Hrun.
  - by injection Hrun as <-.
  - unfold update_scenes in Hrun. cbn [for_each fst snd] in Hrun.
    unfold mbind, M_bind in Hrun.
    pose proof (update_scene_run self data scene_option Hc) as Hone.
    pose proof (update_scene_later_lights self data scene_option) as Hlit.
    unfold wp in Hone, Hlit.
    destruct (update_scene data scene_option self) as [[[]|e] self1]; [|done].
    destruct (update_scene_ends_counters _ _ _ Hone) as [_ Hu1].
    destruct (update_scene_ends_Evolves _ _ _ Hone) as [Hc1 _]. simpl in *.
    apply (IH self1); [done | lia | | done].
    eapply LightsUpTo_Lit; [apply Hlit; lia | done].
Qed.

(** C6: a light at the origin is not exported. When the light at index [i] of
    the first snapshot is at the origin, [_load_lights] stores the placeholder
    [None] at [i] and creates no prim for it: after every later call of
    [update_scene] the placeholder is still there and no sphere-light prim of
    the stage, nor of a document that [save_scene] writes, is named after
    [i]. The per-frame update skips a light that is at the origin in that
    frame, and skips a placeholder. *)
Theorem origin_light_not_exported (a : ExporterArgs) (self0 self : USDExporter)
    (frame : MjData * option MjvOption) (frames : list (MjData * option MjvOption))
    (i : nat) (light : MjvLight.t) :
  __init__ a = Ok self0 ->
  update_scenes (frame :: frames) self0 = (Ok tt, self) ->
  MjvScene.lights (snapshot self0 frame) !! i = Some light ->
  allclose_origin (MjvLight.pos light) = true ->
  usd_lights self !! i = Some None
  /\ (forall id p r,
        prims (stage self) !! id = Some p -> prim_source p = SrcSphereLight r ->
        prim_name p ≠ pretty i)
  /\ (forall filetype id p r,
        prims (stage (save_scene filetype self).2) !! id = Some p ->
        prim_source p = SrcSphereLight r ->
        prim_name p ≠ pretty i)
  /\ (forall light' self',
        allclose_origin (MjvLight.pos light') = true \/ usd_lights self' !! i = Some None ->
        _update_light i light' self' = (Ok tt, self')).
Proof.
  intros Hinit Hrun Hi Hclose. apply __init___fresh in Hinit.
  pose proof (Fresh_Consistent _ _ Hinit) as Hc. destruct Hinit as [_ _ Hu _ _ Hnil _ _ _ _].
  destruct frame as [data scene_option].
  unfold update_scenes in Hrun. cbn [for_each fst snd] in Hrun.
  unfold mbind, M_bind in Hrun.
  pose proof (update_scene_run self0 data scene_option Hc) as Hone.
  pose proof (update_scene_first_lights self0 data scene_option Hu Hnil) as Hfirst.
  unfold wp in Hone, Hfirst.
  destruct (update_scene data scene_option self0) as [[[]|e] self1]; [|done].
  destruct (update_scene_ends_counters _ _ _ Hone) as [_ Hu1].
  destruct (update_scene_ends_Evolves _ _ _ Hone) as [Hc1 _]. simpl in *.
  specialize (Hfirst eq_refl).
  assert (LightsUpTo (MjvScene.lights (snapshot self0 (data, scene_option)))
            (length (MjvScene.lights (snapshot self0 (data, scene_option)))) self) as HL.
  { eapply (update_scenes_lights _ _ frames self1); [done | lia | done | done]. }
  assert (forall self', Lit self self' -> forall id p r,
            prims (stage self') !! id = Some p -> prim_source p = SrcSphereLight r ->
            prim_name p ≠ pretty i) as Hnone.
  { intros self' Hlit id p r Hid Hsrc Hname.
    destruct (LightsUpTo_Lit _ _ _ _ Hlit HL) as [_ _ Hpr].
    destruct (Hpr _ _ _ Hid Hsrc) as (j & lj & _ & Hj & Hlj & Hcj).
    rewrite Hname in Hj. apply (inj pretty) in Hj. subst j. congruence. }
  split; [|split; [|split]].
  - destruct HL as [_ Hph _]. apply (Hph i light); [|done|done].
    by eapply lookup_lt_Some.
  - by apply Hnone.
  - intros filetype. apply Hnone, save_scene_lit.
  - intros light' self' [H|H];
      [by apply _update_light_origin | by apply _update_light_placeholder].
Qed.

(** ** Visibility samples of the geometry records *)

(** The visibility samples of the prim [id]. *)
Definition vis_of (self : USDExporter) (id : nat) : gmap Z Value :=
  samples_of (stage self) id "visibility".

(** [VisSame self0 self]: from [self0] to [self] names, records and counters
    are the same, and the prims that existed keep their visibility samples. *)
Record VisSame (self0 self : USDExporter) : Prop := {
  vs_args : args self = args self0;
  vs_updates : updates self = updates self0;
  vs_texture_files : texture_files self = texture_files self0;
  vs_geom_names : geom_names self = geom_names self0;
  vs_geom_refs : geom_refs self = geom_refs self0;
  vs_next_prim : (next_prim self0 <= next_prim self)%nat;
  vs_prims : forall id, (id < next_prim self0)%nat ->
    is_Some (prims (stage self0) !! id) -> is_Some (prims (stage self) !! id);
  vs_vis : forall id, (id < next_prim self0)%nat -> vis_of self id = vis_of self0 id;
}.

#[local] Instance VisSame_refl : Reflexive VisSame.
Proof. intros s. split; eauto. Qed.

Lemma VisSame_step self0 self1 self2 :
  VisSame self1 self2 -> VisSame self0 self1 -> VisSame self0 self2.
Proof.
  intros [] []. split; try congruence.
  - lia.
  - intros id Hid Hsome. apply vs_prims0; [lia|]. by apply vs_prims1.
  - intros id Hid. rewrite vs_vis0 by lia. by apply vs_vis1.
Qed.

Lemma VisSame_set_scene self v : VisSame self (set_scene v self).
Proof. split; simpl; eauto. Qed.

Lemma VisSame_set_frame_count self v : VisSame self (set_frame_count v self).
Proof. split; simpl; eauto. Qed.

Lemma VisSame_set_usd_lights self v : VisSame self (set_usd_lights v self).
Proof. split; simpl; eauto. Qed.

Lemma VisSame_set_usd_cameras self v : VisSame self (set_usd_cameras v self).
Proof. split; simpl; eauto. Qed.

Lemma VisSame_write self id name v time :
  name ≠ "visibility" ->
  VisSame self (set_stage (Stage_with_prims (alter (Prim_Set name v time) id) (stage self)) self).
Proof.
  intros Hname. split; simpl; eauto.
  - intros id' _. rewrite lookup_alter. destruct (decide (id = id')) as [<-|]; [|done].
    intros [p ->]. by eexists.
  - intros id' _. unfold vis_of. simpl. rewrite samples_of_write.
    rewrite decide_False; [done|]. tauto.
Qed.

Lemma VisSame_define self p :
  VisSame self (set_next_prim (S (next_prim self))
    (set_stage (Stage_with_prims <[next_prim self := p]> (stage self)) self)).
Proof.
  split; simpl; eauto.
  - intros id Hid. rewrite lookup_insert_ne by lia. done.
  - intros id Hid. unfold vis_of, samples_of. simpl. rewrite lookup_insert_ne by lia. done.
Qed.

Ltac vis_prim :=
  first
    [ apply VisSame_set_scene | apply VisSame_set_frame_count
    | apply VisSame_set_usd_lights | apply VisSame_set_usd_cameras
    | apply VisSame_write; discriminate
    | apply VisSame_define ].

Ltac vis_chain :=
  repeat (eapply VisSame_step; [solve [vis_prim]|]); try eassumption.

Lemma _load_lights_vis self0 self :
  VisSame self0 self ->
  wp _load_lights self (fun r self' =>
    r = Ok tt /\ VisSame self0 self' /\ usd_cameras self' = usd_cameras self).
Proof.
  intros HV. unfold _load_lights. wp_lines.
  apply (wp_for_range (fun _ self' => VisSame self0 self' /\ usd_cameras self' = usd_cameras self));
    [done | | done].
  intros i light self' _ [HV' Hcam]. unfold _load_light, USDSphereLight.
  wp_step; wp_lines; (split; [vis_chain | done]).
Qed.

Lemma _update_lights_vis self0 self :
  VisSame self0 self ->
  wp _update_lights self (fun r self' =>
    r = Ok tt /\ VisSame self0 self' /\ usd_cameras self' = usd_cameras self).
Proof.
  intros HV. unfold _update_lights. wp_lines.
  apply (wp_for_range (fun _ self' => VisSame self0 self' /\ usd_cameras self' = usd_cameras self));
    [done | | done].
  intros i light self' _ [HV' Hcam]. unfold _update_light, USDSphereLight_update.
  repeat wp_step; (split; [vis_chain | done]).
Qed.

(** The camera records are as many as the camera names, at most. *)
Definition CamerasNamed (self : USDExporter) : Prop :=
  (length (usd_cameras self) <= length (default [] (camera_names (args self))))%nat.

Lemma _load_cameras_vis self0 self :
  VisSame self0 self ->
  usd_cameras self = [] ->
  wp _load_cameras self (fun r self' =>
    r = Ok tt /\ VisSame self0 self' /\ CamerasNamed self').
Proof.
  intros HV Hnil. unfold _load_cameras. wp_lines. unfold CamerasNamed.
  destruct (camera_names (args self)) as [names|] eqn:Hnames.
  - assert (forall done todo self1,
      VisSame self0 self1 -> args self1 = args self ->
      length (usd_cameras self1) = length done -> names = (done ++ todo)%list ->
      wp (for_each todo (fun name =>
            usd_camera ← USDCamera_new name;
            modify (fun self => set_usd_cameras (usd_cameras self ++ [usd_camera]) self)))
         self1 (fun r self' =>
           r = Ok tt /\ VisSame self0 self'
           /\ (length (usd_cameras self') <= length (default [] (camera_names (args self'))))%nat))
      as Hloop.
    { intros done todo. revert done.
      induction todo as [|name todo IH]; intros done self1 HV1 Ha1 Hlen Hsplit.
      - cbn [for_each]. wp_lines. split; [done|]. split; [done|]. rewrite Ha1, Hnames. simpl.
        rewrite Hlen, Hsplit, length_app. lia.
      - cbn [for_each]. unfold USDCamera_new. wp_lines.
        apply (IH (done ++ [name])%list).
        + vis_chain.
        + done.
        + simpl. rewrite !length_app, Hlen. done.
        + by rewrite <- app_assoc. }
    apply (Hloop [] names); [done | done | by rewrite Hnil | done].
  - wp_lines. split; [done|]. split; [done|]. rewrite Hnil. simpl. lia.
Qed.

Lemma _update_cameras_vis self0 self data scene_option :
  VisSame self0 self ->
  CamerasNamed self ->
  wp (_update_cameras data scene_option) self (fun r self' =>
    r = Ok tt /\ VisSame self0 self' /\ usd_cameras self' = usd_cameras self).
Proof.
  intros HV Hcam. unfold _update_cameras. wp_lines.
  apply (wp_for_range (fun i self' =>
    VisSame self0 self' /\ usd_cameras self' = usd_cameras self /\ args self' = args self));
    [ done | | by intros self' (? & ? & ?) ].
  intros i camera self' Hi (HV' & Hc' & Ha'). unfold USDCamera_update. cbn [Nat.add].
  apply lookup_lt_Some in Hi. unfold CamerasNamed in Hcam.
  wp_line. wp_line. wp_line. rewrite Ha'.
  destruct (camera_names (args self)) as [names|]; [|simpl in Hcam; lia].
  simpl in Hcam. wp_lines.
  - split; [vis_chain|]. done.
  - simplify_eq.
    match goal with H : _ !! i = None |- _ => apply lookup_ge_None in H end. lia.
Qed.

(** The subscripts of [_load_geom] are in range for [geom]: the material
    and its textures exist, and so does the mesh of a mesh geom. *)
Definition loadable (self : USDExporter) (geom : MjvGeom.t) : bool :=
  let m := model (args self) in
  (bool_decide (MjvGeom.matid geom = -1)
   || match py_index (MjModel.mat_texid m) (MjvGeom.matid geom) with
      | Some texids =>
          bool_decide (is_Some (geom_textures_of (texture_files self) (MjModel.tex_type m) texids))
      | None => false
      end)
  && (negb (bool_decide (MjvGeom.type geom = mjGEOM_MESH))
      || bool_decide (is_Some (py_index (MjModel.geom_dataid m) (MjvGeom.objid geom)))).

(** Every record has a prim of its own on the stage. *)
Record Alias (self : USDExporter) : Prop := {
  alias_consistent : Consistent self;
  alias_live : forall n ref, geom_refs self !! n = Some ref ->
    (obj_prim ref < next_prim self)%nat /\ is_Some (prims (stage self) !! obj_prim ref);
  alias_inj : forall n1 n2 r1 r2,
    geom_refs self !! n1 = Some r1 -> geom_refs self !! n2 = Some r2 ->
    obj_prim r1 = obj_prim r2 -> n1 = n2;
}.

Lemma Alias_VisSame self0 self : VisSame self0 self -> Alias self0 -> Alias self.
Proof.
  intros [] [Hc Hlive Hinj]. split.
  - unfold Consistent in *. congruence.
  - intros n ref. rewrite vs_geom_refs0. intros Href.
    destruct (Hlive _ _ Href) as [Hlt Hsome]. split; [lia|]. by apply vs_prims0.
  - intros n1 n2 r1 r2. rewrite vs_geom_refs0. apply Hinj.
Qed.

(** [VisStep id f self self']: the writes to the prim [id] have changed its
    visibility samples by [f], and nothing else about names, records,
    counters and the samples of the other prims. *)
Record VisStep (id : nat) (f : gmap Z Value -> gmap Z Value) (self self' : USDExporter)
    : Prop := {
  st_args : args self' = args self;
  st_frame_count : frame_count self' = frame_count self;
  st_updates : updates self' = updates self;
  st_texture_files : texture_files self' = texture_files self;
  st_usd_cameras : usd_cameras self' = usd_cameras self;
  st_geom_names : geom_names self' = geom_names self;
  st_geom_refs : geom_refs self' = geom_refs self;
  st_next_prim : next_prim self' = next_prim self;
  st_prims : forall id', is_Some (prims (stage self') !! id') <-> is_Some (prims (stage self) !! id');
  st_vis : forall id',
    vis_of self' id'
    = if decide (id' = id /\ is_Some (prims (stage self) !! id))
      then f (vis_of self id') else vis_of self id';
}.

Lemma VisStep_compose id f g self0 self1 self2 :
  VisStep id g self1 self2 -> VisStep id f self0 self1 ->
  VisStep id (fun m => g (f m)) self0 self2.
Proof.
  intros [] []. split; try congruence.
  - intros id'. by rewrite st_prims0.
  - intros id'. rewrite st_vis0, st_vis1.
    destruct (decide (id' = id /\ is_Some (prims (stage self0) !! id))) as [[-> H]|H].
    + rewrite decide_True; [done|]. split; [done|]. by apply st_prims1.
    + rewrite decide_False; [done|]. intros [-> H']. apply H. split; [done|].
      by apply st_prims1.
Qed.

Lemma VisStep_write_other self id name v time :
  name ≠ "visibility" ->
  VisStep id (fun m => m) self
    (set_stage (Stage_with_prims (alter (Prim_Set name v time) id) (stage self)) self).
Proof.
  intros Hname. split; simpl; try done.
  - intros id'. rewrite lookup_alter. destruct (decide (id = id')) as [<-|]; [|done].
    by rewrite fmap_is_Some.
  - intros id'. unfold vis_of. simpl. rewrite samples_of_write.
    rewrite (decide_False (P := id = id' /\ _)) by tauto. by case_decide.
Qed.

Lemma VisStep_write_visibility self id visible t :
  VisStep id <[t := VBool visible]> self
    (set_stage (Stage_with_prims
       (alter (Prim_Set "visibility" (VBool visible) (Some t)) id) (stage self)) self).
Proof.
  split; simpl; try done.
  - intros id'. rewrite lookup_alter. destruct (decide (id = id')) as [<-|]; [|done].
    by rewrite fmap_is_Some.
  - intros id'. unfold vis_of. simpl. rewrite samples_of_write.
    destruct (decide (id' = id /\ is_Some (prims (stage self) !! id))) as [[-> H]|H].
    + by rewrite decide_True.
    + rewrite decide_False; [done|]. intros (-> & _ & ?). by apply H.
Qed.

Lemma USDObject_update_wrote self ref pos mat scale visible t :
  wp (USDObject_update ref pos mat scale visible t) self (fun r self' =>
    r = Ok {| obj_prim := obj_prim ref;
              last_visible_frame := if visible then t else last_visible_frame ref |}
    /\ VisStep (obj_prim ref) <[t := VBool visible]> self self').
Proof.
  unfold USDObject_update, USDObject_update_visibility.
  repeat wp_step; (split; [done|]).
  - eapply (VisStep_compose _ _ (fun m => m)); [apply VisStep_write_other; discriminate|].
    eapply (VisStep_compose _ (fun m => m)); [apply VisStep_write_visibility|].
    apply VisStep_write_other; discriminate.
  - eapply (VisStep_compose _ (fun m => m)); [apply VisStep_write_visibility|].
    apply VisStep_write_other; discriminate.
Qed.

(** What [_load_geom] has done when it returns. *)
Record Loaded (geom_name : string) (self self' : USDExporter) : Prop := {
  ld_args : args self' = args self;
  ld_frame_count : frame_count self' = frame_count self;
  ld_updates : updates self' = updates self;
  ld_texture_files : texture_files self' = texture_files self;
  ld_usd_cameras : usd_cameras self' = usd_cameras self;
  ld_geom_names : geom_names self' = {[geom_name]} ∪ geom_names self;
  ld_geom_refs :
    geom_refs self'
    = <[geom_name := {| obj_prim := next_prim self;
                        last_visible_frame := initial_last_visible_frame |}]> (geom_refs self);
  ld_next_prim : next_prim self' = S (next_prim self);
  ld_prims : exists p, prim_attrs p = ∅
    /\ prims (stage self') = <[next_prim self := p]> (prims (stage self));
}.

Lemma _load_geom_loaded self geom :
  _get_geom_name self geom ∉ geom_names self ->
  loadable self geom = true ->
  wp (_load_geom geom) self (fun r self' =>
    r = Ok tt /\ Loaded (_get_geom_name self geom) self self').
Proof.
  intros Hnew Hload. unfold loadable in Hload.
  apply andb_true_iff in Hload as [Htex Hmesh].
  unfold _load_geom, USDObject_new. wp_lines.
  2:{ rewrite bool_decide_eq_false_2 in * by done. done. }
  wp_step.
  - wp_lines. wp_step.
    + cbn [negb orb] in Hmesh. apply bool_decide_eq_true_1 in Hmesh as [d Hd].
      wp_lines; [|congruence]. split; [done|]. split; simpl; try done. eexists; split; [|reflexivity]; done.
    + wp_step; wp_lines; (split; [done|]; split; simpl; try done; eexists; split; [|reflexivity]; done).
  - cbn [orb] in Htex. wp_lines; unfold id in *;
      repeat match goal with H : py_index _ _ = _ |- _ => rewrite H in Htex; revert H end;
      intros; try done;
      apply bool_decide_eq_true_1 in Htex as [gt Hgt]; [|congruence].
    wp_step.
    + cbn [negb orb] in Hmesh. apply bool_decide_eq_true_1 in Hmesh as [d Hd].
      wp_lines; [|congruence]. split; [done|]. split; simpl; try done.
      eexists; split; [|reflexivity]; done.
    + wp_step; wp_lines;
        (split; [done|]; split; simpl; try done; eexists; split; [|reflexivity]; done).
Qed.

(** [visible=geom.rgba[3] > 0] *)
Definition is_visible (geom : MjvGeom.t) : bool :=
  (0 <? alpha (MjvGeom.rgba geom))%float.

(** What one round of the loop of [_update_geoms] does for [geom]: the record
    under its derived name exists afterwards and has one more visibility
    sample, at the update counter; the other records are as they were. *)
Record GeomUpdated (geom : MjvGeom.t) (self self' : USDExporter) : Prop := {
  gu_args : args self' = args self;
  gu_frame_count : frame_count self' = frame_count self;
  gu_updates : updates self' = updates self;
  gu_texture_files : texture_files self' = texture_files self;
  gu_usd_cameras : usd_cameras self' = usd_cameras self;
  gu_alias : Alias self';
  gu_others : forall n, n ≠ _get_geom_name self geom ->
    geom_refs self' !! n = geom_refs self !! n;
  gu_others_vis : forall n ref, n ≠ _get_geom_name self geom ->
    geom_refs self !! n = Some ref ->
    vis_of self' (obj_prim ref) = vis_of self (obj_prim ref);
  gu_this : exists ref',
    geom_refs self' !! _get_geom_name self geom = Some ref'
    /\ last_visible_frame ref'
       = (if is_visible geom then updates self
          else default initial_last_visible_frame
                 (last_visible_frame <$> geom_refs self !! _get_geom_name self geom))
    /\ vis_of self' (obj_prim ref')
       = <[updates self := VBool (is_visible geom)]>
           (default ∅ ((fun ref => vis_of self (obj_prim ref))
                       <$> geom_refs self !! _get_geom_name self geom));
}.

Lemma GeomUpdated_known self self2 geom ref :
  Alias self ->
  geom_refs self !! _get_geom_name self geom = Some ref ->
  VisStep (obj_prim ref) <[updates self := VBool (is_visible geom)]> self self2 ->
  GeomUpdated geom self
    (set_geom_refs
       (<[_get_geom_name self geom :=
            {| obj_prim := obj_prim ref;
               last_visible_frame :=
                 if is_visible geom then updates self else last_visible_frame ref |}]>
          (geom_refs self2)) self2).
Proof.
  intros [Hc Hlive Hinj] Href [].
  set (gn := _get_geom_name self geom) in *.
  destruct (Hlive _ _ Href) as [Hlt Hsome].
  split; cbn [args frame_count updates texture_files usd_cameras geom_refs set_geom_refs];
    try done.
  - split; cbn [geom_names geom_refs next_prim stage set_geom_refs].
    + unfold Consistent in *. cbn [geom_names geom_refs set_geom_refs].
      rewrite dom_insert_L, st_geom_names0, st_geom_refs0, Hc.
      symmetry. apply subseteq_union_1_L, singleton_subseteq_l. by eapply elem_of_dom_2.
    + intros n r. rewrite st_geom_refs0, st_next_prim0, lookup_insert.
      destruct (decide (gn = n)) as [<-|].
      * intros [= <-]. simpl. split; [done|]. by apply st_prims0.
      * intros Hn. destruct (Hlive _ _ Hn). split; [done|]. by apply st_prims0.
    + intros n1 n2 r1 r2. rewrite st_geom_refs0, !lookup_insert.
      destruct (decide (gn = n1)) as [<-|], (decide (gn = n2)) as [<-|]; try done.
      * intros [= <-] H2 Hp. simpl in Hp. by eapply Hinj.
      * intros H1 [= <-] Hp. simpl in Hp. by eapply Hinj.
      * apply Hinj.
  - intros n Hn. rewrite st_geom_refs0. by rewrite lookup_insert_ne.
  - intros n r Hn Hr. change (vis_of _ (obj_prim r)) with (vis_of self2 (obj_prim r)) at 1.
    rewrite st_vis0, decide_False; [done|].
    intros [Hp _]. apply Hn. symmetry. by eapply Hinj.
  - eexists. split; [by rewrite lookup_insert_eq|]. fold gn. rewrite Href. simpl.
    split; [done|].
    change (vis_of _ (obj_prim ref)) with (vis_of self2 (obj_prim ref)) at 1.
    by rewrite st_vis0, decide_True.
Qed.

Lemma GeomUpdated_new self self1 self2 geom :
  Alias self ->
  _get_geom_name self geom ∉ geom_names self ->
  Loaded (_get_geom_name self geom) self self1 ->
  VisStep (next_prim self) <[updates self := VBool (is_visible geom)]> self1 self2 ->
  GeomUpdated geom self
    (set_geom_refs
       (<[_get_geom_name self geom :=
            {| obj_prim := next_prim self;
               last_visible_frame :=
                 if is_visible geom then updates self else initial_last_visible_frame |}]>
          (geom_refs self2)) self2).
Proof.
  intros [Hc Hlive Hinj] Hnew [? ? ? ? ? Hnames Hrefs Hnext (p & Hattrs & Hprims)] [].
  set (gn := _get_geom_name self geom) in *.
  assert (geom_refs self !! gn = None) as Hnone.
  { apply not_elem_of_dom. unfold Consistent in Hc. by rewrite <- Hc. }
  assert (forall n r, geom_refs self !! n = Some r -> obj_prim r ≠ next_prim self) as Hfresh.
  { intros n r Hn. destruct (Hlive _ _ Hn). lia. }
  split; cbn [args frame_count updates texture_files usd_cameras geom_refs set_geom_refs];
    try congruence.
  - split; cbn [geom_names geom_refs next_prim stage set_geom_refs].
    + unfold Consistent in *. cbn [geom_names geom_refs set_geom_refs].
      rewrite st_geom_names0, st_geom_refs0, Hnames, Hrefs, insert_insert_eq, dom_insert_L.
      by rewrite Hc.
    + intros n r. rewrite st_geom_refs0, st_next_prim0, Hnext, Hrefs, insert_insert_eq,
        lookup_insert.
      destruct (decide (gn = n)) as [<-|].
      * intros [= <-]. simpl. split; [lia|]. apply st_prims0. rewrite Hprims.
        by rewrite lookup_insert_eq.
      * intros Hn. destruct (Hlive _ _ Hn). split; [lia|]. apply st_prims0. rewrite Hprims.
        rewrite lookup_insert_ne; [done|]. lia.
    + intros n1 n2 r1 r2. rewrite st_geom_refs0, Hrefs, insert_insert_eq, !lookup_insert.
      destruct (decide (gn = n1)) as [<-|], (decide (gn = n2)) as [<-|]; try done.
      * intros [= <-] H2 Hp. simpl in Hp. symmetry in Hp. by destruct (Hfresh _ _ H2).
      * intros H1 [= <-] Hp. simpl in Hp. by destruct (Hfresh _ _ H1).
      * apply Hinj.
  - intros n Hn. rewrite st_geom_refs0, Hrefs, insert_insert_eq. by rewrite lookup_insert_ne.
  - intros n r Hn Hr. change (vis_of _ (obj_prim r)) with (vis_of self2 (obj_prim r)) at 1.
    rewrite st_vis0, decide_False; [|intros [Hp _]; by destruct (Hfresh _ _ Hr)].
    unfold vis_of, samples_of. rewrite Hprims, lookup_insert_ne; [done|].
    intros Hp. by destruct (Hfresh _ _ Hr).
  - eexists. split; [by rewrite lookup_insert_eq|]. fold gn. rewrite Hnone. simpl.
    split; [congruence|].
    change (vis_of _ (next_prim self)) with (vis_of self2 (next_prim self)) at 1.
    rewrite st_vis0, decide_True.
    + f_equal. unfold vis_of, samples_of. rewrite Hprims, lookup_insert_eq.
      unfold prim_attr. by rewrite Hattrs, lookup_empty.
    + split; [done|]. rewrite Hprims. by rewrite lookup_insert_eq.
Qed.

Lemma _update_geom_updated self geom :
  Alias self ->
  loadable self geom = true ->
  wp (_update_geom geom) self (fun r self' => r = Ok tt /\ GeomUpdated geom self self').
Proof.
  intros HA Hload. unfold _update_geom. wp_lines.
  destruct (decide (_get_geom_name self geom ∈ geom_names self)) as [Hin|Hnew].
  - rewrite bool_decide_eq_true_2 by done. cbn [negb]. wp_lines.
    2:{ exfalso. destruct HA as [Hc _ _]. unfold Consistent in Hc. rewrite Hc in Hin.
        apply elem_of_dom in Hin as [? ?]. congruence. }
    wp_step; (eapply wp_mono; [apply USDObject_update_wrote|]);
      intros r self2 [-> HV]; wp_lines; (split; [done|]); by apply GeomUpdated_known.
  - rewrite bool_decide_eq_false_2 by done. cbn [negb].
    eapply wp_mono; [by apply _load_geom_loaded|].
    intros [[]|e] self1 [Hr HL]; [|done]. wp_lines.
    2:{ exfalso. destruct HL. rewrite ld_geom_refs0, lookup_insert_eq in *. done. }
    assert (a = {| obj_prim := next_prim self;
                   last_visible_frame := initial_last_visible_frame |}) as ->.
    { destruct HL. rewrite ld_geom_refs0, lookup_insert_eq in *. congruence. }
    rewrite (ld_updates _ _ _ HL).
    wp_step; (eapply wp_mono; [apply USDObject_update_wrote|]);
      intros r self2 [-> HV]; wp_lines; (split; [done|]); by apply GeomUpdated_new with self1.
Qed.

Lemma _get_geom_name_args self self' geom :
  args self' = args self -> _get_geom_name self' geom = _get_geom_name self geom.
Proof. unfold _get_geom_name. by intros ->. Qed.

Lemma loadable_args self self' geom :
  args self' = args self -> texture_files self' = texture_files self ->
  loadable self' geom = loadable self geom.
Proof. unfold loadable. by intros -> ->. Qed.

(** The record under [name], as far as visibility goes: the frame it was
    last visible in, and its visibility samples. *)
Definition vis_record (self : USDExporter) (name : string) : option (Z * gmap Z Value) :=
  (fun ref => (last_visible_frame ref, vis_of self (obj_prim ref))) <$> geom_refs self !! name.

(** The change of the record under [name] in one round of the loop of
    [_update_geoms], at the update counter [t]. *)
Definition vis_step (self : USDExporter) (name : string) (t : Z)
    (rec : option (Z * gmap Z Value)) (geom : MjvGeom.t) : option (Z * gmap Z Value) :=
  if decide (_get_geom_name self geom = name)
  then Some (if is_visible geom then t else default initial_last_visible_frame (fst <$> rec),
             <[t := VBool (is_visible geom)]> (default ∅ (snd <$> rec)))
  else rec.

Lemma GeomUpdated_vis_record geom self self' name :
  GeomUpdated geom self self' ->
  vis_record self' name = vis_step self name (updates self) (vis_record self name) geom.
Proof.
  intros []. unfold vis_step, vis_record.
  destruct (decide (_get_geom_name self geom = name)) as [<-|Hne].
  - destruct gu_this0 as (ref' & -> & Hlvf & Hvis). simpl. rewrite Hlvf, Hvis.
    by destruct (geom_refs self !! _get_geom_name self geom).
  - rewrite gu_others0 by done. destruct (geom_refs self !! name) as [ref|] eqn:Href; [|done].
    simpl. by rewrite (gu_others_vis0 name ref).
Qed.

(** What the steps of [update_scene] keep between its first statement and
    its last. *)
Record SameSession (self0 self : USDExporter) : Prop := {
  ss_args : args self = args self0;
  ss_updates : updates self = updates self0;
  ss_texture_files : texture_files self = texture_files self0;
}.

Lemma _update_geoms_loop self0 geoms : forall self,
  Alias self ->
  SameSession self0 self ->
  Forall (fun geom => loadable self0 geom = true) geoms ->
  wp (for_each geoms _update_geom) self (fun r self' =>
    r = Ok tt /\ Alias self' /\ SameSession self0 self'
    /\ usd_cameras self' = usd_cameras self
    /\ forall name,
         vis_record self' name
         = foldl (vis_step self0 name (updates self0)) (vis_record self name) geoms).
Proof.
  induction geoms as [|geom geoms IH]; intros self HA [Ha Hu Ht] Hload.
  - cbn [for_each]. wp_lines. split; [done|]. split; [done|]. split; [by split|]. by split.
  - apply Forall_cons in Hload as [Hg Hload]. cbn [for_each]. wp_line.
    eapply wp_mono.
    { apply _update_geom_updated; [done|]. by rewrite (loadable_args self0). }
    intros [[]|e] self1 [Hr HG]; [|done].
    eapply wp_mono.
    { apply IH; [by destruct HG | | done].
      destruct HG. split; congruence. }
    intros r self2 (-> & HA2 & HS2 & Hc2 & Hvis). split; [done|]. split; [done|].
    split; [done|]. split; [destruct HG; congruence|].
    intros name. rewrite Hvis. cbn [foldl]. f_equal.
    rewrite (GeomUpdated_vis_record geom self self1) by done.
    unfold vis_step. by rewrite (_get_geom_name_args self0 self), Hu.
Qed.

Lemma vis_record_VisSame self0 self name :
  Alias self0 -> VisSame self0 self -> vis_record self name = vis_record self0 name.
Proof.
  intros [_ Hlive _] []. unfold vis_record. rewrite vs_geom_refs0.
  destruct (geom_refs self0 !! name) as [ref|] eqn:Href; [|done].
  simpl. rewrite vs_vis0; [done|]. by destruct (Hlive _ _ Href).
Qed.

Lemma SameSession_VisSame self0 self1 self2 :
  VisSame self1 self2 -> SameSession self0 self1 -> SameSession self0 self2.
Proof. intros [] []. split; congruence. Qed.

Lemma wp_and {A} (m : M A) self (Q1 Q2 : Result A -> USDExporter -> Prop) :
  wp m self Q1 -> wp m self Q2 -> wp m self (fun r self' => Q1 r self' /\ Q2 r self').
Proof. by split. Qed.

Lemma first_update_block_scene self :
  wp first_update_block self (fun _ self' => scene self' = scene self).
Proof.
  unfold first_update_block, _initialize_usd_stage, _load_lights, _load_cameras.
  wp_lines. wp_step; [|by wp_lines]. wp_lines.
  match goal with |- wp _ ?s _ => set (self1 := s) end.
  apply (wp_for_range (fun _ self' => scene self' = scene self)); [done | | ].
  { intros i light self' _ Hs. unfold _load_light, USDSphereLight. wp_step; wp_lines; done. }
  intros self2 Hs2. wp_lines. wp_step; [|by wp_lines].
  apply (wp_for_each (fun self' => scene self' = scene self)); [done | | done].
  intros name self' _ Hs. unfold USDCamera_new. wp_lines. done.
Qed.

(** The exporter between two calls of a session in which no call raised. *)
Record Boundary (self : USDExporter) : Prop := {
  bd_alias : Alias self;
  bd_cameras : CamerasNamed self;
  bd_first : updates self = 0 -> geom_refs self = ∅ /\ usd_cameras self = [];
  bd_updates : 0 <= updates self;
}.

Lemma first_update_block_visibility self :
  Alias self ->
  CamerasNamed self ->
  (updates self = 0 -> geom_refs self = ∅ /\ usd_cameras self = []) ->
  wp first_update_block self (fun r self' =>
    r = Ok tt /\ Alias self' /\ CamerasNamed self' /\ SameSession self self'
    /\ forall name, vis_record self' name = vis_record self name).
Proof.
  intros HA Hcam Hfirst. unfold first_update_block. wp_lines. case_bool_decide as Hu.
  - destruct (Hfirst Hu) as [Hrefs Hnil]. wp_line.
    apply wp_initialize_usd_stage. intros st _ _. wp_line.
    match goal with |- wp _ ?s _ => set (self1 := s) end.
    assert (Alias self1) as HA1.
    { destruct HA as [Hc _ _]. split.
      - exact Hc.
      - intros n ref. subst self1. simpl. by rewrite Hrefs, lookup_empty.
      - intros n1 n2 r1 r2. subst self1. simpl. by rewrite Hrefs, lookup_empty. }
    eapply wp_mono; [by apply (_load_lights_vis self1)|].
    intros [[]|e] self2 (Hr & HV2 & Hc2); [|done].
    eapply wp_mono; [apply (_load_cameras_vis self1); [done|by rewrite Hc2]|].
    intros r self3 (-> & HV3 & Hcam3). split; [done|].
    split; [by eapply Alias_VisSame|]. split; [done|].
    split; [by destruct HV3|].
    intros name. unfold vis_record. destruct HV3 as [_ _ _ _ -> _ _ _].
    subst self1. simpl. by rewrite Hrefs, lookup_empty.
  - wp_lines. split; [done|]. split; [done|]. split; [done|]. by split.
Qed.

Lemma Alias_set_updates self v : Alias self -> Alias (set_updates v self).
Proof. intros [Hc Hl Hi]. by split. Qed.

Lemma update_scene_visibility self data scene_option :
  Boundary self ->
  Forall (fun geom => loadable self geom = true)
    (MjvScene.geoms (snapshot self (data, scene_option))) ->
  wp (update_scene data scene_option) self (fun r self' =>
    r = Ok tt /\ Boundary self' /\ args self' = args self
    /\ texture_files self' = texture_files self
    /\ updates self' = updates self + 1
    /\ forall name,
         vis_record self' name
         = foldl (vis_step self name (updates self)) (vis_record self name)
             (MjvScene.geoms (snapshot self (data, scene_option)))).
Proof.
  intros [HA Hcam Hfirst Hup] Hload. unfold update_scene, update_scene_steps.
  cbn [for_each]. do 5 wp_line.
  match goal with |- wp _ ?s _ => set (self2 := s) end.
  assert (VisSame self self2) as HV2 by (subst self2; vis_chain; reflexivity).
  eapply wp_mono.
  { apply wp_and; [apply first_update_block_scene|].
    apply first_update_block_visibility; [by eapply Alias_VisSame | done | done]. }
  intros r self3 (Hscene & -> & HA3 & Hcam3 & HS3 & Hvis3). wp_line.
  unfold _update_geoms. wp_lines. rewrite Hscene.
  eapply wp_mono.
  { apply (_update_geoms_loop self); [done | by destruct HS3 | done]. }
  intros [[]|e] self4 (Hr & HA4 & HS4 & Hc4 & Hvis4); [|done]. wp_line.
  eapply wp_mono; [by apply (_update_lights_vis self4)|].
  intros [[]|e] self5 (Hr5 & HV5 & Hc5); [|done]. wp_line.
  eapply wp_mono.
  { apply (_update_cameras_vis self4); [done|].
    unfold CamerasNamed in *. destruct HV5 as [-> _ _ _ _ _ _ _]. destruct HS4 as [-> _ _].
    destruct HS3 as [Ha3 _ _]. rewrite Hc5, Hc4. by rewrite Ha3 in Hcam3. }
  intros [[]|e] self6 (Hr6 & HV6 & Hc6); [|done]. wp_lines.
  pose proof (SameSession_VisSame _ _ _ HV6 HS4) as [Ha6 Hu6 Ht6].
  split; [done|]. split; [|split; [done|split; [done|split]]].
  - split.
    + by eapply Alias_set_updates, Alias_VisSame.
    + unfold CamerasNamed in *. cbn [usd_cameras args set_updates].
      destruct HS3 as [Ha3 _ _]. rewrite Hc6, Hc5, Hc4, Ha6. by rewrite Ha3 in Hcam3.
    + cbn [updates set_updates]. lia.
    + cbn [updates set_updates]. lia.
  - cbn [updates set_updates]. lia.
  - intros name.
    change (vis_record (set_updates _ self6) name) with (vis_record self6 name).
    rewrite (vis_record_VisSame self4) by done. rewrite Hvis4, Hvis3. done.
Qed.

(** ** Visibility over a session *)

(** The geoms of the snapshot of a frame. *)
Definition frame_geoms (self : USDExporter) (frame : MjData * option MjvOption)
    : list MjvGeom.t :=
  MjvScene.geoms (snapshot self frame).

(** The frame shows [name]: its snapshot has an instance with that derived
    name, and every such instance has a positive alpha. *)
Definition shows (self : USDExporter) (name : string) (frame : MjData * option MjvOption)
    : Prop :=
  Exists (fun geom => _get_geom_name self geom = name) (frame_geoms self frame)
  /\ Forall (fun geom => _get_geom_name self geom = name -> is_visible geom = true)
       (frame_geoms self frame).

(** The snapshot of the frame has no instance with the derived name [name]. *)
Definition hides (self : USDExporter) (name : string) (frame : MjData * option MjvOption)
    : Prop :=
  Forall (fun geom => _get_geom_name self geom ≠ name) (frame_geoms self frame).

Definition frame_loadable (self : USDExporter) (frame : MjData * option MjvOption) : Prop :=
  Forall (fun geom => loadable self geom = true) (frame_geoms self frame).

(** The record under [name] after the frames of a list, the first of them at
    the update counter [t]. *)
Fixpoint vis_after (self : USDExporter) (name : string) (t : Z)
    (rec : option (Z * gmap Z Value)) (frames : list (MjData * option MjvOption))
    : option (Z * gmap Z Value) :=
  match frames with
  | [] => rec
  | frame :: frames =>
      vis_after self name (t + 1)
        (foldl (vis_step self name t) rec (frame_geoms self frame)) frames
  end.

Lemma vis_step_hidden self name t geoms : forall rec,
  Forall (fun geom => _get_geom_name self geom ≠ name) geoms ->
  foldl (vis_step self name t) rec geoms = rec.
Proof.
  induction geoms as [|geom geoms IH]; intros rec Hall; [done|].
  apply Forall_cons in Hall as [Hg Hall]. cbn [foldl]. rewrite IH by done.
  unfold vis_step. by rewrite decide_False.
Qed.

Lemma vis_step_shown self name t geoms : forall rec,
  Forall (fun geom => _get_geom_name self geom = name -> is_visible geom = true) geoms ->
  foldl (vis_step self name t) rec geoms
  = if bool_decide (Exists (fun geom => _get_geom_name self geom = name) geoms)
    then Some (t, <[t := VBool true]> (default ∅ (snd <$> rec)))
    else rec.
Proof.
  induction geoms as [|geom geoms IH]; intros rec Hall.
  - rewrite bool_decide_eq_false_2; [done|]. by intros ?%Exists_nil.
  - apply Forall_cons in Hall as [Hg Hall]. cbn [foldl]. rewrite IH by done.
    unfold vis_step. destruct (decide (_get_geom_name self geom = name)) as [Hn|Hn].
    + rewrite (Hg Hn). rewrite (bool_decide_eq_true_2 (Exists _ (geom :: geoms)))
        by (by apply Exists_cons_hd).
      case_bool_decide; [|done]. simpl. by rewrite insert_insert_eq.
    + rewrite (bool_decide_ext (Exists _ (geom :: geoms))
                 (Exists (fun geom => _get_geom_name self geom = name) geoms)); [done|].
      rewrite Exists_cons. tauto.
Qed.

Lemma vis_after_app self name l1 : forall t rec l2,
  vis_after self name t rec (l1 ++ l2)
  = vis_after self name (t + Z.of_nat (length l1)) (vis_after self name t rec l1) l2.
Proof.
  induction l1 as [|frame l1 IH]; intros t rec l2.
  - simpl. f_equal. lia.
  - cbn [app vis_after length]. rewrite IH. f_equal. lia.
Qed.

Lemma vis_after_hidden self name frames : forall t rec,
  Forall (hides self name) frames -> vis_after self name t rec frames = rec.
Proof.
  induction frames as [|frame frames IH]; intros t rec Hall; [done|].
  apply Forall_cons in Hall as [Hf Hall]. cbn [vis_after].
  rewrite vis_step_hidden by done. by apply IH.
Qed.

Lemma vis_after_shown self name frames : forall t rec,
  Forall (shows self name) frames ->
  frames ≠ [] ->
  exists V,
    vis_after self name t rec frames = Some (t + Z.of_nat (length frames) - 1, V)
    /\ forall j, V !! j
        = if bool_decide (t <= j < t + Z.of_nat (length frames))
          then Some (VBool true) else default ∅ (snd <$> rec) !! j.
Proof.
  induction frames as [|frame frames IH]; intros t rec Hall Hne; [done|].
  apply Forall_cons in Hall as [[Hex Hvis] Hall]. cbn [vis_after].
  rewrite vis_step_shown, bool_decide_eq_true_2 by done.
  destruct frames as [|frame' frames].
  - eexists. split; [simpl; f_equal; f_equal; lia|].
    intros j. rewrite lookup_insert. simpl.
    destruct (decide (t = j)) as [<-|].
    + by rewrite bool_decide_eq_true_2 by lia.
    + by rewrite bool_decide_eq_false_2 by lia.
  - destruct (IH (t + 1) (Some (t, <[t := VBool true]> (default ∅ (snd <$> rec)))) Hall)
      as (V & -> & HV); [done|].
    exists V. split; [f_equal; f_equal; cbn [length]; lia|].
    intros j. rewrite HV. cbn [length]. simpl. rewrite lookup_insert.
    repeat case_bool_decide; try done; try lia.
    + destruct (decide (t = j)); [done|lia].
    + destruct (decide (t = j)); [lia|done].
Qed.

Lemma update_scenes_visibility frames : forall self,
  Boundary self ->
  Forall (frame_loadable self) frames ->
  exists self',
    update_scenes frames self = (Ok tt, self')
    /\ Boundary self' /\ args self' = args self
    /\ updates self' = updates self + Z.of_nat (length frames)
    /\ forall name,
         vis_record self' name = vis_after self name (updates self) (vis_record self name) frames.
Proof.
  induction frames as [|[data scene_option] frames IH]; intros self HB Hload.
  - exists self. split; [done|]. split; [done|]. split; [done|]. split; [simpl; lia|done].
  - apply Forall_cons in Hload as [Hl Hload].
    pose proof (update_scene_visibility self data scene_option HB Hl) as Hone.
    unfold wp in Hone.
    unfold update_scenes. cbn [for_each fst snd]. unfold mbind at 1, M_bind at 1.
    destruct (update_scene data scene_option self) as [r self1]. simpl in Hone.
    destruct Hone as (-> & HB1 & Ha1 & Ht1 & Hu1 & Hvis1).
    assert (forall frame, frame_geoms self1 frame = frame_geoms self frame) as Hgeoms.
    { intros frame. unfold frame_geoms, snapshot. by rewrite Ha1. }
    assert (forall name t rec l,
      vis_after self1 name t rec l = vis_after self name t rec l) as Hafter.
    { intros name t rec l. revert t rec. induction l as [|fr l IHl]; intros t rec; [done|].
      cbn [vis_after]. rewrite IHl, Hgeoms. f_equal.
      generalize (frame_geoms self fr). intros geoms. revert rec.
      induction geoms as [|geom geoms IHg]; intros rec; [done|].
      cbn [foldl]. rewrite IHg. f_equal. unfold vis_step.
      by rewrite (_get_geom_name_args self self1). }
    destruct (IH self1 HB1) as (self' & Hrun & HB' & Ha' & Hu' & Hvis').
    { eapply Forall_impl; [exact Hload|]. intros frame Hfr. unfold frame_loadable in *.
      rewrite Hgeoms. eapply Forall_impl; [exact Hfr|]. intros geom Hg. simpl in Hg.
      by rewrite (loadable_args self self1). }
    exists self'. fold (update_scenes frames). split; [done|]. split; [done|].
    split; [congruence|]. split; [cbn [length]; lia|].
    intros name. rewrite Hvis', Hafter, Hvis1, Hu1. done.
Qed.

(** The loop of [save_scene] over the records. *)
Lemma save_scene_loop (l : list (string * USDObject)) : forall self,
  NoDup ((fun nr => obj_prim nr.2) <$> l) ->
  (forall nr, nr ∈ l -> is_Some (prims (stage self) !! obj_prim nr.2)) ->
  wp (for_each l (fun '(_, geom_ref) =>
        USDObject_update_visibility geom_ref false (last_visible_frame geom_ref + 1)))
     self (fun r self' =>
       (forall id, is_Some (prims (stage self') !! id) <-> is_Some (prims (stage self) !! id))
       /\ (forall nr, nr ∈ l ->
             vis_of self' (obj_prim nr.2)
             = <[last_visible_frame nr.2 + 1 := VBool false]> (vis_of self (obj_prim nr.2)))
       /\ (forall id, id ∉ ((fun nr => obj_prim nr.2) <$> l) -> vis_of self' id = vis_of self id)).
Proof.
  induction l as [|[n0 r0] l IH]; intros self Hdup Hlive.
  - cbn [for_each]. wp_lines. split; [done|]. split; [|done]. by intros nr ?%elem_of_nil.
  - cbn [for_each]. rewrite fmap_cons in Hdup. apply NoDup_cons in Hdup as [Hfresh Hdup].
    cbn [snd] in Hfresh.
    wp_line. unfold USDObject_update_visibility at 1. wp_lines.
    match goal with |- wp _ ?s _ => set (self1 := s) end.
    pose proof (VisStep_write_visibility self (obj_prim r0) false (last_visible_frame r0 + 1))
      as [_ _ _ _ _ _ _ _ Hprims Hvis]. fold self1 in Hprims, Hvis.
    eapply wp_mono.
    { apply IH; [done|]. intros nr Hnr. apply Hprims, Hlive. by right. }
    intros r self' (Hprims' & Hin & Hout). split; [|split].
    + intros id. by rewrite Hprims'.
    + intros nr [->|Hnr]%elem_of_cons.
      * cbn [snd]. rewrite Hout by done. rewrite Hvis, decide_True; [done|].
        split; [done|]. apply (Hlive (n0, r0)). by left.
      * rewrite Hin by done. rewrite Hvis, decide_False; [done|].
        intros [Heq _]. apply Hfresh. rewrite <- Heq.
        by apply (list_elem_of_fmap_2 (fun nr => obj_prim nr.2)).
    + intros id Hid. rewrite fmap_cons in Hid. apply not_elem_of_cons in Hid as [Hne Hid].
      rewrite Hout by done. rewrite Hvis, decide_False; [done|]. tauto.
Qed.

Lemma save_scene_visibility filetype self :
  Alias self ->
  wp (save_scene filetype) self (fun r self' =>
    r = Ok tt ->
    forall name ref, geom_refs self !! name = Some ref ->
      vis_of self' (obj_prim ref)
      = <[last_visible_frame ref + 1 := VBool false]> (vis_of self (obj_prim ref))).
Proof.
  intros [_ Hlive Hinj]. unfold save_scene. wp_lines.
  cbn [geom_refs set_stage].
  eapply wp_mono.
  { apply save_scene_loop.
    - apply NoDup_fmap_2_strong; [|apply NoDup_map_to_list].
      intros [n1 r1] [n2 r2] H1%elem_of_map_to_list H2%elem_of_map_to_list Hp.
      simpl in Hp. assert (n1 = n2) as <- by (by eapply Hinj). congruence.
    - intros [n r] Hnr%elem_of_map_to_list. simpl. by apply (Hlive n r). }
  intros [[]|e] self1 (_ & Hin & _); [|done]. wp_lines. intros _ name ref Href.
  apply (Hin (name, ref)). by apply elem_of_map_to_list.
Qed.

Lemma Fresh_Boundary a self : Fresh a self -> Boundary self.
Proof.
  intros HF. pose proof (Fresh_Consistent _ _ HF) as Hc. destruct HF. split.
  - split; [done| |]; intros *; by rewrite fresh_geom_refs0, lookup_empty.
  - unfold CamerasNamed. rewrite fresh_usd_cameras0. simpl. lia.
  - done.
  - lia.
Qed.

(** C2, as the code has it: a geometry instance that is in the snapshot of
    the calls 1 to [k] of [update_scene] with a positive alpha (every instance
    of its derived name is), and in no snapshot afterwards, has after
    [save_scene] a record with visibility [true] at the time samples [0] to
    [k - 1], which are those of the frames 1 to [k], visibility [false] at the
    time sample [k], that of frame [k + 1], and no sample after it. *)
Theorem visible_then_hidden (a : ExporterArgs) (self0 : USDExporter)
    (shown hidden : list (MjData * option MjvOption)) (name filetype : string) :
  __init__ a = Ok self0 ->
  filetype ∈ ["usd"; "usda"; "usdc"] ->
  shown ≠ [] ->
  Forall (frame_loadable self0) (shown ++ hidden) ->
  Forall (shows self0 name) shown ->
  Forall (hides self0 name) hidden ->
  let k := Z.of_nat (length shown) in
  exists self self' ref,
    update_scenes (shown ++ hidden) self0 = (Ok tt, self)
    /\ save_scene filetype self = (Ok tt, self')
    /\ last (exported self') = Some (frame_path self filetype, stage self')
    /\ geom_refs self' !! name = Some ref
    /\ (forall j, 0 <= j < k ->
          samples_of (stage self') (obj_prim ref) "visibility" !! j = Some (VBool true))
    /\ samples_of (stage self') (obj_prim ref) "visibility" !! k = Some (VBool false)
    /\ (forall j, k < j ->
          samples_of (stage self') (obj_prim ref) "visibility" !! j = None).
Proof.
  intros Hinit Hft Hne Hload Hshown Hhidden k. apply __init___fresh in Hinit.
  pose proof (Fresh_Boundary _ _ Hinit) as HB. destruct Hinit as [_ _ Hu0 _ Hrefs0 _ _ _ _ _].
  destruct (update_scenes_visibility _ self0 HB Hload) as (self & Hrun & HB' & _ & _ & Hvis).
  specialize (Hvis name). unfold vis_record at 2 in Hvis.
  rewrite Hrefs0, lookup_empty, Hu0, vis_after_app in Hvis. cbn [fmap option_fmap option_map] in Hvis.
  rewrite vis_after_hidden in Hvis by done.
  destruct (vis_after_shown self0 name shown 0 None Hshown Hne) as (V & HV & Hlookup).
  rewrite HV in Hvis. unfold vis_record in Hvis.
  destruct (geom_refs self !! name) as [ref|] eqn:Href; [|done].
  injection Hvis as Hlvf HvisV.
  pose proof (save_scene_run filetype self Hft) as Hsave.
  pose proof (save_scene_visibility filetype self (bd_alias _ HB')) as Hsvis.
  unfold wp in Hsave, Hsvis.
  destruct (save_scene filetype self) as [r self'] eqn:Hsv. cbn [fst snd] in Hsave, Hsvis.
  destruct Hsave as [-> (_ & _ & _ & _ & Hrefs' & _ & _ & _ & _ & _ & Hexp)].
  specialize (Hsvis eq_refl name ref Href). unfold vis_of in Hsvis, HvisV.
  exists self, self', ref. split; [done|]. split; [done|].
  split; [by rewrite Hexp, last_snoc|]. split; [by rewrite Hrefs'|].
  rewrite Hsvis, HvisV, Hlvf. fold k.
  replace (0 + k - 1 + 1) with k by lia.
  split; [|split].
  - intros j Hj. rewrite lookup_insert_ne by lia. rewrite Hlookup.
    by rewrite bool_decide_eq_true_2 by lia.
  - by rewrite lookup_insert_eq.
  - intros j Hj. rewrite lookup_insert_ne by lia. rewrite Hlookup.
    by rewrite bool_decide_eq_false_2 by lia.
Qed.


(** * Further properties of the exporter *)

(** ** Names, records and counters over a session *)

(** X1: in every session the set of names seen and the keys of the record
    map are the same set. [__init__] starts both empty, [_load_geom] adds a
    name to both in its last two statements, and no other statement assigns
    to either; this holds after any series of calls, whether or not one of
    them raised. *)
Theorem names_match_records (a : ExporterArgs) (self0 : USDExporter) (calls : list Call) :
  __init__ a = Ok self0 ->
  geom_names (after_calls calls self0) = dom (geom_refs (after_calls calls self0)).
Proof.
  intros Hinit. apply __init___fresh in Hinit. apply Fresh_Consistent in Hinit.
  by destruct (after_calls_Evolves calls self0 Hinit).
Qed.

(** X2: every call of [update_scene] adds one to the frame counter, also a
    call that raises; it adds one to the update counter exactly when it
    returns. After a call that raised, the frame counter is ahead of the
    update counter by one more than before. *)
Theorem update_scene_moves_counters (a : ExporterArgs) (self0 : USDExporter)
    (calls : list Call) (data : MjData) (scene_option : option MjvOption) :
  __init__ a = Ok self0 ->
  let self := after_calls calls self0 in
  let r := update_scene data scene_option self in
  frame_count r.2 = frame_count self + 1
  /\ (r.1 = Ok tt -> updates r.2 = updates self + 1)
  /\ (forall e, r.1 = Raise e -> updates r.2 = updates self).
Proof.
  intros Hinit self r. apply __init___fresh in Hinit. apply Fresh_Consistent in Hinit.
  destruct (after_calls_Evolves calls self0 Hinit) as [Hc _]. fold self in Hc.
  pose proof (update_scene_run self data scene_option Hc) as Hrun. unfold wp in Hrun.
  destruct (update_scene_ends_counters _ _ _ Hrun) as [Hf Hu]. fold r in Hf, Hu.
  split; [done|]. split.
  - intros Hr. by rewrite Hr in Hu.
  - intros e Hr. by rewrite Hr in Hu.
Qed.

(** X3: a session of [update_scene] calls on a new exporter raises nothing
    when the subscripts of [_load_geom] are in range for every geom of every
    snapshot: the material of the geom, the textures of the material and,
    for a mesh, the mesh data. In particular [_update_cameras] finds a name
    for every camera record, and both counters end at the number of
    frames. *)
Theorem loadable_frames_never_raise (a : ExporterArgs) (self0 : USDExporter)
    (frames : list (MjData * option MjvOption)) :
  __init__ a = Ok self0 ->
  Forall (frame_loadable self0) frames ->
  exists self,
    update_scenes frames self0 = (Ok tt, self)
    /\ frame_count self = Z.of_nat (length frames)
    /\ updates self = Z.of_nat (length frames).
Proof.
  intros Hinit Hload. apply __init___fresh in Hinit.
  destruct (update_scenes_visibility frames self0 (Fresh_Boundary _ _ Hinit) Hload)
    as (self & Hrun & _).
  destruct (update_scenes_counts _ _ _ (Fresh_Consistent _ _ Hinit) Hrun) as (_ & Hf & Hu).
  destruct Hinit. exists self. split; [done|]. split; lia.
Qed.

(** X4: [_update_lights] never raises and touches nothing but the stage. A
    light of the snapshot beyond the end of [usd_lights], a placeholder, and
    a light at the origin are skipped; for the others the record at the same
    index is updated. *)
Theorem _update_lights_never_raises (self : USDExporter) :
  exists self',
    _update_lights self = (Ok tt, self')
    /\ usd_lights self' = usd_lights self /\ usd_cameras self' = usd_cameras self
    /\ geom_names self' = geom_names self /\ geom_refs self' = geom_refs self
    /\ updates self' = updates self /\ next_prim self' = next_prim self.
Proof.
  assert (wp _update_lights self (fun r self' =>
    r = Ok tt /\ usd_lights self' = usd_lights self /\ usd_cameras self' = usd_cameras self
    /\ geom_names self' = geom_names self /\ geom_refs self' = geom_refs self
    /\ updates self' = updates self /\ next_prim self' = next_prim self)) as Hwp.
  { unfold _update_lights. wp_lines.
    apply (wp_for_range (fun _ self' =>
      usd_lights self' = usd_lights self /\ usd_cameras self' = usd_cameras self
      /\ geom_names self' = geom_names self /\ geom_refs self' = geom_refs self
      /\ updates self' = updates self /\ next_prim self' = next_prim self)); [done | | done].
    intros i light self' _ HI. unfold _update_light, USDSphereLight_update.
    repeat wp_step; exact HI. }
  unfold wp in Hwp. destruct (_update_lights self) as [r self']. simpl in Hwp.
  destruct Hwp as [-> Hwp]. by exists self'.
Qed.

(** X5: for a geom whose derived name is new, [_load_geom] returns exactly
    when its subscripts are in range. Then the name is added to the names
    seen and a record on a new prim is stored under it. Otherwise
    [mat_texid[geom.matid]], [texture_files[i]], [tex_type[i]] or
    [geom_dataid[geom.objid]] raises [IndexError], before anything has been
    created: the exporter is left as it was. *)
Theorem _load_geom_subscripts (self : USDExporter) (geom : MjvGeom.t) :
  _get_geom_name self geom ∉ geom_names self ->
  (loadable self geom = true ->
     exists self', _load_geom geom self = (Ok tt, self')
       /\ geom_names self' = {[_get_geom_name self geom]} ∪ geom_names self
       /\ geom_refs self'
          = <[_get_geom_name self geom :=
                {| obj_prim := next_prim self;
                   last_visible_frame := initial_last_visible_frame |}]> (geom_refs self))
  /\ (loadable self geom = false -> _load_geom geom self = (Raise IndexError, self)).
Proof.
  intros Hnew. split; intros Hload.
  - pose proof (_load_geom_loaded self geom Hnew Hload) as Hwp. unfold wp in Hwp.
    destruct (_load_geom geom self) as [r self']. simpl in Hwp. destruct Hwp as [-> []].
    by exists self'.
  - assert (wp (_load_geom geom) self (fun r self' => r = Raise IndexError /\ self' = self))
      as Hwp.
    { unfold loadable in Hload.
      unfold _load_geom, USDObject_new. wp_lines.
      2:{ match goal with H : negb _ = false |- _ =>
            apply negb_false_iff, bool_decide_eq_true_1 in H end. done. }
      repeat wp_step; unfold id in *; try done; exfalso;
        repeat match goal with
        | H : bool_decide _ = _ |- _ => rewrite H in Hload; clear H
        | H : py_index _ _ = _ |- _ => rewrite H in Hload; clear H
        | H : geom_textures_of _ _ _ = _ |- _ => rewrite H in Hload; clear H
        end; cbn in Hload; try discriminate. }
    unfold wp in Hwp. destruct (_load_geom geom self) as [r self']. simpl in Hwp.
    by destruct Hwp as [-> ->].
Qed.

(** X6: [save_scene] closes the visibility of every record, not only of those
    that have left the scene. After a session of calls that did not raise,
    each record has in the document that is written the sample [false] at
    the frame after the last one it was visible in, and its other visibility
    samples as before; the records, the names and the counters are not
    changed. *)
Theorem save_scene_marks_every_record (a : ExporterArgs) (self0 self : USDExporter)
    (frames : list (MjData * option MjvOption)) (filetype name : string) (ref : USDObject) :
  __init__ a = Ok self0 ->
  Forall (frame_loadable self0) frames ->
  update_scenes frames self0 = (Ok tt, self) ->
  filetype ∈ ["usd"; "usda"; "usdc"] ->
  geom_refs self !! name = Some ref ->
  let self' := (save_scene filetype self).2 in
  samples_of (stage self') (obj_prim ref) "visibility"
  = <[last_visible_frame ref + 1 := VBool false]>
      (samples_of (stage self) (obj_prim ref) "visibility")
  /\ geom_refs self' = geom_refs self /\ geom_names self' = geom_names self
  /\ frame_count self' = frame_count self /\ updates self' = updates self.
Proof.
  intros Hinit Hload Hrun Hft Href self'. apply __init___fresh in Hinit.
  destruct (update_scenes_visibility frames self0 (Fresh_Boundary _ _ Hinit) Hload)
    as (self1 & Hrun1 & [HA _ _ _] & _).
  rewrite Hrun in Hrun1. injection Hrun1 as <-.
  pose proof (save_scene_visibility filetype self HA) as Hvis.
  pose proof (save_scene_run filetype self Hft) as Hsaved.
  unfold wp in Hvis, Hsaved. fold self' in Hvis, Hsaved.
  destruct Hsaved as [Hr (_ & Hf & Hu & Hn & Hrefs & _)].
  split; [exact (Hvis Hr name ref Href)|]. done.
Qed.

(** X7: the list of light records is built once, from the first snapshot. After
    a session of calls that did not raise it has one slot for each light of
    the snapshot of the first call, whatever the number of lights in the
    later snapshots. *)
Theorem light_slots_from_first_frame (a : ExporterArgs) (self0 self : USDExporter)
    (frame : MjData * option MjvOption) (frames : list (MjData * option MjvOption)) :
  __init__ a = Ok self0 ->
  update_scenes (frame :: frames) self0 = (Ok tt, self) ->
  length (usd_lights self) = MjvScene.nlight (snapshot self0 frame).
Proof.
  intros Hinit Hrun. apply __init___fresh in Hinit.
  pose proof (Fresh_Consistent _ _ Hinit) as Hc. destruct Hinit as [_ _ Hu _ _ Hnil _ _ _ _].
  destruct frame as [data scene_option].
  unfold update_scenes in Hrun. cbn [for_each fst snd] in Hrun.
  unfold mbind, M_bind in Hrun.
  pose proof (update_scene_run self0 data scene_option Hc) as Hone.
  pose proof (update_scene_first_lights self0 data scene_option Hu Hnil) as Hfirst.
  unfold wp in Hone, Hfirst.
  destruct (update_scene data scene_option self0) as [[[]|e] self1]; [|done].
  destruct (update_scene_ends_counters _ _ _ Hone) as [_ Hu1].
  destruct (update_scene_ends_Evolves _ _ _ Hone) as [Hc1 _]. simpl in *.
  specialize (Hfirst eq_refl).
  by destruct (update_scenes_lights _ _ frames self1 self Hc1 ltac:(lia) Hfirst Hrun).
Qed.

(** ** Names and paths *)

(** X8: the segments of one tendon get different names. For two tendon geoms
    with the same object id, [_get_geom_name] gives the same name only when
    the segment ids are the same: the name ends with the segment id. *)
Theorem tendon_segments_named_apart (self : USDExporter) (g1 g2 : MjvGeom.t) :
  MjvGeom.objtype g1 = mjOBJ_TENDON ->
  MjvGeom.objtype g2 = mjOBJ_TENDON ->
  MjvGeom.objid g1 = MjvGeom.objid g2 ->
  _get_geom_name self g1 = _get_geom_name self g2 <-> MjvGeom.segid g1 = MjvGeom.segid g2.
Proof.
  intros H1 H2 Hid. unfold _get_geom_name. rewrite H1, H2, Hid. split.
  - intros Heq. apply (inj (String.app _)) in Heq. apply (inj (String.app _)) in Heq.
    by apply (inj pretty) in Heq.
  - by intros ->.
Qed.

Lemma string_app_length (s t : string) :
  String.length (s +:+ t) = (String.length s + String.length t)%nat.
Proof. induction s as [|c s IH]; simpl; [done|]. by rewrite IH. Qed.

Lemma string_app_inj_r (t s1 s2 : string) : s1 +:+ t = s2 +:+ t -> s1 = s2.
Proof.
  revert s2. induction s1 as [|c1 s1 IH]; intros [|c2 s2] Heq.
  - done.
  - apply (f_equal String.length) in Heq. rewrite !string_app_length in Heq.
    cbn [String.length] in Heq. lia.
  - apply (f_equal String.length) in Heq. rewrite !string_app_length in Heq.
    cbn [String.length] in Heq. lia.
  - cbn [String.app] in Heq. injection Heq as -> Heq. f_equal. by apply IH.
Qed.

(** X9: the file that [save_scene] writes is named by the frame counter. Two
    exporters with the same output directory write the same file for a
    filetype exactly when their frame counters are the same: a save after
    more calls of [update_scene] goes to a new file, a second save without
    one overwrites the first. *)
Theorem frame_paths_differ (self self' : USDExporter) (filetype : string) :
  args self' = args self ->
  frame_path self filetype = frame_path self' filetype <-> frame_count self = frame_count self'.
Proof.
  intros Ha. unfold frame_path. rewrite Ha. split.
  - intros Heq. do 5 apply (inj (String.app _)) in Heq.
    apply string_app_inj_r in Heq. by apply (inj pretty) in Heq.
  - by intros ->.
Qed.

(** ** Textures *)

(** The path that [_load_textures] records for the texture [texture_id]: the
    file name under the assets directory, relative to the frames directory. *)
Definition texture_path (texture_id : nat) : string :=
  "../assets" +:+ "/" +:+ ("texture_" +:+ pretty texture_id +:+ ".png").

Lemma _load_textures_loop_files textures : forall texture_id data_adr self,
  wp (_load_textures_loop texture_id data_adr textures) self (fun r self' =>
    r = Ok tt ->
    texture_files self'
    = (texture_files self ++ (texture_path <$> seq texture_id (length textures)))%list).
Proof.
  induction textures as [|tex rest IH]; intros texture_id data_adr self.
  - apply wp_ret. intros _. simpl. by rewrite app_nil_r.
  - cbn [_load_textures_loop]. wp_lines. wp_step; wp_lines; [|done].
    eapply wp_mono; [apply IH|]. simpl. intros r self' H Hr.
    rewrite (H Hr). by rewrite <- app_assoc.
Qed.

(** X10: [texture_files] holds one path per texture of the model, in the order
    of the texture ids, each named by its id: an exporter that [__init__]
    returns has [../assets/texture_<i>.png] at index [i]. *)
Theorem texture_files_named_by_index (a : ExporterArgs) (self : USDExporter) :
  __init__ a = Ok self ->
  texture_files self = texture_path <$> seq 0 (MjModel.ntex (model a)).
Proof.
  unfold __init__. do 2 (case_bool_decide; [done|]).
  destruct (_initialize_usd_stage_run (new_exporter a)) as (st & Hrun & _).
  unfold mbind, M_bind. rewrite Hrun.
  unfold _load_textures, mbind, M_bind. simpl.
  pose proof (_load_textures_loop_files (MjModel.textures (model a)) 0%nat 0
    (set_texture_files [] (set_next_prim 1 (set_stage st (new_exporter a))))) as Hfiles.
  unfold wp in Hfiles. simpl in Hfiles.
  destruct (_load_textures_loop _ _ _ _) as [[[]|e] self']; simpl in *; [|done].
  intros [= ->]. by apply Hfiles.
Qed.

(** The number of entries of [tex_data] that [_load_textures] takes for a
    texture, and for all textures of a list. *)
Definition tex_pixels (tex : MjTexture.t) : Z :=
  Z.of_N (MjTexture.tex_nchannel tex) * Z.of_N (MjTexture.tex_height tex)
  * Z.of_N (MjTexture.tex_width tex).

Definition tex_data_size (textures : list MjTexture.t) : Z :=
  foldr (fun tex n => tex_pixels tex + n) 0 textures.

(** The entries of the texture fill an array of shape [(height, width, 3)]. *)
Definition reshapes (tex : MjTexture.t) : Prop :=
  tex_pixels tex = Z.of_N (MjTexture.tex_height tex) * Z.of_N (MjTexture.tex_width tex) * 3.

(** A texture fills the shape exactly when it has three channels or no
    pixel. *)
Lemma reshapes_iff (tex : MjTexture.t) :
  reshapes tex
  <-> MjTexture.tex_nchannel tex = 3%N
      \/ MjTexture.tex_height tex = 0%N \/ MjTexture.tex_width tex = 0%N.
Proof.
  unfold reshapes, tex_pixels. split.
  - intros H.
    destruct (decide (MjTexture.tex_height tex = 0%N)) as [|Hh]; [auto|].
    destruct (decide (MjTexture.tex_width tex = 0%N)) as [|Hw]; [auto|].
    left. nia.
  - intros [->|[->| ->]]; lia.
Qed.

Lemma tex_pixels_nonneg tex : 0 <= tex_pixels tex.
Proof. unfold tex_pixels. repeat apply Z.mul_nonneg_nonneg; apply N2Z.is_nonneg. Qed.

Lemma tex_data_size_nonneg textures : 0 <= tex_data_size textures.
Proof.
  induction textures as [|tex rest IH]; simpl; [done|].
  pose proof (tex_pixels_nonneg tex). lia.
Qed.

Lemma _load_textures_loop_reshape textures : forall texture_id data_adr self,
  0 <= data_adr ->
  data_adr + tex_data_size textures <= MjModel.ntexdata (model (args self)) ->
  wp (_load_textures_loop texture_id data_adr textures) self (fun r _ =>
    (Forall reshapes textures -> r = Ok tt)
    /\ (Exists (fun tex => ~ reshapes tex) textures -> exists msg, r = Raise (ValueError msg))).
Proof.
  induction textures as [|tex rest IH]; intros texture_id data_adr self Hadr Hfit.
  - apply wp_ret. split; [done|]. by intros ?%Exists_nil.
  - simpl in Hfit. pose proof (tex_pixels_nonneg tex) as Hpix.
    pose proof (tex_data_size_nonneg rest) as Hrest.
    cbn [_load_textures_loop]. fold (tex_pixels tex). wp_lines.
    rewrite py_slice_len_fits by lia. fold (reshapes tex).
    case_bool_decide as Hre; wp_lines.
    + eapply wp_mono; [apply IH; [lia | simpl; lia]|].
      simpl. intros r _ [Hok Hbad]. split.
      * intros [_ Hall]%Forall_cons. auto.
      * intros [Hhere|Hlater]%Exists_cons; [done | auto].
    + split; [by intros [? _]%Forall_cons | by eexists].
Qed.

(** X11: [_load_textures] reshapes the data of every texture to
    [(height, width, 3)], whatever [tex_nchannel] says. For a model whose
    texture data is all there and whose textures all have pixels,
    construction with dimensions that fit succeeds when every texture has
    three channels, and raises [ValueError] when some texture has another
    number of channels. The image library and the file system are taken not
    to fail. *)
Theorem init_needs_rgb_textures (a : ExporterArgs) :
  width a <= MjModel.offwidth (model a) ->
  height a <= MjModel.offheight (model a) ->
  tex_data_size (MjModel.textures (model a)) <= MjModel.ntexdata (model a) ->
  (Forall (fun tex => MjTexture.tex_nchannel tex = 3%N
                      /\ MjTexture.tex_height tex ≠ 0%N /\ MjTexture.tex_width tex ≠ 0%N)
     (MjModel.textures (model a)) ->
   exists self, __init__ a = Ok self)
  /\ (Exists (fun tex => MjTexture.tex_nchannel tex ≠ 3%N
                         /\ MjTexture.tex_height tex ≠ 0%N /\ MjTexture.tex_width tex ≠ 0%N)
        (MjModel.textures (model a)) ->
      exists msg, __init__ a = Raise (ValueError msg)).
Proof.
  intros Hw Hh Hfit. unfold __init__.
  rewrite !bool_decide_eq_false_2 by lia.
  destruct (_initialize_usd_stage_run (new_exporter a)) as (st & Hrun & _).
  unfold mbind, M_bind. rewrite Hrun.
  unfold _load_textures, mbind, M_bind. simpl.
  pose proof (_load_textures_loop_reshape (MjModel.textures (model a)) 0%nat 0
    (set_texture_files [] (set_next_prim 1 (set_stage st (new_exporter a))))) as H.
  unfold wp in H. simpl in H. destruct H as [Hok Hbad]; [lia | lia |].
  destruct (_load_textures_loop _ _ _ _) as [r self']. simpl in *. split.
  - intros Hall. rewrite Hok; [by eexists|].
    eapply Forall_impl; [exact Hall|]. intros tex (Hch & _ & _).
    apply reshapes_iff. by left.
  - intros Hex. destruct Hbad as [msg ->]; [|by eexists].
    eapply Exists_impl; [exact Hex|]. intros tex. rewrite reshapes_iff. tauto.
Qed.

(** ** The prims of the document over the calls *)

(** [Grows self0 self]: from [self0] to [self] every prim of the stage has
    stayed, and the prims that have come were created in between. *)
Record Grows (self0 self : USDExporter) : Prop := {
  gr_next : (next_prim self0 <= next_prim self)%nat;
  gr_kept : forall id,
    is_Some (prims (stage self0) !! id) -> is_Some (prims (stage self) !! id);
  gr_new : forall id,
    is_Some (prims (stage self) !! id) ->
    is_Some (prims (stage self0) !! id) \/ (next_prim self0 <= id < next_prim self)%nat;
}.

#[local] Instance Grows_refl : Reflexive Grows.
Proof. intros s. split; auto. Qed.

Lemma Grows_step self0 self1 self2 :
  Grows self1 self2 -> Grows self0 self1 -> Grows self0 self2.
Proof.
  intros [] []. split; [lia | auto |].
  intros id Hid. destruct (gr_new0 _ Hid) as [H1|H1]; [|right; lia].
  destruct (gr_new1 _ H1) as [H0|H0]; [by left | right; lia].
Qed.

(** An assignment that leaves the prims and the next identity as they are. *)
Lemma Grows_same self self' :
  next_prim self' = next_prim self -> prims (stage self') = prims (stage self) ->
  Grows self self'.
Proof. intros Hn Hp. split; rewrite ?Hn, ?Hp; auto. Qed.

Lemma Grows_write self id f :
  Grows self (set_stage (Stage_with_prims (alter f id) (stage self)) self).
Proof.
  split; simpl; [lia | |].
  - intros id'. rewrite lookup_alter. destruct (decide (id = id')) as [<-|]; [|done].
    intros [p ->]. by eexists.
  - intros id'. rewrite lookup_alter. destruct (decide (id = id')) as [<-|]; [|auto].
    destruct (prims (stage self) !! id); [by left; eexists | by intros [? [=]]].
Qed.

Lemma Grows_define self p :
  Grows self (set_next_prim (S (next_prim self))
    (set_stage (Stage_with_prims <[next_prim self := p]> (stage self)) self)).
Proof.
  split; simpl; [lia | |].
  - intros id Hid. rewrite lookup_insert. by case_decide.
  - intros id. rewrite lookup_insert. case_decide; [subst; right; lia | auto].
Qed.

Lemma Grows_set_frame_count self v : Grows self (set_frame_count v self).
Proof. by apply Grows_same. Qed.

Lemma Grows_set_updates self v : Grows self (set_updates v self).
Proof. by apply Grows_same. Qed.

Lemma Grows_set_scene self v : Grows self (set_scene v self).
Proof. by apply Grows_same. Qed.

Lemma Grows_set_geom_names self v : Grows self (set_geom_names v self).
Proof. by apply Grows_same. Qed.

Lemma Grows_set_geom_refs self v : Grows self (set_geom_refs v self).
Proof. by apply Grows_same. Qed.

Lemma Grows_set_usd_lights self v : Grows self (set_usd_lights v self).
Proof. by apply Grows_same. Qed.

Lemma Grows_set_usd_cameras self v : Grows self (set_usd_cameras v self).
Proof. by apply Grows_same. Qed.

Lemma Grows_set_exported self v : Grows self (set_exported v self).
Proof. by apply Grows_same. Qed.

Lemma Grows_set_end_time_code self t :
  Grows self (set_stage (SetEndTimeCode t (stage self)) self).
Proof. by apply Grows_same. Qed.

Ltac grows_prim :=
  first
    [ apply Grows_set_frame_count | apply Grows_set_updates | apply Grows_set_scene
    | apply Grows_set_geom_names | apply Grows_set_geom_refs
    | apply Grows_set_usd_lights | apply Grows_set_usd_cameras
    | apply Grows_set_exported | apply Grows_set_end_time_code
    | apply Grows_write
    | apply Grows_define ].

Ltac grows_chain :=
  repeat (eapply Grows_step; [solve [grows_prim]|]); try eassumption; try reflexivity.

Lemma _update_geoms_grows self0 self :
  Grows self0 self -> wp _update_geoms self (fun _ self' => Grows self0 self').
Proof.
  intros HG. unfold _update_geoms. wp_lines.
  apply (wp_for_each (Grows self0)); [done | | done].
  intros geom self' _ HG'.
  unfold _update_geom, _load_geom, USDObject_new, USDObject_update,
    USDObject_update_visibility.
  repeat wp_step; grows_chain.
Qed.

Lemma _load_lights_grows self0 self :
  Grows self0 self -> wp _load_lights self (fun _ self' => Grows self0 self').
Proof.
  intros HG. unfold _load_lights. wp_lines.
  apply (wp_for_range (fun _ => Grows self0)); [done | | done].
  intros i light self' _ HG'. unfold _load_light, USDSphereLight.
  repeat wp_step; grows_chain.
Qed.

Lemma _update_lights_grows self0 self :
  Grows self0 self -> wp _update_lights self (fun _ self' => Grows self0 self').
Proof.
  intros HG. unfold _update_lights. wp_lines.
  apply (wp_for_range (fun _ => Grows self0)); [done | | done].
  intros i light self' _ HG'. unfold _update_light, USDSphereLight_update.
  repeat wp_step; grows_chain.
Qed.

Lemma _load_cameras_grows self0 self :
  Grows self0 self -> wp _load_cameras self (fun _ self' => Grows self0 self').
Proof.
  intros HG. unfold _load_cameras. wp_lines. wp_step; [|by wp_lines].
  apply (wp_for_each (Grows self0)); [done | | done].
  intros name self' _ HG'. unfold USDCamera_new. wp_lines. grows_chain.
Qed.

Lemma _update_cameras_grows self0 self data scene_option :
  Grows self0 self ->
  wp (_update_cameras data scene_option) self (fun _ self' => Grows self0 self').
Proof.
  intros HG. unfold _update_cameras. wp_lines.
  apply (wp_for_range (fun _ => Grows self0)); [done | | done].
  intros i camera self' _ HG'. unfold USDCamera_update. wp_lines; grows_chain.
Qed.

Lemma update_scene_later_grows self data scene_option :
  updates self ≠ 0 ->
  wp (update_scene data scene_option) self (fun _ self' => Grows self self').
Proof.
  intros Hu. unfold update_scene, update_scene_steps. cbn [for_each].
  do 5 wp_line. unfold first_update_block. wp_lines.
  rewrite bool_decide_eq_false_2 by done. wp_lines.
  match goal with |- wp _ ?s _ => assert (Grows self s) as HG1 by grows_chain end.
  eapply wp_mono; [by apply _update_geoms_grows|].
  intros [[]|e] self3 HG3; [|done]. wp_line.
  eapply wp_mono; [by apply _update_lights_grows|].
  intros [[]|e] self4 HG4; [|done]. wp_line.
  eapply wp_mono; [by apply _update_cameras_grows|].
  intros [[]|e] self5 HG5; [|done]. wp_lines. grows_chain.
Qed.

Lemma update_scene_first_grows self data scene_option :
  updates self = 0 ->
  wp (update_scene data scene_option) self (fun _ self' =>
    forall id, is_Some (prims (stage self') !! id) -> (next_prim self <= id)%nat).
Proof.
  intros Hu. unfold update_scene, update_scene_steps. cbn [for_each].
  do 5 wp_line. unfold first_update_block. wp_lines.
  rewrite bool_decide_eq_true_2 by done. wp_line.
  apply wp_initialize_usd_stage. intros st _ Hprims. wp_line.
  match goal with |- wp _ ?s _ => set (self1 := s) end.
  assert (forall self', Grows self1 self' ->
    forall id, is_Some (prims (stage self') !! id) -> (next_prim self <= id)%nat) as Hend.
  { intros self' [_ _ Hnew] id Hid. destruct (Hnew _ Hid) as [H1|H1].
    - subst self1. simpl in H1. rewrite Hprims in H1.
      destruct H1 as [p [<- _]%lookup_singleton_Some]. done.
    - subst self1. simpl in H1. lia. }
  eapply wp_mono; [by apply (_load_lights_grows self1)|].
  intros [[]|e] self2 HG2; [|by apply Hend].
  eapply wp_mono; [by apply (_load_cameras_grows self1)|].
  intros [[]|e] self3 HG3; [|by apply Hend]. wp_line.
  eapply wp_mono; [by apply (_update_geoms_grows self1)|].
  intros [[]|e] self4 HG4; [|by apply Hend]. wp_line.
  eapply wp_mono; [by apply (_update_lights_grows self1)|].
  intros [[]|e] self5 HG5; [|by apply Hend]. wp_line.
  eapply wp_mono; [by apply (_update_cameras_grows self1)|].
  intros [[]|e] self6 HG6; [|by apply Hend]. wp_lines. apply Hend. grows_chain.
Qed.

Lemma save_scene_grows filetype self :
  wp (save_scene filetype) self (fun _ self' => Grows self self').
Proof.
  unfold save_scene. wp_lines; [|done].
  apply (wp_for_each (Grows self)).
  - grows_chain.
  - intros [name ref] self' _ HG'. unfold USDObject_update_visibility. wp_lines. grows_chain.
  - intros self' HG'. wp_lines. grows_chain.
Qed.

Lemma add_light_grows pos intensity radius color obj_name light_type self :
  wp (add_light pos intensity radius color obj_name light_type) self
    (fun _ self' => Grows self self').
Proof.
  unfold add_light, USDSphereLight, USDSphereLight_update, USDDomeLight, USDDomeLight_update.
  repeat wp_step; grows_chain.
Qed.

Lemma add_camera_grows pos rotation_xyz obj_name self :
  wp (add_camera pos rotation_xyz obj_name) self (fun _ self' => Grows self self').
Proof.
  unfold add_camera, USDCamera_new, USDCamera_update_flat, USDCamera_update.
  repeat wp_step; grows_chain.
Qed.

(** X12: the first call of [update_scene] starts the document anew. A prim
    that was on the stage before a call made with the update counter at 0 is
    not on the stage after it: [_initialize_usd_stage] replaces the stage that
    [__init__] had created, with all that [add_light] and [add_camera] have
    put on it since. *)
Theorem first_update_scene_replaces_stage (self : USDExporter) (data : MjData)
    (scene_option : option MjvOption) (id : nat) :
  updates self = 0 ->
  (id < next_prim self)%nat ->
  prims (stage (update_scene data scene_option self).2) !! id = None.
Proof.
  intros Hu Hid. pose proof (update_scene_first_grows self data scene_option Hu) as Hwp.
  unfold wp in Hwp. apply eq_None_not_Some. intros Hsome. apply Hwp in Hsome. lia.
Qed.

(** X13: but for that first call of [update_scene], no call takes a prim off
    the stage: a prim that is on the stage before [save_scene], [add_light],
    [add_camera], or a call of [update_scene] with a positive update counter,
    is on the stage after it, whether the call returns or raises. *)
Theorem prims_stay_after_first_update (c : Call) (self : USDExporter) (id : nat) :
  (forall data scene_option, c = Call_update_scene data scene_option -> updates self ≠ 0) ->
  is_Some (prims (stage self) !! id) ->
  is_Some (prims (stage (run_call c self).2) !! id).
Proof.
  intros Hc. assert (Grows self (run_call c self).2) as [_ Hkept _]; [|by apply Hkept].
  destruct c; simpl.
  - by eapply (update_scene_later_grows self), Hc.
  - apply save_scene_grows.
  - apply add_light_grows.
  - apply add_camera_grows.
Qed.

(** X14: a light added before the first call of [update_scene] is lost. On an
    exporter whose update counter is 0, [add_light] with the type [sphere] or
    [dome] puts its prim on the stage, and the call of [update_scene] that
    follows leaves a stage without it. *)
Theorem light_before_first_update_is_lost (pos : vec3) (intensity : Z)
    (radius : option float) (color : vec3) (obj_name light_type : string)
    (data : MjData) (scene_option : option MjvOption) (self : USDExporter) :
  updates self = 0 ->
  light_type = "sphere" \/ light_type = "dome" ->
  let self1 := (add_light pos intensity radius color obj_name light_type self).2 in
  (exists p, prims (stage self1) !! next_prim self = Some p /\ prim_name p = obj_name)
  /\ prims (stage (update_scene data scene_option self1).2) !! next_prim self = None.
Proof.
  intros Hu Hty self1.
  assert (updates self1 = updates self /\ next_prim self1 = S (next_prim self)
          /\ exists p, prims (stage self1) !! next_prim self = Some p /\ prim_name p = obj_name)
    as (Hu1 & Hn1 & Hp1).
  { subst self1. unfold add_light.
    destruct Hty as [-> | ->]; simpl; (split; [done|]; split; [done|]);
      rewrite !lookup_alter, lookup_insert; simpl; case_decide; try done;
      eexists; (split; [reflexivity|done]). }
  split; [done|].
  pose proof (update_scene_first_grows self1 data scene_option ltac:(congruence)) as Hwp.
  unfold wp in Hwp. apply eq_None_not_Some. intros Hsome. apply Hwp in Hsome. lia.
Qed.

(** ** Light and camera records over the calls *)

(** What the per-frame updates leave as it is: the lists of light and camera
    records, the arguments and the counters. *)
Definition same_records (self self' : USDExporter) : Prop :=
  usd_lights self' = usd_lights self /\ usd_cameras self' = usd_cameras self
  /\ args self' = args self /\ updates self' = updates self
  /\ frame_count self' = frame_count self.

Lemma _update_geoms_records self0 self :
  same_records self0 self -> wp _update_geoms self (fun _ self' => same_records self0 self').
Proof.
  intros HR. unfold _update_geoms. wp_lines.
  apply (wp_for_each (same_records self0)); [done | | done].
  intros geom self' _ HR'.
  unfold _update_geom, _load_geom, USDObject_new, USDObject_update,
    USDObject_update_visibility.
  repeat wp_step; exact HR'.
Qed.

Lemma _update_lights_records self0 self :
  same_records self0 self -> wp _update_lights self (fun _ self' => same_records self0 self').
Proof.
  intros HR. unfold _update_lights. wp_lines.
  apply (wp_for_range (fun _ => same_records self0)); [done | | done].
  intros i light self' _ HR'. unfold _update_light, USDSphereLight_update.
  repeat wp_step; exact HR'.
Qed.

(** How [_update_cameras] ends: it returns when every camera record has a
    name at its index; otherwise [self.camera_names[i]] raises, [TypeError]
    for [camera_names = None] and [IndexError] for a list that is too
    short. *)
Lemma _update_cameras_result self data scene_option :
  wp (_update_cameras data scene_option) self (fun r self' =>
    same_records self self'
    /\ match r with
       | Ok _ =>
           (length (usd_cameras self) <= length (default [] (camera_names (args self))))%nat
       | Raise e =>
           (length (default [] (camera_names (args self))) < length (usd_cameras self))%nat
           /\ e = match camera_names (args self) with
                  | None => TypeError
                  | Some _ => IndexError
                  end
       end).
Proof.
  unfold _update_cameras. wp_lines.
  apply (wp_for_range (fun i self' =>
    same_records self self'
    /\ (i <= length (default [] (camera_names (args self))))%nat)).
  - split; [done|]. lia.
  - intros i camera self' Hi [HR Hle]. cbn [Nat.add] in *.
    apply lookup_lt_Some in Hi. unfold USDCamera_update.
    destruct HR as (Hl & Hc & Ha & Hrest).
    wp_line. wp_line. wp_line. rewrite Ha.
    destruct (camera_names (args self)) as [names|] eqn:Hnames; simpl in *.
    + wp_lines.
      * split; [done|].
        match goal with H : _ !! i = Some _ |- _ => apply lookup_lt_Some in H end.
        simplify_eq. lia.
      * split; [done|]. split; [|done].
        match goal with H : _ !! i = None |- _ => apply lookup_ge_None in H end.
        simplify_eq. lia.
    + wp_lines. split; [done|]. split; [lia|done].
  - intros self' [HR Hle]. split; [done|]. done.
Qed.

(** The block of the first update appends one light slot per light of the
    snapshot and one camera record per camera name. *)
Lemma first_update_block_appends self :
  updates self = 0 ->
  wp first_update_block self (fun r self' =>
    r = Ok tt
    /\ args self' = args self /\ updates self' = updates self
    /\ frame_count self' = frame_count self
    /\ length (usd_lights self')
       = (length (usd_lights self) + MjvScene.nlight (scene self))%nat
    /\ length (usd_cameras self')
       = (length (usd_cameras self) + length (default [] (camera_names (args self))))%nat).
Proof.
  intros Hu. unfold first_update_block. wp_lines.
  rewrite bool_decide_eq_true_2 by done. wp_line.
  apply wp_initialize_usd_stage. intros st _ _. wp_line.
  unfold _load_lights. wp_lines. cbn [scene set_next_prim set_stage].
  apply (wp_for_range (fun i self' =>
    args self' = args self /\ updates self' = updates self
    /\ frame_count self' = frame_count self
    /\ usd_cameras self' = usd_cameras self
    /\ length (usd_lights self') = (length (usd_lights self) + i)%nat)).
  { simpl. repeat split; try done; lia. }
  { intros i light self' _ (Ha & Hup & Hf & Hc & Hlen). cbn [Nat.add] in *.
    unfold _load_light, USDSphereLight.
    repeat wp_step; simpl; rewrite ?length_app; simpl; repeat split; try done; lia. }
  intros self1 (Ha & Hup & Hf & Hc & Hlen). cbn [Nat.add] in *.
  unfold _load_cameras. wp_lines. rewrite Ha.
  destruct (camera_names (args self)) as [names|]; simpl.
  - assert (forall todo self2 k,
      args self2 = args self -> updates self2 = updates self ->
      frame_count self2 = frame_count self ->
      usd_lights self2 = usd_lights self1 ->
      length (usd_cameras self2) = k ->
      wp (for_each todo (fun name =>
            usd_camera ← USDCamera_new name;
            modify (fun self => set_usd_cameras (usd_cameras self ++ [usd_camera]) self)))
         self2 (fun r self' =>
           r = Ok tt /\ args self' = args self /\ updates self' = updates self
           /\ frame_count self' = frame_count self
           /\ usd_lights self' = usd_lights self1
           /\ length (usd_cameras self') = (k + length todo)%nat)) as Hloop.
    { induction todo as [|name todo IH]; intros self2 k Ha2 Hu2 Hf2 Hl2 Hk.
      - cbn [for_each]. wp_lines. simpl. repeat split; try done; try lia.
      - cbn [for_each]. unfold USDCamera_new. wp_lines.
        eapply wp_mono.
        { apply (IH _ (S k)); simpl; try done. rewrite length_app. simpl. lia. }
        intros r self3 (? & ? & ? & ? & ? & Hlen3). simpl.
        repeat split; try done; try lia. }
    eapply wp_mono; [apply (Hloop names self1 (length (usd_cameras self))); try done;
                     by rewrite Hc|].
    intros r self3 (-> & ? & ? & ? & Hl3 & Hc3). simpl.
    split; [done|]. split; [done|]. split; [done|]. split; [done|]. split; [|done].
    rewrite Hl3, Hlen. done.
  - wp_lines. simpl.
    split; [done|]. split; [done|]. split; [done|]. split; [done|]. split.
    + rewrite Hlen. done.
    + rewrite Hc. lia.
Qed.

Lemma update_scene_first_records self data scene_option :
  updates self = 0 ->
  wp (update_scene data scene_option) self (fun r self' =>
    args self' = args self
    /\ length (usd_lights self')
       = (length (usd_lights self)
          + MjvScene.nlight (snapshot self (data, scene_option)))%nat
    /\ length (usd_cameras self')
       = (length (usd_cameras self) + length (default [] (camera_names (args self))))%nat
    /\ match r with
       | Ok _ => updates self' = 1 /\ usd_cameras self = []
       | Raise _ => updates self' = 0
       end).
Proof.
  intros Hu. unfold update_scene, update_scene_steps. cbn [for_each].
  do 5 wp_line.
  eapply wp_mono; [by apply first_update_block_appends|].
  intros r self1 (-> & Ha1 & Hu1 & Hf1 & Hl1 & Hc1). simpl in *.
  assert (same_records self1 self1) as HR1 by done.
  assert (forall self', same_records self1 self' ->
    args self' = args self
    /\ length (usd_lights self')
       = (length (usd_lights self)
          + MjvScene.nlight (snapshot self (data, scene_option)))%nat
    /\ length (usd_cameras self')
       = (length (usd_cameras self) + length (default [] (camera_names (args self))))%nat
    /\ updates self' = 0) as Hend.
  { intros self' (Hl & Hc & Ha & Hup & _). rewrite Hl, Hc, Ha, Hup. unfold snapshot. simpl.
    repeat split; try done; try lia. }
  wp_line. eapply wp_mono; [by apply _update_geoms_records|].
  intros [[]|e] self2 HR2; [|by destruct (Hend _ HR2) as (? & ? & ? & ?)]. wp_line.
  eapply wp_mono; [by apply _update_lights_records|].
  intros [[]|e] self3 HR3; [|by destruct (Hend _ HR3) as (? & ? & ? & ?)]. wp_line.
  eapply wp_mono; [apply _update_cameras_result|].
  intros r self4 [HR4 Hr].
  assert (same_records self1 self4) as HR14.
  { destruct HR3 as (? & ? & ? & ? & ?), HR4 as (? & ? & ? & ? & ?).
    repeat split; congruence. }
  destruct (Hend _ HR14) as (Ha4 & Hl4 & Hc4 & Hu4).
  destruct r as [[]|e]; [|done]. wp_lines. simpl.
  split; [done|]. split; [done|]. split; [done|]. split; [lia|].
  destruct HR3 as (_ & Hc3 & Ha3 & _). rewrite Hc3, Ha3, Ha1 in Hr.
  apply length_zero_iff_nil. lia.
Qed.

Lemma update_scene_later_records self data scene_option :
  updates self ≠ 0 ->
  wp (update_scene data scene_option) self (fun _ self' =>
    usd_lights self' = usd_lights self /\ usd_cameras self' = usd_cameras self).
Proof.
  intros Hu. unfold update_scene, update_scene_steps. cbn [for_each].
  do 5 wp_line. unfold first_update_block. wp_lines.
  rewrite bool_decide_eq_false_2 by done. wp_lines.
  match goal with |- wp _ ?s _ => set (self1 := s) end.
  assert (same_records self1 self1) as HR1 by done.
  assert (forall self', same_records self1 self' ->
    usd_lights self' = usd_lights self /\ usd_cameras self' = usd_cameras self) as Hend.
  { by intros self' (-> & -> & _). }
  eapply wp_mono; [by apply _update_geoms_records|].
  intros [[]|e] self2 HR2; [|by apply Hend]. wp_line.
  eapply wp_mono; [by apply _update_lights_records|].
  intros [[]|e] self3 HR3; [|by apply Hend]. wp_line.
  eapply wp_mono; [apply _update_cameras_result|].
  intros r self4 [HR4 _].
  assert (same_records self1 self4) as HR14.
  { destruct HR3 as (? & ? & ? & ? & ?), HR4 as (? & ? & ? & ? & ?).
    repeat split; congruence. }
  destruct r as [[]|e]; [|by apply Hend]. wp_lines. exact (Hend self4 HR14).
Qed.

(** X15: [_update_cameras] returns exactly when every camera record has a
    camera name at its index. With more records than names the subscript
    [self.camera_names[i]] raises: [IndexError] when there is a list of
    names, [TypeError] when [camera_names] is [None]. In both cases only the
    stage and the renderer's scene can have changed. *)
Theorem _update_cameras_subscripts (self : USDExporter) (data : MjData)
    (scene_option : MjvOption) :
  let n := length (default [] (camera_names (args self))) in
  let r := _update_cameras data scene_option self in
  ((length (usd_cameras self) <= n)%nat <-> r.1 = Ok tt)
  /\ ((n < length (usd_cameras self))%nat ->
      r.1 = Raise (match camera_names (args self) with
                   | None => TypeError
                   | Some _ => IndexError
                   end))
  /\ usd_cameras r.2 = usd_cameras self /\ usd_lights r.2 = usd_lights self
  /\ updates r.2 = updates self.
Proof.
  intros n r. pose proof (_update_cameras_result self data scene_option) as Hwp.
  unfold wp in Hwp. fold r n in Hwp. destruct Hwp as [(Hl & Hc & _ & Hu & _) Hr].
  destruct r.1 as [[]|e].
  - split; [done|]. split; [lia|done].
  - destruct Hr as [Hlt ->]. split; [split; [lia|done]|]. done.
Qed.

(** X16: the block of the first update runs in every call made while the
    update counter is 0, and appends each time: such a call adds one light
    slot per light of its snapshot and one camera record per camera name,
    whether it returns or raises. A call made with another update counter
    leaves both lists as they are. *)
Theorem first_block_appends_records (self : USDExporter) (data : MjData)
    (scene_option : option MjvOption) :
  let self' := (update_scene data scene_option self).2 in
  (updates self = 0 ->
     length (usd_lights self')
     = (length (usd_lights self) + MjvScene.nlight (snapshot self (data, scene_option)))%nat
     /\ length (usd_cameras self')
        = (length (usd_cameras self) + length (default [] (camera_names (args self))))%nat)
  /\ (updates self ≠ 0 ->
      usd_lights self' = usd_lights self /\ usd_cameras self' = usd_cameras self).
Proof.
  intros self'. split; intros Hu.
  - pose proof (update_scene_first_records self data scene_option Hu) as Hwp.
    unfold wp in Hwp. fold self' in Hwp. by destruct Hwp as (_ & ? & ? & _).
  - apply (update_scene_later_records self data scene_option Hu).
Qed.

(** An exporter that is left with camera records and the update counter
    at 0. *)
Definition stuck (self : USDExporter) : Prop :=
  updates self = 0 /\ usd_cameras self ≠ [].

Lemma stuck_update_scene self data scene_option :
  stuck self ->
  (update_scene data scene_option self).1 ≠ Ok tt
  /\ stuck (update_scene data scene_option self).2.
Proof.
  intros [Hu Hc]. pose proof (update_scene_first_records self data scene_option Hu) as Hwp.
  unfold wp in Hwp. destruct Hwp as (_ & _ & Hlen & Hr).
  destruct (update_scene data scene_option self) as [[[]|e] self']; simpl in *.
  - by destruct Hr.
  - split; [done|]. split; [done|]. intros Hnil. rewrite Hnil in Hlen. simpl in Hlen.
    destruct (usd_cameras self); [done|simpl in Hlen; lia].
Qed.

(** X17: with camera names, an exporter does not recover from a first call of
    [update_scene] that raised. The update counter is still 0, so every
    later call runs the block of the first update again and appends camera
    records once more; [_update_cameras] then finds more records than names.
    Every later call of [update_scene] raises, whatever its frame, and the
    update counter stays at 0. *)
Theorem no_recovery_after_failed_first_frame (a : ExporterArgs) (self0 : USDExporter)
    (frame : MjData * option MjvOption) (frames : list (MjData * option MjvOption))
    (data : MjData) (scene_option : option MjvOption) :
  __init__ a = Ok self0 ->
  default [] (camera_names a) ≠ [] ->
  (update_scene frame.1 frame.2 self0).1 ≠ Ok tt ->
  let self := after_calls (update_calls (frame :: frames)) self0 in
  (update_scene data scene_option self).1 ≠ Ok tt /\ updates self = 0.
Proof.
  intros Hinit Hnames Hfail self. apply __init___fresh in Hinit.
  destruct Hinit as [Ha _ Hu _ _ _ Hc _ _ _].
  assert (stuck (update_scene frame.1 frame.2 self0).2) as Hstuck.
  { pose proof (update_scene_first_records self0 frame.1 frame.2 Hu) as Hwp.
    unfold wp in Hwp. destruct Hwp as (_ & _ & Hlen & Hr).
    destruct (update_scene frame.1 frame.2 self0) as [[[]|e] self1]; simpl in *; [done|].
    split; [done|]. intros Hnil. rewrite Hnil, Hc, Ha in Hlen. simpl in Hlen.
    destruct (default [] (camera_names a)); [done|simpl in Hlen; lia]. }
  assert (forall frames self1, stuck self1 -> stuck (after_calls (update_calls frames) self1))
    as Hall.
  { clear. induction frames as [|[d o] frames IH]; intros self1 Hs; [done|].
    simpl. apply IH. by apply stuck_update_scene. }
  assert (stuck self) as Hs by exact (Hall frames _ Hstuck).
  split; [by apply stuck_update_scene | by destruct Hs].
Qed.

(** ** User cameras, light records, repeated export *)

(** X18: [add_camera] creates one camera prim under a new identity on the
    stage, named [obj_name], whatever comes of its update; every other prim
    is as before. The camera is not entered into [usd_cameras], so no call of
    [update_scene] updates it, and the other records and the counters are
    unchanged. The update is called with the flat array [R] of 9 entries.
    When [USDCamera.update] takes that array for a rotation, [add_camera]
    returns and the transform of the prim has the single time sample 0; when
    it raises, [add_camera] raises the same exception and the prim is left
    on the stage without a time sample. *)
Theorem add_camera_adds_one_prim (pos rotation_xyz : vec3) (obj_name : string)
    (self : USDExporter) :
  let r := add_camera pos rotation_xyz obj_name self in
  let R := mju_quat2Mat (mju_euler2Quat rotation_xyz "xyz") in
  usd_cameras r.2 = usd_cameras self /\ usd_lights r.2 = usd_lights self
  /\ geom_refs r.2 = geom_refs self
  /\ frame_count r.2 = frame_count self /\ updates r.2 = updates self
  /\ next_prim r.2 = S (next_prim self)
  /\ (exists p, prims (stage r.2) !! next_prim self = Some p
        /\ prim_name p = obj_name /\ prim_source p = SrcCamera)
  /\ (forall id, id ≠ next_prim self -> prims (stage r.2) !! id = prims (stage self) !! id)
  /\ match flat_cam_mat R with
     | Ok m =>
         r.1 = Ok tt
         /\ samples_of (stage r.2) (next_prim self) "xformOp:transform"
            = {[ 0 := VPose pos m ]}
     | Raise e =>
         r.1 = Raise e
         /\ forall name, samples_of (stage r.2) (next_prim self) name = ∅
     end.
Proof.
  intros r R. subst r. unfold add_camera, USDCamera_update_flat. fold R.
  destruct (flat_cam_mat R) as [m|e]; simpl.
  - split; [done|]. split; [done|]. split; [done|]. split; [done|]. split; [done|].
    split; [done|]. split; [|split; [|split; [done|]]].
    + rewrite lookup_alter, lookup_insert. rewrite decide_True by done. simpl.
      rewrite decide_True by done. by eexists.
    + intros id Hid. rewrite lookup_alter. case_decide; [congruence|].
      rewrite lookup_insert. case_decide; [congruence|done].
    + unfold samples_of. simpl. rewrite lookup_alter, lookup_insert.
      rewrite decide_True by done. simpl. rewrite decide_True by done. simpl.
      rewrite prim_attr_Prim_Set, decide_True by done. simpl.
      unfold prim_attr. simpl. rewrite lookup_empty. simpl. by rewrite insert_empty.
  - split; [done|]. split; [done|]. split; [done|]. split; [done|]. split; [done|].
    split; [done|]. split; [|split; [|split; [done|]]].
    + rewrite lookup_insert. rewrite decide_True by done. by eexists.
    + intros id Hid. rewrite lookup_insert. case_decide; [congruence|done].
    + intros name. unfold samples_of. simpl. rewrite lookup_insert.
      rewrite decide_True by done. unfold prim_attr. simpl. by rewrite lookup_empty.
Qed.

(** X19: [_load_lights] fills [usd_lights] with one slot per light of the
    scene, in the order of the light indices. The slot of a light at the
    origin is the placeholder [None]; the slot of any other light is a record
    whose sphere-light prim on the stage is named after the index of the
    light. *)
Theorem _load_lights_one_slot_per_light (self : USDExporter) (i : nat) (light : MjvLight.t) :
  usd_lights self = [] ->
  MjvScene.lights (scene self) !! i = Some light ->
  let self' := (_load_lights self).2 in
  (_load_lights self).1 = Ok tt
  /\ length (usd_lights self') = MjvScene.nlight (scene self)
  /\ (allclose_origin (MjvLight.pos light) = true -> usd_lights self' !! i = Some None)
  /\ (allclose_origin (MjvLight.pos light) = false ->
      exists l p, usd_lights self' !! i = Some (Some l)
        /\ prims (stage self') !! light_prim l = Some p
        /\ prim_name p = pretty i /\ prim_source p = SrcSphereLight None).
Proof.
  intros Hnil Hi self'.
  set (L := MjvScene.lights (scene self)) in *.
  assert (wp _load_lights self (fun r self' =>
    r = Ok tt /\ length (usd_lights self') = length L
    /\ forall j lj, L !! j = Some lj ->
         (allclose_origin (MjvLight.pos lj) = true -> usd_lights self' !! j = Some None)
         /\ (allclose_origin (MjvLight.pos lj) = false ->
             exists l p, usd_lights self' !! j = Some (Some l)
               /\ (light_prim l < next_prim self')%nat
               /\ prims (stage self') !! light_prim l = Some p
               /\ prim_name p = pretty j /\ prim_source p = SrcSphereLight None))) as Hwp.
  { unfold _load_lights. wp_lines. fold L.
    apply (wp_for_range (fun n self' =>
      length (usd_lights self') = n
      /\ forall j lj, (j < n)%nat -> L !! j = Some lj ->
           (allclose_origin (MjvLight.pos lj) = true -> usd_lights self' !! j = Some None)
           /\ (allclose_origin (MjvLight.pos lj) = false ->
               exists l p, usd_lights self' !! j = Some (Some l)
                 /\ (light_prim l < next_prim self')%nat
                 /\ prims (stage self') !! light_prim l = Some p
                 /\ prim_name p = pretty j /\ prim_source p = SrcSphereLight None))).
    - split; [by rewrite Hnil|]. intros; lia.
    - intros n ln s Hn [Hlen Hslots]. cbn [Nat.add] in *.
      unfold _load_light, USDSphereLight.
      destruct (allclose_origin (MjvLight.pos ln)) eqn:Hclose; cbn [negb]; wp_lines;
        simpl; (split; [rewrite length_app, Hlen; simpl; lia|]);
        intros j lj Hj Hlj; destruct (decide (j = n)) as [->|Hne].
      + rewrite Hlj in Hn. injection Hn as ->. split; [|congruence].
        intros _. rewrite lookup_app_r by lia. by rewrite Hlen, Nat.sub_diag.
      + rewrite lookup_app_l by lia. apply Hslots; [lia|done].
      + rewrite Hlj in Hn. injection Hn as ->. split; [congruence|].
        intros _. eexists _, _. rewrite lookup_app_r by lia. rewrite Hlen, Nat.sub_diag.
        split; [reflexivity|]. simpl. split; [lia|]. rewrite lookup_insert_eq. done.
      + rewrite lookup_app_l by lia.
        destruct (Hslots j lj ltac:(lia) Hlj) as [Ho Hr]. split; [done|].
        intros Hc. destruct (Hr Hc) as (l & p & ? & Hlt & Hp & ? & ?).
        exists l, p. split; [done|]. split; [lia|].
        rewrite lookup_insert_ne by lia. done.
    - intros s [Hlen Hslots]. cbn [Nat.add] in *. split; [done|]. split; [done|].
      intros j lj Hlj. apply Hslots; [|done]. by eapply lookup_lt_Some. }
  unfold wp in Hwp. fold self' in Hwp. destruct Hwp as (Hr & Hlen & Hslots).
  split; [done|]. split; [done|]. destruct (Hslots i light Hi) as [Ho Hrec].
  split; [done|]. intros Hc. destruct (Hrec Hc) as (l & p & ? & _ & ? & ? & ?). by exists l, p.
Qed.

(** X20: a second [save_scene] adds nothing to the records. After a session
    of calls that did not raise, saving twice leaves every record with the
    visibility samples it has after the first save, sets the same end time
    code, and goes to the same file when the filetype is the same. *)
Theorem save_scene_twice_same_visibility (a : ExporterArgs) (self0 self : USDExporter)
    (frames : list (MjData * option MjvOption)) (filetype1 filetype2 name : string)
    (ref : USDObject) :
  __init__ a = Ok self0 ->
  Forall (frame_loadable self0) frames ->
  update_scenes frames self0 = (Ok tt, self) ->
  filetype1 ∈ ["usd"; "usda"; "usdc"] ->
  filetype2 ∈ ["usd"; "usda"; "usdc"] ->
  geom_refs self !! name = Some ref ->
  let self1 := (save_scene filetype1 self).2 in
  let self2 := (save_scene filetype2 self1).2 in
  samples_of (stage self2) (obj_prim ref) "visibility"
  = samples_of (stage self1) (obj_prim ref) "visibility"
  /\ end_time_code (stage self2) = end_time_code (stage self1)
  /\ frame_path self1 filetype2 = frame_path self filetype2.
Proof.
  intros Hinit Hload Hrun Hft1 Hft2 Href self1 self2. apply __init___fresh in Hinit.
  destruct (update_scenes_visibility frames self0 (Fresh_Boundary _ _ Hinit) Hload)
    as (self' & Hrun1 & [HA _ _ _] & _).
  rewrite Hrun in Hrun1. injection Hrun1 as <-.
  pose proof (save_scene_visibility filetype1 self HA) as Hvis1.
  pose proof (save_scene_run filetype1 self Hft1) as Hsaved1.
  pose proof (save_scene_grows filetype1 self) as [_ Hkept1 _].
  unfold wp in Hvis1, Hsaved1. fold self1 in Hvis1, Hsaved1, Hkept1.
  destruct Hsaved1 as [Hr1 (Ha1 & Hf1 & Hu1 & Hn1 & Hrefs1 & _ & _ & Hnext1 & _ & Hend1 & _)].
  assert (Alias self1) as HA1.
  { destruct HA as [Hc Hlive Hinj]. split.
    - unfold Consistent in *. congruence.
    - intros n r. rewrite Hrefs1, Hnext1. intros Hn.
      destruct (Hlive _ _ Hn). split; [done|]. by apply Hkept1.
    - intros n1 n2 r1 r2. rewrite Hrefs1. apply Hinj. }
  pose proof (save_scene_visibility filetype2 self1 HA1) as Hvis2.
  pose proof (save_scene_run filetype2 self1 Hft2) as Hsaved2.
  unfold wp in Hvis2, Hsaved2. fold self2 in Hvis2, Hsaved2.
  destruct Hsaved2 as [Hr2 (_ & _ & _ & _ & _ & _ & _ & _ & _ & Hend2 & _)].
  split; [|split].
  - fold (vis_of self2 (obj_prim ref)). fold (vis_of self1 (obj_prim ref)).
    rewrite (Hvis2 Hr2 name ref) by (by rewrite Hrefs1).
    rewrite (Hvis1 Hr1 name ref Href). by rewrite insert_insert_eq.
  - by rewrite Hend1, Hend2, Hf1.
  - unfold frame_path. by rewrite Ha1, Hf1.
Qed.

(** ** Time samples and the time range *)

(** Every time sample of the stage lies between 0 and [b], but for a sample
    at the frame after [initial_last_visible_frame], where [save_scene]
    closes the visibility of a record that was never visible. *)
Definition samples_within (b : Z) (st : Stage) : Prop :=
  forall id name k, k ∈ dom (samples_of st id name) ->
    0 <= k <= b \/ k = initial_last_visible_frame + 1.

(** [InCall u b self]: inside a call of [update_scene] that was entered with
    the update counter [u] and has set the frame counter to [b]: the time
    samples lie within [b], and no record was last visible after frame
    [u]. *)
Record InCall (u b : Z) (self : USDExporter) : Prop := {
  ic_updates : updates self = u;
  ic_frame_count : frame_count self = b;
  ic_samples : samples_within b (stage self);
  ic_lvf : forall n ref,
    geom_refs self !! n = Some ref ->
    last_visible_frame ref = initial_last_visible_frame
    \/ 0 <= last_visible_frame ref <= u;
}.

Lemma samples_within_write b st id name v t :
  0 <= t <= b \/ t = initial_last_visible_frame + 1 -> samples_within b st ->
  samples_within b (Stage_with_prims (alter (Prim_Set name v (Some t)) id) st).
Proof.
  intros Ht Hst id' name' k. rewrite samples_of_write. case_decide; [|apply Hst].
  rewrite dom_insert_L. intros [->%elem_of_singleton|Hk]%elem_of_union; [done|].
  by eapply Hst.
Qed.

Lemma samples_within_write_default b st id name v :
  samples_within b st ->
  samples_within b (Stage_with_prims (alter (Prim_Set name v None) id) st).
Proof. intros Hst id' name' k. rewrite samples_of_write. case_decide; apply Hst. Qed.

Lemma samples_within_define b st id p :
  prim_attrs p = ∅ -> samples_within b st ->
  samples_within b (Stage_with_prims <[id := p]> st).
Proof.
  intros Hp Hst id' name' k. rewrite samples_of_define by done.
  case_decide; [set_solver|apply Hst].
Qed.

Lemma samples_within_mono b b' st : b <= b' -> samples_within b st -> samples_within b' st.
Proof. intros Hb Hst id name k Hk. destruct (Hst _ _ _ Hk); [left; lia | by right]. Qed.

Ltac fields :=
  cbn [args frame_count updates geom_names geom_refs usd_lights usd_cameras scene stage
       texture_files next_prim exported
       set_frame_count set_updates set_geom_names set_geom_refs set_usd_lights
       set_usd_cameras set_scene set_stage set_next_prim set_exported set_texture_files
       obj_prim last_visible_frame light_prim camera_prim] in *.

Ltac samples_chain H :=
  repeat first
    [ apply samples_within_write; [left; lia|]
    | apply samples_within_write_default
    | apply samples_within_define; [reflexivity|] ];
  exact H.

Lemma _update_geom_in_call u b self geom :
  0 <= u <= b ->
  InCall u b self -> wp (_update_geom geom) self (fun _ self' => InCall u b self').
Proof.
  intros Hu [Hup Hfc Hsam Hlvf]. unfold _update_geom, _load_geom, USDObject_new,
    USDObject_update, USDObject_update_visibility.
  repeat wp_step; (split; fields;
    [ exact Hup
    | exact Hfc
    | rewrite ?Hup; samples_chain Hsam
    | intros n ref Hn; rewrite ?Hup;
      destruct (decide (n = _get_geom_name self geom)) as [->|Hne]; simplify_map_eq; fields;
      repeat case_match; try (by left); try (right; lia); try (by eapply Hlvf) ]).
Qed.

Lemma _update_geoms_in_call u b self :
  0 <= u <= b ->
  InCall u b self -> wp _update_geoms self (fun _ self' => InCall u b self').
Proof.
  intros Hu HI. unfold _update_geoms. wp_lines.
  apply (wp_for_each (InCall u b)); [done | | done].
  intros geom self' _ HI'. eapply wp_mono; [by apply _update_geom_in_call|]. by intros [|].
Qed.

(** The steps that leave the records as they are. *)
Ltac in_call_frame Hup Hfc Hsam Hlvf :=
  split; fields; [exact Hup | exact Hfc | rewrite ?Hup; samples_chain Hsam | exact Hlvf].

Lemma _load_lights_in_call u b self :
  InCall u b self -> wp _load_lights self (fun _ self' => InCall u b self').
Proof.
  intros HI. unfold _load_lights. wp_lines.
  apply (wp_for_range (fun _ => InCall u b)); [done | | done].
  intros i light self' _ [Hup Hfc Hsam Hlvf]. unfold _load_light, USDSphereLight.
  repeat wp_step; in_call_frame Hup Hfc Hsam Hlvf.
Qed.

Lemma _update_lights_in_call u b self :
  0 <= u <= b ->
  InCall u b self -> wp _update_lights self (fun _ self' => InCall u b self').
Proof.
  intros Hu HI. unfold _update_lights. wp_lines.
  apply (wp_for_range (fun _ => InCall u b)); [done | | done].
  intros i light self' _ [Hup Hfc Hsam Hlvf]. unfold _update_light, USDSphereLight_update.
  repeat wp_step; in_call_frame Hup Hfc Hsam Hlvf.
Qed.

Lemma _load_cameras_in_call u b self :
  InCall u b self -> wp _load_cameras self (fun _ self' => InCall u b self').
Proof.
  intros HI. unfold _load_cameras. wp_lines. wp_step; [|by wp_lines].
  apply (wp_for_each (InCall u b)); [done | | done].
  intros name self' _ [Hup Hfc Hsam Hlvf]. unfold USDCamera_new.
  wp_lines. in_call_frame Hup Hfc Hsam Hlvf.
Qed.

Lemma _update_cameras_in_call u b self data scene_option :
  0 <= u <= b ->
  InCall u b self ->
  wp (_update_cameras data scene_option) self (fun _ self' => InCall u b self').
Proof.
  intros Hu HI. unfold _update_cameras. wp_lines.
  apply (wp_for_range (fun _ => InCall u b)); [done | | done].
  intros i camera self' _ [Hup Hfc Hsam Hlvf]. unfold USDCamera_update.
  wp_lines; in_call_frame Hup Hfc Hsam Hlvf.
Qed.

Lemma first_update_block_in_call u b self :
  InCall u b self -> wp first_update_block self (fun _ self' => InCall u b self').
Proof.
  intros [Hup Hfc Hsam Hlvf]. unfold first_update_block. wp_lines.
  case_bool_decide; [|by wp_lines]. wp_line.
  apply wp_initialize_usd_stage. intros st _ Hprims. wp_line.
  match goal with |- wp _ ?s _ => assert (InCall u b s) as HI1 end.
  { split; fields; [done | done | | done].
    intros id name k. unfold samples_of. rewrite Hprims.
    destruct (decide (id = next_prim self)) as [->|Hne].
    - rewrite lookup_singleton_eq. unfold prim_attr. simpl. rewrite lookup_empty. simpl.
      set_solver.
    - rewrite lookup_singleton_ne by done. set_solver. }
  eapply wp_mono; [by apply _load_lights_in_call|].
  intros [[]|e] self2 HI2; [|done]. by apply _load_cameras_in_call.
Qed.

(** [Timed self]: between two calls, the update counter is not ahead of the
    frame counter, the time samples lie within the frame counter, and every
    record was last visible in a frame that both counters have passed. *)
Record Timed (self : USDExporter) : Prop := {
  tm_counters : 0 <= updates self <= frame_count self;
  tm_samples : samples_within (frame_count self) (stage self);
  tm_lvf : forall n ref,
    geom_refs self !! n = Some ref ->
    last_visible_frame ref = initial_last_visible_frame
    \/ (0 <= last_visible_frame ref <= updates self
        /\ last_visible_frame ref < frame_count self);
}.

Lemma InCall_Timed u b self : 0 <= u < b -> InCall u b self -> Timed self.
Proof.
  intros Hu [Hup Hfc Hsam Hlvf]. split.
  - lia.
  - by rewrite Hfc.
  - intros n ref Hn. destruct (Hlvf _ _ Hn); [by left | right; lia].
Qed.

Lemma update_scene_timed self data scene_option :
  Timed self -> wp (update_scene data scene_option) self (fun _ self' => Timed self').
Proof.
  intros [Hc Hsam Hlvf]. unfold update_scene, update_scene_steps. cbn [for_each].
  do 5 wp_line.
  match goal with |- wp _ ?s _ =>
    assert (InCall (updates self) (frame_count self + 1) s) as HI1 end.
  { split; fields; [done | done | | ].
    - eapply samples_within_mono; [|exact Hsam]. lia.
    - intros n ref Hn. destruct (Hlvf _ _ Hn); [by left | right; lia]. }
  assert (0 <= updates self <= frame_count self + 1) as Hu by lia.
  assert (forall s, InCall (updates self) (frame_count self + 1) s -> Timed s) as Hend.
  { intros s. apply InCall_Timed. lia. }
  eapply wp_mono; [by apply first_update_block_in_call|].
  intros [[]|e] self2 HI2; [|by apply Hend]. wp_line.
  eapply wp_mono; [by apply _update_geoms_in_call|].
  intros [[]|e] self3 HI3; [|by apply Hend]. wp_line.
  eapply wp_mono; [by apply _update_lights_in_call|].
  intros [[]|e] self4 HI4; [|by apply Hend]. wp_line.
  eapply wp_mono; [by apply _update_cameras_in_call|].
  intros [[]|e] self5 [Hup Hfc Hsam5 Hlvf5]; [|by apply Hend]. wp_lines.
  split; fields.
  - lia.
  - by rewrite Hfc.
  - intros n ref Hn. destruct (Hlvf5 _ _ Hn); [by left | right; lia].
Qed.

Lemma save_scene_timed filetype self :
  Timed self -> wp (save_scene filetype) self (fun _ self' => Timed self').
Proof.
  intros HT. unfold save_scene. wp_lines; [|done].
  destruct HT as [Hc Hsam Hlvf].
  apply (wp_for_each (fun s =>
    updates s = updates self /\ frame_count s = frame_count self
    /\ geom_refs s = geom_refs self /\ samples_within (frame_count self) (stage s))).
  - done.
  - intros [name ref] s Hin%elem_of_map_to_list (Hup & Hfc & Hrefs & Hs).
    fields. unfold USDObject_update_visibility. wp_lines. fields.
    split; [done|]. split; [done|]. split; [done|].
    apply samples_within_write; [|done].
    destruct (Hlvf _ _ Hin) as [->|?]; [by right | left; lia].
  - intros s (Hup & Hfc & Hrefs & Hs). wp_lines. split; fields.
    + by rewrite Hup, Hfc.
    + by rewrite Hfc.
    + rewrite Hrefs, Hup, Hfc. exact Hlvf.
Qed.

Lemma add_light_timed pos intensity radius color obj_name light_type self :
  Timed self ->
  wp (add_light pos intensity radius color obj_name light_type) self
    (fun _ self' => Timed self').
Proof.
  intros [Hc Hsam Hlvf].
  unfold add_light, USDSphereLight, USDSphereLight_update, USDDomeLight, USDDomeLight_update.
  repeat wp_step; (split; fields; [done | samples_chain Hsam | done]).
Qed.

Lemma add_camera_timed pos rotation_xyz obj_name self :
  Timed self ->
  wp (add_camera pos rotation_xyz obj_name) self (fun _ self' => Timed self').
Proof.
  intros [Hc Hsam Hlvf].
  unfold add_camera, USDCamera_new, USDCamera_update_flat, USDCamera_update.
  repeat wp_step; (split; fields; [done | samples_chain Hsam | done]).
Qed.

Lemma after_calls_timed calls : forall self, Timed self -> Timed (after_calls calls self).
Proof.
  induction calls as [|c calls IH]; intros self HT; [done|].
  simpl. apply IH. destruct c; simpl.
  - by apply (update_scene_timed self).
  - by apply (save_scene_timed filetype self).
  - by apply (add_light_timed pos intensity radius color obj_name light_type self).
  - by apply (add_camera_timed pos rotation_xyz obj_name self).
Qed.

Lemma __init___timed a self : __init__ a = Ok self -> Timed self.
Proof.
  intros Hinit. pose proof (__init___fresh _ _ Hinit) as [_ Hf Hu _ Hrefs _ _ _ _ _].
  split.
  - lia.
  - revert Hinit. unfold __init__. do 2 (case_bool_decide; [done|]).
    destruct (_initialize_usd_stage_run (new_exporter a)) as (st & Hrun & _ & _ & Hprims).
    unfold mbind, M_bind. rewrite Hrun.
    unfold _load_textures, mbind, M_bind. simpl.
    pose proof (_load_textures_loop_frame (MjModel.textures (model a)) 0%nat 0
      (set_texture_files [] (set_next_prim 1 (set_stage st (new_exporter a))))) as Hfr.
    unfold wp in Hfr. simpl in Hfr.
    destruct (_load_textures_loop _ _ _ _) as [[[]|e] self']; simpl in *; [|done].
    intros [= ->]. destruct Hfr as (_ & _ & _ & _ & _ & _ & _ & Hst & _).
    intros id name k. unfold samples_of. rewrite Hst, Hprims.
    destruct (decide (id = 0%nat)) as [->|Hne].
    + rewrite lookup_singleton_eq. unfold prim_attr. simpl. rewrite lookup_empty. simpl.
      set_solver.
    + rewrite lookup_singleton_ne by done. set_solver.
  - intros n ref. by rewrite Hrefs, lookup_empty.
Qed.

(** X21: the time samples of a document lie in its time range. After any
    series of calls on a new exporter, raising or not, every time sample of
    every attribute on the stage that [save_scene] writes lies between the
    start time code 0 and the end time code, which is the frame counter. The
    one exception is the sample with which [save_scene] closes the
    visibility of a record that was never visible, which lies at the frame
    after the initial [last_visible_frame]. *)
Theorem samples_within_time_range (a : ExporterArgs) (self0 : USDExporter)
    (calls : list Call) (filetype : string) :
  __init__ a = Ok self0 ->
  filetype ∈ ["usd"; "usda"; "usdc"] ->
  let self' := (save_scene filetype (after_calls calls self0)).2 in
  end_time_code (stage self') = Some (frame_count self')
  /\ forall id name k,
       k ∈ dom (samples_of (stage self') id name) ->
       0 <= k <= frame_count self' \/ k = initial_last_visible_frame + 1.
Proof.
  intros Hinit Hft self'.
  pose proof (after_calls_timed calls self0 (__init___timed _ _ Hinit)) as HT.
  pose proof (save_scene_timed filetype _ HT) as [_ Hsam _].
  pose proof (save_scene_run filetype (after_calls calls self0) Hft) as Hsaved.
  unfold wp in Hsaved. fold self' in Hsam, Hsaved.
  destruct Hsaved as [_ (_ & Hf & _ & _ & _ & _ & _ & _ & _ & Hend & _)].
  split; [by rewrite Hend, Hf | exact Hsam].
Qed.
(** * Sessions in which calls raise *)

(** ** The block of the first update over any session *)

(** The number of the calls of [update_scene] that return, when one call is
    made for each frame of a list, whether or not the call before it
    raised. *)
Fixpoint calls_returned (frames : list (MjData * option MjvOption)) (self : USDExporter) : nat :=
  match frames with
  | [] => 0
  | frame :: frames =>
      let r := update_scene frame.1 frame.2 self in
      (match r.1 with Ok _ => 1 | Raise _ => 0 end + calls_returned frames r.2)%nat
  end.

(** The update counter counts the calls that returned. *)
Lemma after_update_calls_updates frames : forall self,
  Consistent self ->
  updates (after_calls (update_calls frames) self)
  = updates self + Z.of_nat (calls_returned frames self).
Proof.
  induction frames as [|[data scene_option] frames IH]; intros self Hc.
  - simpl. lia.
  - pose proof (update_scene_run self data scene_option Hc) as Hrun. unfold wp in Hrun.
    destruct (update_scene_ends_counters _ _ _ Hrun) as [_ Hu].
    destruct (update_scene_ends_Evolves _ _ _ Hrun) as [Hc1 _].
    change (after_calls (update_calls ((data, scene_option) :: frames)) self)
      with (after_calls (update_calls frames) (update_scene data scene_option self).2).
    rewrite (IH _ Hc1). cbn [calls_returned fst snd].
    destruct (update_scene data scene_option self).1; rewrite Hu; lia.
Qed.

Lemma calls_returned_le frames : forall self,
  (calls_returned frames self <= length frames)%nat.
Proof.
  induction frames as [|[data scene_option] frames IH]; intros self; [done|].
  cbn [calls_returned length fst snd]. specialize (IH (update_scene data scene_option self).2).
  destruct (update_scene data scene_option self).1; lia.
Qed.

(** A loop of calls that ends without an exception is a session whose calls
    all returned. *)
Lemma update_scenes_all_returned frames : forall self self',
  update_scenes frames self = (Ok tt, self') ->
  calls_returned frames self = length frames
  /\ after_calls (update_calls frames) self = self'.
Proof.
  induction frames as [|[data scene_option] frames IH]; intros self self' Hrun.
  - by injection Hrun as <-.
  - unfold update_scenes in Hrun. cbn [for_each fst snd] in Hrun.
    unfold mbind, M_bind in Hrun.
    change (after_calls (update_calls ((data, scene_option) :: frames)) self)
      with (after_calls (update_calls frames) (update_scene data scene_option self).2).
    cbn [calls_returned length fst snd].
    destruct (update_scene data scene_option self) as [[[]|e] self1]; [|done].
    destruct (IH _ _ Hrun) as [Hn Ha]. cbn [fst snd]. by rewrite Hn, Ha.
Qed.

Lemma wp_for_each_from {A} (I : nat -> USDExporter -> Prop) (l : list A) body start self Q :
  I start self ->
  (forall i x self, l !! i = Some x -> I (start + i)%nat self ->
     wp (body x) self (fun r self' =>
       match r with Ok _ => I (S (start + i)) self' | Raise e => Q (Raise e) self' end)) ->
  (forall self, I (start + length l)%nat self -> Q (Ok tt) self) ->
  wp (for_each l body) self Q.
Proof.
  revert start self. induction l as [|x l IH]; intros start self HI Hbody Hend.
  - apply wp_ret. apply Hend. simpl. by rewrite Nat.add_0_r.
  - simpl. apply wp_bind. eapply wp_mono.
    + specialize (Hbody 0%nat x self eq_refl). rewrite Nat.add_0_r in Hbody. by apply Hbody.
    + intros [[]|e] self' H; [|done].
      apply (IH (S start)); [done | | ].
      * intros i y self'' Hi. replace (S start + i)%nat with (start + S i)%nat by lia.
        by apply Hbody.
      * intros self''. replace (S start + length l)%nat with (start + length (x :: l))%nat
          by (simpl; lia). apply Hend.
Qed.

(** The slot [k] of [usd_lights] holds what [_load_lights] makes of the light
    [i] of a scene: the placeholder for a light at the origin, and otherwise
    a record whose prim on the stage is a sphere light named after [i],
    without any attribute yet. *)
Definition light_loaded (self : USDExporter) (k i : nat) (light : MjvLight.t) : Prop :=
  if allclose_origin (MjvLight.pos light)
  then usd_lights self !! k = Some None
  else exists l,
    usd_lights self !! k = Some (Some l)
    /\ (light_prim l < next_prim self)%nat
    /\ prims (stage self) !! light_prim l
       = Some {| prim_name := pretty i; prim_source := SrcSphereLight None; prim_attrs := ∅ |}.

(** The entry [k] of [usd_cameras] holds what [_load_cameras] makes of a
    camera name: a record whose prim on the stage is a camera of that name,
    without any attribute yet. *)
Definition camera_loaded (self : USDExporter) (k : nat) (name : string) : Prop :=
  exists c,
    usd_cameras self !! k = Some c
    /\ (camera_prim c < next_prim self)%nat
    /\ prims (stage self) !! camera_prim c
       = Some {| prim_name := name; prim_source := SrcCamera; prim_attrs := ∅ |}.

(** [FirstUpdateRan self self']: the block of the first update has run from
    [self] to [self']. The stage is a new one: it has the settings and the
    root prim of [_initialize_usd_stage] and none of the prims created
    before. The list of light slots has grown by one slot per light of the
    scene, and the list of camera records by one record per camera name,
    both at the end and in order. *)
Record FirstUpdateRan (self self' : USDExporter) : Prop := {
  ran_up_axis : up_axis (stage self') = Some "Z";
  ran_start : start_time_code (stage self') = Some 0;
  ran_end : end_time_code (stage self') = None;
  ran_rate : time_codes_per_second (stage self') = Some 60%float;
  ran_default_prim : default_prim (stage self') = Some (next_prim self);
  ran_root :
    prims (stage self') !! next_prim self
    = Some {| prim_name := "/World"; prim_source := SrcXform; prim_attrs := ∅ |};
  ran_old_prims : forall id, (id < next_prim self)%nat -> prims (stage self') !! id = None;
  ran_lights_length :
    length (usd_lights self')
    = (length (usd_lights self) + MjvScene.nlight (scene self))%nat;
  ran_lights_before : take (length (usd_lights self)) (usd_lights self') = usd_lights self;
  ran_lights : forall i light,
    MjvScene.lights (scene self) !! i = Some light ->
    light_loaded self' (length (usd_lights self) + i) i light;
  ran_cameras_length :
    length (usd_cameras self')
    = (length (usd_cameras self) + length (default [] (camera_names (args self))))%nat;
  ran_cameras_before : take (length (usd_cameras self)) (usd_cameras self') = usd_cameras self;
  ran_cameras : forall j name,
    default [] (camera_names (args self)) !! j = Some name ->
    camera_loaded self' (length (usd_cameras self) + j) name;
  ran_args : args self' = args self;
  ran_frame_count : frame_count self' = frame_count self;
  ran_updates : updates self' = updates self;
  ran_geom_names : geom_names self' = geom_names self;
  ran_geom_refs : geom_refs self' = geom_refs self;
  ran_scene : scene self' = scene self;
  ran_exported : exported self' = exported self;
}.

(** The stage of [_initialize_usd_stage] with the root prim [root], while
    records are loaded onto it. *)
Record Started (root : nat) (self : USDExporter) : Prop := {
  st_up_axis : up_axis (stage self) = Some "Z";
  st_start : start_time_code (stage self) = Some 0;
  st_end : end_time_code (stage self) = None;
  st_rate : time_codes_per_second (stage self) = Some 60%float;
  st_default_prim : default_prim (stage self) = Some root;
  st_root :
    prims (stage self) !! root
    = Some {| prim_name := "/World"; prim_source := SrcXform; prim_attrs := ∅ |};
  st_old : forall id, (id < root)%nat -> prims (stage self) !! id = None;
  st_next : (root < next_prim self)%nat;
}.

(** From [self] to [self'] prims have been created and nothing else has
    happened to the stage. *)
Definition prims_added (self self' : USDExporter) : Prop :=
  (next_prim self <= next_prim self')%nat
  /\ up_axis (stage self') = up_axis (stage self)
  /\ start_time_code (stage self') = start_time_code (stage self)
  /\ end_time_code (stage self') = end_time_code (stage self)
  /\ time_codes_per_second (stage self') = time_codes_per_second (stage self)
  /\ default_prim (stage self') = default_prim (stage self)
  /\ forall id, (id < next_prim self)%nat ->
       prims (stage self') !! id = prims (stage self) !! id.

Lemma prims_added_define self p f :
  (forall s, next_prim (f s) = next_prim s) ->
  (forall s, stage (f s) = stage s) ->
  prims_added self
    (f (set_next_prim (S (next_prim self))
          (set_stage (Stage_with_prims <[next_prim self := p]> (stage self)) self))).
Proof.
  intros Hn Hs. unfold prims_added. rewrite Hn, Hs. simpl.
  split; [lia|]. do 5 (split; [done|]).
  intros id Hid. rewrite lookup_insert_ne by lia. done.
Qed.

Lemma prims_added_same self self' :
  next_prim self' = next_prim self -> stage self' = stage self -> prims_added self self'.
Proof. intros Hn Hs. unfold prims_added. rewrite Hn, Hs. by repeat split. Qed.

Lemma prims_added_trans self1 self2 self3 :
  prims_added self1 self2 -> prims_added self2 self3 -> prims_added self1 self3.
Proof.
  intros (? & ? & ? & ? & ? & ? & Hp) (? & ? & ? & ? & ? & ? & Hp').
  split; [lia|]. do 5 (split; [congruence|]).
  intros id Hid. rewrite Hp' by lia. auto.
Qed.

Lemma Started_added root self self' :
  prims_added self self' -> Started root self -> Started root self'.
Proof.
  intros (Hn & ? & ? & ? & ? & ? & Hp) []. split; try congruence.
  - rewrite Hp by lia. done.
  - intros id Hid. rewrite Hp by lia. auto.
  - lia.
Qed.

Lemma light_loaded_added self self' k i light :
  prims_added self self' ->
  usd_lights self' !! k = usd_lights self !! k ->
  light_loaded self k i light -> light_loaded self' k i light.
Proof.
  intros (Hn & _ & _ & _ & _ & _ & Hp) Hk. unfold light_loaded.
  destruct (allclose_origin (MjvLight.pos light)); [congruence|].
  intros (l & Hl & Hlt & Hprim). exists l. rewrite Hk, Hp by done.
  split; [done|]. split; [lia|done].
Qed.

Lemma camera_loaded_added self self' k name :
  prims_added self self' ->
  usd_cameras self' !! k = usd_cameras self !! k ->
  camera_loaded self k name -> camera_loaded self' k name.
Proof.
  intros (Hn & _ & _ & _ & _ & _ & Hp) Hk (c & Hc & Hlt & Hprim).
  exists c. rewrite Hk, Hp by done. split; [done|]. split; [lia|done].
Qed.

(** What [_load_lights] and [_load_cameras] leave as it is. *)
Definition same_but_records (self self' : USDExporter) : Prop :=
  args self' = args self /\ frame_count self' = frame_count self
  /\ updates self' = updates self /\ geom_names self' = geom_names self
  /\ geom_refs self' = geom_refs self /\ scene self' = scene self
  /\ exported self' = exported self.

(** [_load_lights] appends one slot per light of the scene. *)
Lemma _load_lights_appends root self :
  Started root self ->
  wp _load_lights self (fun r self' =>
    r = Ok tt /\ Started root self' /\ prims_added self self'
    /\ same_but_records self self' /\ usd_cameras self' = usd_cameras self
    /\ length (usd_lights self')
       = (length (usd_lights self) + MjvScene.nlight (scene self))%nat
    /\ take (length (usd_lights self)) (usd_lights self') = usd_lights self
    /\ forall i light, MjvScene.lights (scene self) !! i = Some light ->
         light_loaded self' (length (usd_lights self) + i) i light).
Proof.
  intros Hst. unfold _load_lights. wp_lines.
  set (L := MjvScene.lights (scene self)). set (len := length (usd_lights self)).
  apply (wp_for_range (fun n self' =>
    Started root self' /\ prims_added self self'
    /\ same_but_records self self' /\ usd_cameras self' = usd_cameras self
    /\ length (usd_lights self') = (len + n)%nat
    /\ take len (usd_lights self') = usd_lights self
    /\ forall i light, (i < n)%nat -> L !! i = Some light ->
         light_loaded self' (len + i) i light)).
  - split; [done|]. split; [by repeat split|]. split; [by repeat split|]. split; [done|].
    split; [lia|]. split; [by apply firstn_all|]. intros; lia.
  - intros n ln s Hn (Hs & Hadd & Hsame & Hcam & Hlen & Htake & Hslots). cbn [Nat.add] in *.
    unfold _load_light, USDSphereLight.
    destruct (allclose_origin (MjvLight.pos ln)) eqn:Hclose; cbn [negb]; wp_lines.
    + match goal with |- Started root ?s' /\ _ => assert (prims_added s s') as Hstep end.
      { by apply prims_added_same. }
      split; [by eapply Started_added|]. split; [by eapply prims_added_trans|].
      split; [exact Hsame|]. split; [exact Hcam|].
      fields. split; [rewrite length_app, Hlen; simpl; lia|].
      split; [rewrite take_app_le by lia; done|].
      intros i light Hi Hlight. destruct (decide (i = n)) as [->|Hne].
      * rewrite Hlight in Hn. injection Hn as ->. unfold light_loaded. rewrite Hclose. fields.
        rewrite lookup_app_r by lia. by replace (len + n - length (usd_lights s))%nat with 0%nat by lia.
      * eapply (light_loaded_added s); [exact Hstep | | apply Hslots; [lia|done]].
        fields. rewrite lookup_app_l by lia. done.
    + match goal with |- Started root ?s' /\ _ => assert (prims_added s s') as Hstep end.
      { apply (prims_added_define s _ (fun s0 => set_usd_lights _ s0)); done. }
      split; [by eapply Started_added|]. split; [by eapply prims_added_trans|].
      split; [exact Hsame|]. split; [exact Hcam|].
      fields. split; [rewrite length_app, Hlen; simpl; lia|].
      split; [rewrite take_app_le by lia; done|].
      intros i light Hi Hlight. destruct (decide (i = n)) as [->|Hne].
      * rewrite Hlight in Hn. injection Hn as ->. unfold light_loaded. rewrite Hclose. fields.
        eexists. rewrite lookup_app_r by lia.
        replace (len + n - length (usd_lights s))%nat with 0%nat by lia.
        split; [reflexivity|]. simpl. split; [lia|]. by rewrite lookup_insert_eq.
      * eapply (light_loaded_added s); [exact Hstep | | apply Hslots; [lia|done]].
        fields. rewrite lookup_app_l by lia. done.
  - intros s (Hs & Hadd & Hsame & Hcam & Hlen & Htake & Hslots). cbn [Nat.add] in *.
    do 6 (split; [done|]). split; [done|].
    intros i light Hi. apply Hslots; [|done]. by eapply lookup_lt_Some.
Qed.

(** [_load_cameras] appends one record per camera name. *)
Lemma _load_cameras_appends self :
  wp _load_cameras self (fun r self' =>
    r = Ok tt /\ prims_added self self'
    /\ same_but_records self self' /\ usd_lights self' = usd_lights self
    /\ length (usd_cameras self')
       = (length (usd_cameras self) + length (default [] (camera_names (args self))))%nat
    /\ take (length (usd_cameras self)) (usd_cameras self') = usd_cameras self
    /\ forall j name, default [] (camera_names (args self)) !! j = Some name ->
         camera_loaded self' (length (usd_cameras self) + j) name).
Proof.
  assert (prims_added self self) as Hrefl by (by repeat split).
  assert (same_but_records self self) as Hsame0 by (by repeat split).
  unfold _load_cameras. wp_lines.
  destruct (camera_names (args self)) as [names|] eqn:Hnames; cbn [default].
  2:{ wp_lines. split; [done|]. split; [done|]. split; [done|]. split; [done|].
      split; [simpl; lia|]. split; [by apply firstn_all|]. intros j name Hj. done. }
  set (len := length (usd_cameras self)).
  apply (wp_for_each_from (fun n self' =>
    prims_added self self'
    /\ same_but_records self self' /\ usd_lights self' = usd_lights self
    /\ length (usd_cameras self') = (len + n)%nat
    /\ take len (usd_cameras self') = usd_cameras self
    /\ forall j name, (j < n)%nat -> names !! j = Some name ->
         camera_loaded self' (len + j) name) _ _ 0%nat).
  - split; [done|]. split; [done|]. split; [done|].
    split; [lia|]. split; [by apply firstn_all|]. intros; lia.
  - intros n name s Hn (Hadd & Hsame & Hl & Hlen & Htake & Hrecs). cbn [Nat.add] in *.
    unfold USDCamera_new. wp_lines.
    match goal with |- prims_added self ?s' /\ _ => assert (prims_added s s') as Hstep end.
    { apply (prims_added_define s _ (fun s0 => set_usd_cameras _ s0)); done. }
    split; [by eapply prims_added_trans|].
    split; [exact Hsame|]. split; [exact Hl|].
    fields. split; [rewrite length_app, Hlen; simpl; lia|].
    split; [rewrite take_app_le by lia; done|].
    intros j name' Hj Hname. destruct (decide (j = n)) as [->|Hne].
    + rewrite Hname in Hn. injection Hn as ->. unfold camera_loaded. fields.
      eexists. rewrite lookup_app_r by lia.
      replace (len + n - length (usd_cameras s))%nat with 0%nat by lia.
      split; [reflexivity|]. simpl. split; [lia|]. by rewrite lookup_insert_eq.
    + eapply (camera_loaded_added s); [exact Hstep | | apply Hrecs; [lia|done]].
      fields. rewrite lookup_app_l by lia. done.
  - intros s (Hadd & Hsame & Hl & Hlen & Htake & Hrecs). cbn [Nat.add] in *.
    do 5 (split; [done|]). split; [done|].
    intros j name Hj. apply Hrecs; [|done]. by eapply lookup_lt_Some.
Qed.

(** With the update counter at 0 the block runs, whatever the exporter. *)
Lemma first_update_block_runs self :
  updates self = 0 ->
  wp first_update_block self (fun r self' => r = Ok tt /\ FirstUpdateRan self self').
Proof.
  intros Hu. unfold first_update_block. wp_lines.
  rewrite bool_decide_eq_true_2 by done. wp_line.
  unfold _initialize_usd_stage. wp_lines.
  match goal with |- wp _ ?s _ => set (self1 := s) end.
  assert (Started (next_prim self) self1) as Hst1.
  { split; try done; simpl.
    - by rewrite lookup_insert_eq.
    - intros id Hid. rewrite lookup_insert_ne by lia. done.
    - lia. }
  eapply wp_mono; [by apply _load_lights_appends|].
  intros r self2 (-> & Hst2 & Hadd2 & Hsame2 & Hcam2 & Hlen2 & Htake2 & Hslots2).
  eapply wp_mono; [apply _load_cameras_appends|].
  intros r self3 (-> & Hadd3 & Hsame3 & Hl3 & Hlen3 & Htake3 & Hrecs3).
  split; [done|].
  pose proof (Started_added _ _ _ Hadd3 Hst2) as [].
  destruct Hsame2 as (Ha2 & ? & ? & ? & ? & ? & ?), Hsame3 as (Ha3 & ? & ? & ? & ? & ? & ?).
  subst self1. fields. rewrite Ha2 in *. fields.
  split; try done; try congruence.
  - intros i light Hi.
    eapply light_loaded_added; [exact Hadd3 | by rewrite Hl3 | by apply Hslots2].
  - intros j name Hj. rewrite <- Hcam2. by apply Hrecs3.
Qed.


(** ** The time samples that a call of [update_scene] writes *)

(** [Adds self self']: from [self] to [self'] time samples and values have
    been written to prims of the stage, the renderer's scene may have
    changed, and nothing else has: the prims are the same ones, no time
    sample is lost, and the records and the counters are the same. *)
Record Adds (self self' : USDExporter) : Prop := {
  ad_args : args self' = args self;
  ad_frame_count : frame_count self' = frame_count self;
  ad_updates : updates self' = updates self;
  ad_geom_names : geom_names self' = geom_names self;
  ad_geom_refs : geom_refs self' = geom_refs self;
  ad_usd_lights : usd_lights self' = usd_lights self;
  ad_usd_cameras : usd_cameras self' = usd_cameras self;
  ad_next_prim : next_prim self' = next_prim self;
  ad_prims : forall id,
    is_Some (prims (stage self') !! id) <-> is_Some (prims (stage self) !! id);
  ad_samples : forall id name,
    dom (samples_of (stage self) id name) ⊆ dom (samples_of (stage self') id name);
}.

#[local] Instance Adds_refl : Reflexive Adds.
Proof. intros s. by split. Qed.

Lemma Adds_step self0 self1 self2 : Adds self1 self2 -> Adds self0 self1 -> Adds self0 self2.
Proof.
  intros [] []. split; try congruence.
  - intros id. by rewrite ad_prims0.
  - intros id name. etrans; [apply ad_samples1|apply ad_samples0].
Qed.

Lemma Adds_set_scene self v : Adds self (set_scene v self).
Proof. by split. Qed.

Lemma Adds_write self id name v time :
  Adds self (set_stage (Stage_with_prims (alter (Prim_Set name v time) id) (stage self)) self).
Proof.
  split; simpl; try done.
  - intros id'. rewrite lookup_alter. destruct (decide (id = id')) as [<-|]; [|done].
    by rewrite fmap_is_Some.
  - intros id' name'. rewrite samples_of_write. case_decide; [|done].
    destruct time; [|done]. rewrite dom_insert_L. apply union_subseteq_r.
Qed.

(** A write at the time sample [t] leaves a sample at [t], when the prim is
    on the stage. *)
Lemma write_sampled self id name v t :
  is_Some (prims (stage self) !! id) ->
  t ∈ dom (samples_of
             (stage (set_stage (Stage_with_prims (alter (Prim_Set name v (Some t)) id)
                                  (stage self)) self)) id name).
Proof.
  intros Hid. simpl. rewrite samples_of_write, decide_True by done.
  rewrite dom_insert_L. by apply elem_of_union_l, elem_of_singleton.
Qed.

Lemma Adds_sampled self self' id name t :
  Adds self self' ->
  t ∈ dom (samples_of (stage self) id name) -> t ∈ dom (samples_of (stage self') id name).
Proof. intros HA Ht. by apply (ad_samples _ _ HA id name). Qed.

Ltac adds_chain :=
  repeat (eapply Adds_step; [solve [apply Adds_set_scene | apply Adds_write]|]);
  try eassumption; try reflexivity.

(** The record of every geom has its prim under an identity that has been
    used. *)
Definition Bounded (self : USDExporter) : Prop :=
  forall n ref, geom_refs self !! n = Some ref -> (obj_prim ref < next_prim self)%nat.

Lemma Bounded_Adds self self' : Adds self self' -> Bounded self -> Bounded self'.
Proof. intros [] HB n ref. rewrite ad_geom_refs0, ad_next_prim0. apply HB. Qed.

Lemma Bounded_same_refs self self' :
  geom_refs self' = geom_refs self -> (next_prim self <= next_prim self')%nat ->
  Bounded self -> Bounded self'.
Proof. intros Hr Hn HB n ref. rewrite Hr. intros H%HB. lia. Qed.

(** [update] of a geometry record writes at the time sample [t]: the
    transform and the visibility, and the scale when one is given. *)
Lemma USDObject_update_adds self ref pos mat scale visible t :
  wp (USDObject_update ref pos mat scale visible t) self (fun r self' =>
    (exists ref', r = Ok ref' /\ obj_prim ref' = obj_prim ref)
    /\ Adds self self'
    /\ (is_Some (prims (stage self) !! obj_prim ref) ->
        t ∈ dom (samples_of (stage self') (obj_prim ref) "xformOp:transform")
        /\ t ∈ dom (samples_of (stage self') (obj_prim ref) "visibility")
        /\ (is_Some scale ->
            t ∈ dom (samples_of (stage self') (obj_prim ref) "xformOp:scale")))).
Proof.
  set (s1 := set_stage (Stage_with_prims
    (alter (Prim_Set "xformOp:transform" (VPose pos mat) (Some t)) (obj_prim ref))
    (stage self)) self).
  set (s2 := set_stage (Stage_with_prims
    (alter (Prim_Set "visibility" (VBool visible) (Some t)) (obj_prim ref))
    (stage s1)) s1).
  assert (Adds self s1) as H1 by apply Adds_write.
  assert (Adds s1 s2) as H2 by apply Adds_write.
  assert (is_Some (prims (stage self) !! obj_prim ref) ->
          t ∈ dom (samples_of (stage s2) (obj_prim ref) "xformOp:transform")
          /\ t ∈ dom (samples_of (stage s2) (obj_prim ref) "visibility")) as Hw.
  { intros Hid. split.
    - apply (Adds_sampled _ _ _ _ _ H2). by apply write_sampled.
    - apply write_sampled. by apply (ad_prims _ _ H1). }
  unfold USDObject_update, USDObject_update_visibility.
  destruct scale as [s|]; wp_lines.
  - set (s3 := set_stage (Stage_with_prims
      (alter (Prim_Set "xformOp:scale" (VVec3 s) (Some t)) (obj_prim ref))
      (stage s2)) s2).
    assert (Adds s2 s3) as H3 by apply Adds_write.
    split; [by eexists|].
    split; [exact (Adds_step _ _ _ H3 (Adds_step _ _ _ H2 H1))|].
    intros Hid. destruct (Hw Hid) as [HT HV].
    split; [exact (Adds_sampled _ _ _ _ _ H3 HT)|].
    split; [exact (Adds_sampled _ _ _ _ _ H3 HV)|].
    intros _. apply (write_sampled s2). apply (ad_prims _ _ H2). by apply (ad_prims _ _ H1).
  - split; [by eexists|]. split; [exact (Adds_step _ _ _ H2 H1)|].
    intros Hid. destruct (Hw Hid) as [HT HV]. split; [exact HT|]. split; [exact HV|].
    by intros [? [=]].
Qed.

(** How [_load_geom] ends: with a new record, or with an exception and the
    exporter as it was. *)
Lemma _load_geom_result self geom :
  wp (_load_geom geom) self (fun r self' =>
    match r with
    | Ok _ => Loaded (_get_geom_name self geom) self self'
    | Raise _ => self' = self
    end).
Proof.
  unfold _load_geom, USDObject_new.
  repeat wp_step; try reflexivity;
    (split; simpl; try done; eexists; split; [|reflexivity]; done).
Qed.

(** The record of [geom] has, on its prim when that is on the stage, the
    time sample [u] of the transform and of the visibility, and that of the
    scale for a tendon. *)
Definition geom_sampled (u : Z) (self : USDExporter) (geom : MjvGeom.t) : Prop :=
  exists ref,
    geom_refs self !! _get_geom_name self geom = Some ref
    /\ (is_Some (prims (stage self) !! obj_prim ref) ->
        u ∈ dom (samples_of (stage self) (obj_prim ref) "xformOp:transform")
        /\ u ∈ dom (samples_of (stage self) (obj_prim ref) "visibility")
        /\ (MjvGeom.objtype geom = mjOBJ_TENDON ->
            u ∈ dom (samples_of (stage self) (obj_prim ref) "xformOp:scale"))).

Lemma geom_sampled_Adds u self self' geom :
  Adds self self' -> geom_sampled u self geom -> geom_sampled u self' geom.
Proof.
  intros HA (ref & Href & Hs). exists ref.
  rewrite (_get_geom_name_args self self') by apply HA. rewrite (ad_geom_refs _ _ HA).
  split; [done|]. intros Hid%(ad_prims _ _ HA). destruct (Hs Hid) as (? & ? & Ht).
  split; [by eapply Adds_sampled|]. split; [by eapply Adds_sampled|].
  intros Hten. eapply Adds_sampled; [done|]. by apply Ht.
Qed.

(** One round of the loop of [_update_geoms]: the record of the geom is
    written at the update counter, and what was written for the geoms before
    it is still there. *)
Lemma _update_geom_sampled self geom :
  Consistent self -> Bounded self ->
  wp (_update_geom geom) self (fun r self' =>
    Bounded self'
    /\ (r = Ok tt ->
        args self' = args self /\ updates self' = updates self
        /\ geom_sampled (updates self) self' geom
        /\ forall g0, geom_sampled (updates self) self g0 ->
             geom_sampled (updates self) self' g0)).
Proof.
  intros Hc HB. unfold _update_geom. wp_lines.
  set (name := _get_geom_name self geom).
  eapply wp_mono.
  { instantiate (1 := fun r s1 =>
      match r with
      | Ok _ => (name ∈ geom_names self /\ s1 = self)
                \/ ((name ∉ geom_names self) /\ Loaded name self s1)
      | Raise _ => s1 = self
      end).
    case_bool_decide as Hin; cbn [negb].
    - wp_lines. by left.
    - eapply wp_mono; [apply _load_geom_result|].
      intros [[]|e] s1 H1; [|done]. right. done. }
  intros [[]|e] s1 H1; [|by subst s1].
  assert (Bounded s1 /\ args s1 = args self /\ updates s1 = updates self
          /\ (next_prim self <= next_prim s1)%nat
          /\ (forall n, n ≠ name -> geom_refs s1 !! n = geom_refs self !! n)
          /\ (forall ref0, geom_refs self !! name = Some ref0 ->
              geom_refs s1 !! name = Some ref0)
          /\ (forall id, (id < next_prim self)%nat ->
              prims (stage s1) !! id = prims (stage self) !! id)
          /\ (forall a, geom_refs s1 !! name = Some a ->
              name ∉ geom_names self -> is_Some (prims (stage s1) !! obj_prim a)))
    as (HB1 & Ha1 & Hu1 & Hn1 & Hother1 & Hsame1 & Hp1 & Hnew1).
  { destruct H1 as [[Hin ->]|[Hnew [La _ Lu _ _ _ Lr Lnp (p & _ & Lp)]]].
    - split; [done|]. do 6 (split; [done|]). intros a _ Hn. done.
    - split.
      { intros n ref. rewrite Lr, Lnp.
        intros [[_ <-]|[_ Hn%HB]]%lookup_insert_Some; simpl; lia. }
      split; [done|]. split; [done|]. split; [lia|].
      split; [intros n Hn; by rewrite Lr, lookup_insert_ne|].
      split.
      { intros ref0 Href0. exfalso. apply Hnew. rewrite Hc. by eapply elem_of_dom_2. }
      split.
      { intros id Hid. by rewrite Lp, lookup_insert_ne by lia. }
      intros a. rewrite Lr, lookup_insert_eq. intros [= <-] _. simpl.
      rewrite Lp, lookup_insert_eq. by eexists. }
  wp_lines; [|done]. rename a into ref. rename H into Href.
  eapply wp_mono.
  { instantiate (1 := fun r s2 =>
      (exists ref', r = Ok ref' /\ obj_prim ref' = obj_prim ref)
      /\ Adds s1 s2
      /\ (is_Some (prims (stage s1) !! obj_prim ref) ->
          updates s1 ∈ dom (samples_of (stage s2) (obj_prim ref) "xformOp:transform")
          /\ updates s1 ∈ dom (samples_of (stage s2) (obj_prim ref) "visibility")
          /\ (MjvGeom.objtype geom = mjOBJ_TENDON ->
              updates s1 ∈ dom (samples_of (stage s2) (obj_prim ref) "xformOp:scale")))).
    case_bool_decide as Hten.
    - eapply wp_mono; [apply USDObject_update_adds|].
      intros r s2 (Hr & HA & Hw). split; [done|]. split; [done|].
      intros Hid. destruct (Hw Hid) as (? & ? & Hs). split; [done|]. split; [done|].
      intros _. apply Hs. by eexists.
    - eapply wp_mono; [apply USDObject_update_adds|].
      intros r s2 (Hr & HA & Hw). split; [done|]. split; [done|].
      intros Hid. destruct (Hw Hid) as (? & ? & Hs). split; [done|]. split; [done|]. done. }
  intros r s2 ((ref' & -> & Hprim) & HA & Hw). wp_lines.
  pose proof (Bounded_Adds _ _ HA HB1) as HB2.
  assert (obj_prim ref < next_prim s2)%nat as Hlt.
  { rewrite (ad_next_prim _ _ HA). by eapply HB1. }
  split.
  { intros n r0. fields.
    intros [[_ <-]|[_ H]]%lookup_insert_Some; [by rewrite Hprim|by eapply HB2]. }
  intros _. fields. rewrite (ad_args _ _ HA), (ad_updates _ _ HA).
  split; [done|]. split; [done|]. rewrite <- Hu1.
  assert (forall g, _get_geom_name
            (set_geom_refs (<[name:=ref']> (geom_refs s2)) s2) g = _get_geom_name self g) as Hname.
  { intros g. apply _get_geom_name_args. simpl. by rewrite (ad_args _ _ HA). }
  split.
  - exists ref'. rewrite Hname. fold name. fields. rewrite lookup_insert_eq. split; [done|].
    rewrite Hprim. intros Hid%(ad_prims _ _ HA). by apply Hw.
  - intros g0 (ref0 & Href0 & Hs0).
    assert (obj_prim ref0 < next_prim self)%nat as Hlt0 by (by eapply HB).
    assert (exists r0, geom_refs (set_geom_refs (<[name:=ref']> (geom_refs s2)) s2)
                         !! _get_geom_name self g0 = Some r0
                       /\ obj_prim r0 = obj_prim ref0) as (r0 & Hr0 & Hp0).
    { fields. destruct (decide (_get_geom_name self g0 = name)) as [He|Hne].
      - exists ref'. rewrite He, lookup_insert_eq. split; [done|].
        rewrite He in Href0. apply Hsame1 in Href0.
        rewrite Hprim. congruence.
      - exists ref0. rewrite lookup_insert_ne by done.
        rewrite (ad_geom_refs _ _ HA), Hother1 by done. done. }
    exists r0. rewrite Hname. split; [done|]. rewrite Hp0. fields.
    intros Hid%(ad_prims _ _ HA). rewrite Hp1 in Hid by done.
    destruct (Hs0 Hid) as (HT & HV & HS).
    assert (forall nm t, t ∈ dom (samples_of (stage self) (obj_prim ref0) nm) ->
                         t ∈ dom (samples_of (stage s2) (obj_prim ref0) nm)) as Hsub.
    { intros nm t Ht. eapply Adds_sampled; [exact HA|].
      unfold samples_of in *. by rewrite Hp1. }
    split; [by apply Hsub|]. split; [by apply Hsub|]. intros Ht. by apply Hsub, HS.
Qed.

Lemma _update_geoms_scene self :
  wp _update_geoms self (fun _ self' => scene self' = scene self).
Proof.
  unfold _update_geoms. wp_lines.
  apply (wp_for_each (fun self' => scene self' = scene self)); [done | | done].
  intros geom self' _ Hs.
  unfold _update_geom, _load_geom, USDObject_new, USDObject_update,
    USDObject_update_visibility.
  repeat wp_step; exact Hs.
Qed.

(** [_update_geoms] writes the record of every geom of the scene at the
    update counter. *)
Lemma _update_geoms_sampled self :
  Consistent self -> Bounded self ->
  wp _update_geoms self (fun r self' =>
    Bounded self'
    /\ (r = Ok tt ->
        forall geom, geom ∈ MjvScene.geoms (scene self) ->
          geom_sampled (updates self) self' geom)).
Proof.
  intros Hc HB. unfold _update_geoms. wp_lines.
  set (geoms := MjvScene.geoms (scene self)).
  apply (wp_for_each_from (fun n s =>
    Kept self s /\ Bounded s /\ updates s = updates self
    /\ forall j g, (j < n)%nat -> geoms !! j = Some g -> geom_sampled (updates self) s g)
    _ _ 0%nat).
  - split; [by split|]. split; [done|]. split; [done|]. intros; lia.
  - intros n geom s Hn (HK & HBs & Hu & Hdone). cbn [Nat.add] in *.
    eapply wp_mono.
    { apply wp_and; [by apply (_update_geom_kept self s geom)|].
      apply _update_geom_sampled; [by destruct HK | done]. }
    intros r s' [HK' [HB' Hok]]. destruct r as [[]|e]; [|by split].
    destruct (Hok eq_refl) as (_ & Hu' & Hthis & Hkeep). rewrite Hu in *.
    split; [done|]. split; [done|]. split; [congruence|].
    intros j g Hj Hg. destruct (decide (j = n)) as [->|Hne].
    + rewrite Hg in Hn. by injection Hn as ->.
    + apply Hkeep. apply (Hdone j); [lia|done].
  - intros s (HK & HBs & Hu & Hdone). cbn [Nat.add] in *. split; [done|].
    intros _ geom [j Hj]%list_elem_of_lookup_1. apply (Hdone j); [|done].
    by eapply lookup_lt_Some.
Qed.

(** The record of the light [i], when the light is not at the origin and the
    prim of the record is on the stage, has the time sample [u] of the
    position, the intensity and the colour. *)
Definition light_sampled (u : Z) (self : USDExporter) (i : nat) (light : MjvLight.t) : Prop :=
  allclose_origin (MjvLight.pos light) = false ->
  forall l, usd_lights self !! i = Some (Some l) ->
    is_Some (prims (stage self) !! light_prim l) ->
    u ∈ dom (samples_of (stage self) (light_prim l) "xformOp:translate")
    /\ u ∈ dom (samples_of (stage self) (light_prim l) "inputs:intensity")
    /\ u ∈ dom (samples_of (stage self) (light_prim l) "inputs:color").

Lemma light_sampled_Adds u self self' i light :
  Adds self self' -> light_sampled u self i light -> light_sampled u self' i light.
Proof.
  intros HA Hs Hfar l. rewrite (ad_usd_lights _ _ HA). intros Hl Hid%(ad_prims _ _ HA).
  destruct (Hs Hfar l Hl Hid) as (? & ? & ?).
  split; [by eapply Adds_sampled|]. split; by eapply Adds_sampled.
Qed.

Lemma _update_light_sampled self i light :
  wp (_update_light i light) self (fun r self' =>
    r = Ok tt /\ Adds self self' /\ light_sampled (updates self) self' i light).
Proof.
  unfold _update_light.
  destruct (allclose_origin (MjvLight.pos light)) eqn:Hclose.
  { wp_lines. split; [done|]. split; [done|]. intros Hfar. congruence. }
  wp_lines. destruct (usd_lights self !! i) as [[l|]|] eqn:Hl.
  2,3: wp_lines; (split; [done|]); (split; [done|]); intros _ l' Hl'; congruence.
  set (t := updates self).
  set (s1 := set_stage (Stage_with_prims
    (alter (Prim_Set "xformOp:translate" (VVec3 (MjvLight.pos light)) (Some t)) (light_prim l))
    (stage self)) self).
  set (s2 := set_stage (Stage_with_prims
    (alter (Prim_Set "inputs:intensity" (VInt (light_intensity (args self))) (Some t))
       (light_prim l))
    (stage s1)) s1).
  set (s3 := set_stage (Stage_with_prims
    (alter (Prim_Set "inputs:color" (VVec3 (MjvLight.diffuse light)) (Some t)) (light_prim l))
    (stage s2)) s2).
  assert (Adds self s1) as H1 by apply Adds_write.
  assert (Adds s1 s2) as H2 by apply Adds_write.
  assert (Adds s2 s3) as H3 by apply Adds_write.
  unfold USDSphereLight_update. wp_lines.
  split; [done|]. split; [exact (Adds_step _ _ _ H3 (Adds_step _ _ _ H2 H1))|].
  intros _ l' Hl' Hid.
  change (usd_lights self !! i = Some (Some l')) in Hl'. rewrite Hl in Hl'. injection Hl' as <-.
  change (is_Some (prims (stage s3) !! light_prim l)) in Hid.
  apply (ad_prims _ _ H3), (ad_prims _ _ H2) in Hid.
  split; [|split].
  - apply (Adds_sampled _ _ _ _ _ H3), (Adds_sampled _ _ _ _ _ H2), (write_sampled self).
    by apply (ad_prims _ _ H1).
  - apply (Adds_sampled _ _ _ _ _ H3), (write_sampled s1). done.
  - apply (write_sampled s2). by apply (ad_prims _ _ H2).
Qed.

(** [_update_lights] writes the record of every light of the scene that has
    one at the update counter, and never raises. *)
Lemma _update_lights_sampled self :
  wp _update_lights self (fun r self' =>
    r = Ok tt /\ Adds self self'
    /\ forall i light, MjvScene.lights (scene self) !! i = Some light ->
         light_sampled (updates self) self' i light).
Proof.
  unfold _update_lights. wp_lines. set (L := MjvScene.lights (scene self)).
  apply (wp_for_range (fun n s =>
    Adds self s
    /\ forall j lj, (j < n)%nat -> L !! j = Some lj -> light_sampled (updates self) s j lj)).
  - split; [done|]. intros; lia.
  - intros n ln s Hn [HA Hdone]. cbn [Nat.add] in *.
    eapply wp_mono; [apply _update_light_sampled|].
    intros r s' (-> & HA' & Hthis). rewrite (ad_updates _ _ HA) in Hthis.
    split; [by eapply Adds_step|].
    intros j lj Hj Hlj. destruct (decide (j = n)) as [->|Hne].
    + rewrite Hlj in Hn. by injection Hn as ->.
    + eapply light_sampled_Adds; [done|]. apply (Hdone j); [lia|done].
  - intros s [HA Hdone]. cbn [Nat.add] in *. split; [done|]. split; [done|].
    intros i light Hi. apply (Hdone i); [|done]. by eapply lookup_lt_Some.
Qed.

(** The camera record has the time sample [u] of the transform, when its
    prim is on the stage. *)
Definition camera_sampled (u : Z) (self : USDExporter) (c : USDCamera) : Prop :=
  is_Some (prims (stage self) !! camera_prim c) ->
  u ∈ dom (samples_of (stage self) (camera_prim c) "xformOp:transform").

Lemma camera_sampled_Adds u self self' c :
  Adds self self' -> camera_sampled u self c -> camera_sampled u self' c.
Proof. intros HA Hs Hid%(ad_prims _ _ HA). eapply Adds_sampled; [done|]. by apply Hs. Qed.

(** [_update_cameras] writes every camera record at the update counter,
    when it returns. *)
Lemma _update_cameras_sampled self data scene_option :
  wp (_update_cameras data scene_option) self (fun r self' =>
    Adds self self'
    /\ (r = Ok tt ->
        forall i c, usd_cameras self !! i = Some c -> camera_sampled (updates self) self' c)).
Proof.
  unfold _update_cameras. wp_lines. set (cams := usd_cameras self).
  apply (wp_for_range (fun n s =>
    Adds self s
    /\ forall j c, (j < n)%nat -> cams !! j = Some c -> camera_sampled (updates self) s c)).
  - split; [done|]. intros; lia.
  - intros n cam s Hn [HA Hdone]. cbn [Nat.add] in *.
    unfold USDCamera_update. wp_lines; try (split; [done|]; intros [=]).
    match goal with |- Adds self ?s' /\ _ => set (s2 := s') end.
    assert (Adds s s2) as H2 by (subst s2; adds_chain).
    split; [by eapply Adds_step|].
    intros j c Hj Hc. destruct (decide (j = n)) as [->|Hne].
    + rewrite Hc in Hn. injection Hn as ->. intros Hid.
      subst s2. fields. rewrite (ad_updates _ _ HA).
      rewrite samples_of_write, decide_True.
      * rewrite dom_insert_L. by apply elem_of_union_l, elem_of_singleton.
      * split; [done|]. split; [done|]. simpl in Hid. rewrite lookup_alter in Hid.
        rewrite decide_True in Hid by done. by apply fmap_is_Some in Hid.
    + eapply camera_sampled_Adds; [done|]. apply (Hdone j); [lia|done].
  - intros s [HA Hdone]. cbn [Nat.add] in *. split; [done|].
    intros _ i c Hi. apply (Hdone i); [|done]. by eapply lookup_lt_Some.
Qed.

(** A loop over two lists in a row runs the second loop when the first one
    returns. *)
Lemma for_each_app {A} (l1 l2 : list A) (body : A -> M unit) self :
  for_each (l1 ++ l2) body self
  = match for_each l1 body self with
    | (Ok _, self') => for_each l2 body self'
    | (Raise e, self') => (Raise e, self')
    end.
Proof.
  revert self. induction l1 as [|x l1 IH]; intros self; [done|].
  cbn [app for_each]. unfold mbind, M_bind.
  destruct (body x self) as [[a|e] self']; [apply IH | done].
Qed.

(** The statements of a list up to the statement [n], included: those before
    it, and then the statement [n] when they have returned. *)
Lemma for_each_take_S (steps : list (M unit)) (n : nat) (step : M unit) self :
  steps !! n = Some step ->
  for_each (take (S n) steps) (fun step => step) self
  = match for_each (take n steps) (fun step => step) self with
    | (Ok _, self') => step self'
    | (Raise e, self') => (Raise e, self')
    end.
Proof.
  intros Hn. rewrite (take_S_r _ _ _ Hn), for_each_app.
  destruct (for_each (take n steps) _ self) as [[[]|e] self']; [|done].
  cbn [for_each]. unfold mbind, M_bind. by destruct (step self') as [[[]|e] self''].
Qed.

Lemma first_update_block_bounded self :
  Consistent self -> Bounded self ->
  wp first_update_block self (fun r self' => r = Ok tt /\ Bounded self').
Proof.
  intros Hc HB. destruct (decide (updates self = 0)) as [Hu|Hu].
  - eapply wp_mono.
    { apply wp_and; [by apply first_update_block_runs|].
      apply (first_update_block_kept self self). by split. }
    intros r self' [[-> Hran] [_ Hin]]. split; [done|].
    eapply Bounded_same_refs; [apply Hran | apply Hin | done].
  - unfold wp. rewrite first_update_block_eq, bool_decide_eq_false_2 by done. done.
Qed.

(** The exporter in front of [_update_geoms]: the frame counter is
    incremented, the scene is the snapshot of the call, and the block of the
    first update has returned. *)
Lemma update_scene_before_geoms self data scene_option :
  Consistent self -> Bounded self ->
  wp (for_each (take 3 (update_scene_steps data scene_option)) (fun step => step)) self
    (fun r self' =>
       r = Ok tt /\ Kept (entered self) self' /\ Bounded self'
       /\ scene self' = snapshot self (data, scene_option)).
Proof.
  intros Hc HB. unfold update_scene_steps. cbn [take for_each]. wp_lines.
  match goal with |- wp _ ?s _ => set (self1 := s) end.
  assert (Kept (entered self) self1) as HK1.
  { split; [done|]. unfold entered. subst self1. inner_chain. reflexivity. }
  eapply wp_mono.
  { apply wp_and; [apply wp_and|].
    - by apply (first_update_block_kept (entered self) self1).
    - apply (first_update_block_bounded self1); [by destruct HK1 | exact HB].
    - apply first_update_block_scene. }
  intros r self2 [[HK2 [-> HB2]] Hs2]. wp_lines. done.
Qed.

(** Every call of [update_scene] leaves the records on prims of identities
    that have been used, however it ends. *)
Lemma update_scene_bounded self data scene_option :
  Consistent self -> Bounded self ->
  wp (update_scene data scene_option) self (fun _ self' => Bounded self').
Proof.
  intros Hc HB.
  pose proof (update_scene_before_geoms self data scene_option Hc HB) as H3.
  unfold update_scene. unfold wp in *.
  rewrite <- (take_drop 3 (update_scene_steps data scene_option)), for_each_app.
  destruct (for_each (take 3 _) _ self) as [r3 self3]. simpl in H3.
  destruct H3 as (-> & HK3 & HB3 & _). destruct HK3 as [Hc3 _].
  change (wp (for_each (drop 3 (update_scene_steps data scene_option)) (fun step => step))
            self3 (fun _ self' => Bounded self')).
  unfold update_scene_steps. cbn [drop for_each]. wp_line.
  eapply wp_mono; [by apply _update_geoms_sampled|].
  intros [[]|e] self4 [HB4 _]; [|done]. wp_line.
  eapply wp_mono; [apply _update_lights_sampled|].
  intros r self5 (-> & HA5 & _). wp_line.
  eapply wp_mono; [apply _update_cameras_sampled|].
  intros [[]|e] self6 [HA6 _]; [|by eapply Bounded_Adds, Bounded_Adds].
  wp_lines. exact (Bounded_Adds _ _ HA6 (Bounded_Adds _ _ HA5 HB4)).
Qed.

Lemma after_update_calls_bounded frames : forall self,
  Consistent self -> Bounded self -> Bounded (after_calls (update_calls frames) self).
Proof.
  induction frames as [|[data scene_option] frames IH]; intros self Hc HB; [done|].
  change (after_calls (update_calls ((data, scene_option) :: frames)) self)
    with (after_calls (update_calls frames) (update_scene data scene_option self).2).
  pose proof (update_scene_run self data scene_option Hc) as Hrun. unfold wp in Hrun.
  destruct (update_scene_ends_Evolves _ _ _ Hrun) as [Hc1 _].
  apply IH; [done|]. apply (update_scene_bounded self data scene_option Hc HB).
Qed.

Lemma Fresh_Bounded a self : Fresh a self -> Bounded self.
Proof. intros [] n ref. by rewrite fresh_geom_refs0, lookup_empty. Qed.

(** The records that a call of [update_scene] has written when it has come
    past [_update_geoms], past [_update_lights], and past
    [_update_cameras]. *)
Lemma update_scene_sampled self data scene_option :
  Consistent self -> Bounded self ->
  let cut n :=
    for_each (take n (update_scene_steps data scene_option)) (fun step => step) self in
  let shot := snapshot self (data, scene_option) in
  let geoms_sampled s :=
    forall geom, geom ∈ MjvScene.geoms shot -> geom_sampled (updates self) s geom in
  let lights_sampled s :=
    forall i light, MjvScene.lights shot !! i = Some light ->
      light_sampled (updates self) s i light in
  let cameras_sampled s :=
    forall i c, usd_cameras s !! i = Some c -> camera_sampled (updates self) s c in
  ((cut 4%nat).1 = Ok tt -> geoms_sampled (cut 4%nat).2)
  /\ ((cut 5%nat).1 = Ok tt -> geoms_sampled (cut 5%nat).2 /\ lights_sampled (cut 5%nat).2)
  /\ ((cut 6%nat).1 = Ok tt ->
      geoms_sampled (cut 6%nat).2 /\ lights_sampled (cut 6%nat).2
      /\ cameras_sampled (cut 6%nat).2).
Proof.
  intros Hc HB cut shot geoms_sampled lights_sampled cameras_sampled.
  pose proof (update_scene_before_geoms self data scene_option Hc HB) as H3.
  unfold wp in H3. fold (cut 3%nat) in H3. destruct H3 as (Hr3 & HK3 & HB3 & Hs3).
  assert (updates (cut 3%nat).2 = updates self) as Hu3 by (by destruct HK3 as [_ []]).
  assert (cut 4%nat = _update_geoms (cut 3%nat).2) as E4.
  { unfold cut. rewrite (for_each_take_S _ 3 _update_geoms) by done.
    fold (cut 3%nat). destruct (cut 3%nat) as [r3 s3]. simpl in Hr3. by subst r3. }
  assert ((cut 4%nat).1 = Ok tt ->
          geoms_sampled (cut 4%nat).2 /\ scene (cut 4%nat).2 = shot
          /\ updates (cut 4%nat).2 = updates self) as H4.
  { intros Hr4. rewrite E4 in *.
    pose proof (_update_geoms_sampled (cut 3%nat).2 (proj1 HK3) HB3) as [_ HG].
    pose proof (_update_geoms_scene (cut 3%nat).2) as Hs4.
    pose proof (_update_geoms_kept _ _ HK3) as [_ [_ _ Hu4 _ _ _ _ _ _ _]].
    unfold wp in *. split; [|split].
    - intros geom Hgeom. rewrite <- Hu3. apply (HG Hr4). by rewrite Hs3.
    - by rewrite Hs4.
    - exact Hu4. }
  assert (cut 5%nat = match cut 4%nat with
                      | (Ok _, s) => _update_lights s
                      | (Raise e, s) => (Raise e, s)
                      end) as E5.
  { unfold cut. by rewrite (for_each_take_S _ 4 _update_lights). }
  assert ((cut 5%nat).1 = Ok tt ->
          (cut 4%nat).1 = Ok tt /\ Adds (cut 4%nat).2 (cut 5%nat).2
          /\ lights_sampled (cut 5%nat).2) as H5.
  { intros Hr5. rewrite E5 in *. destruct (cut 4%nat) as [[[]|e] s4] eqn:Ec4; [|done].
    destruct (H4 eq_refl) as (_ & Hs4 & Hu4). simpl in Hs4, Hu4.
    pose proof (_update_lights_sampled s4) as (_ & HA & HL). unfold wp in *.
    split; [done|]. split; [done|]. intros i light Hi. rewrite <- Hu4.
    apply HL. by rewrite Hs4. }
  assert (cut 6%nat = match cut 5%nat with
                      | (Ok _, s) =>
                          _update_cameras data (default MjvOption_default scene_option) s
                      | (Raise e, s) => (Raise e, s)
                      end) as E6.
  { unfold cut.
    by rewrite (for_each_take_S _ 5
      (_update_cameras data (default MjvOption_default scene_option))). }
  assert ((cut 6%nat).1 = Ok tt ->
          (cut 5%nat).1 = Ok tt /\ Adds (cut 5%nat).2 (cut 6%nat).2
          /\ cameras_sampled (cut 6%nat).2) as H6.
  { intros Hr6. rewrite E6 in *. destruct (cut 5%nat) as [[[]|e] s5] eqn:Ec5; [|done].
    destruct (H5 eq_refl) as (Hr4 & HA5 & _). destruct (H4 Hr4) as (_ & _ & Hu4).
    pose proof (_update_cameras_sampled s5 data (default MjvOption_default scene_option))
      as [HA HC].
    unfold wp in *. split; [done|]. split; [done|]. intros i c Hi.
    rewrite <- Hu4, <- (ad_updates _ _ HA5). apply (HC Hr6 i).
    by rewrite <- (ad_usd_cameras _ _ HA). }
  split; [by intros Hr4; apply H4|]. split.
  - intros Hr5. destruct (H5 Hr5) as (Hr4 & HA5 & HL5). split; [|done].
    intros geom Hgeom. eapply geom_sampled_Adds; [done|]. by apply H4.
  - intros Hr6. destruct (H6 Hr6) as (Hr5 & HA6 & HC6).
    destruct (H5 Hr5) as (Hr4 & HA5 & HL5). split; [|split; [|done]].
    + intros geom Hgeom. do 2 (eapply geom_sampled_Adds; [done|]). by apply H4.
    + intros i light Hi. eapply light_sampled_Adds; [done|]. by apply HL5.
Qed.

(** C9, as the code has it: inside a call of [update_scene] the frame counter
    is the number of the call and the update counter is the number of the
    calls that returned before it. In the call [N] of a session, each call
    made whether or not the one before it raised, with [u] earlier calls that
    returned: at every point between the first statement and the last the
    frame counter is [N] and the update counter is [u]; [u] is at most
    [N - 1], and it is [N - 1] when every earlier call returned, so that the
    counters then differ by one. Every time sample the call adds to the
    stage is at [u]. When [_update_geoms] has returned, the record of every
    geom of the snapshot has on its prim, if that is on the stage, the time
    sample [u] of the transform and of the visibility, and of the scale for
    a tendon; when [_update_lights] has returned the record of every light
    that is not at the origin has the time sample [u] of position, intensity
    and colour; when [_update_cameras] has returned every camera record has
    the time sample [u] of the transform. *)
Theorem counters_inside_any_update_scene (a : ExporterArgs) (self0 : USDExporter)
    (frames : list (MjData * option MjvOption))
    (data : MjData) (scene_option : option MjvOption) :
  __init__ a = Ok self0 ->
  let self := after_calls (update_calls frames) self0 in
  let N := Z.of_nat (S (length frames)) in
  let u := Z.of_nat (calls_returned frames self0) in
  let cut n :=
    for_each (take n (update_scene_steps data scene_option)) (fun step => step) self in
  let shot := snapshot self (data, scene_option) in
  (forall n, (1 <= n <= 6)%nat -> frame_count (cut n).2 = N /\ updates (cut n).2 = u)
  /\ (0 <= u <= N - 1
      /\ forall self', update_scenes frames self0 = (Ok tt, self') -> self' = self /\ u = N - 1)
  /\ (forall id name k,
        k ∈ dom (samples_of (stage (update_scene data scene_option self).2) id name) ->
        k = u \/ k ∈ dom (samples_of (stage self) id name))
  /\ (forall n, (4 <= n <= 6)%nat -> (cut n).1 = Ok tt ->
        forall geom, geom ∈ MjvScene.geoms shot -> geom_sampled u (cut n).2 geom)
  /\ (forall n, (5 <= n <= 6)%nat -> (cut n).1 = Ok tt ->
        forall i light, MjvScene.lights shot !! i = Some light ->
          light_sampled u (cut n).2 i light)
  /\ ((cut 6%nat).1 = Ok tt ->
        forall i c, usd_cameras (cut 6%nat).2 !! i = Some c ->
          camera_sampled u (cut 6%nat).2 c).
Proof.
  intros Hinit self N u cut shot. apply __init___fresh in Hinit.
  pose proof (Fresh_Consistent _ _ Hinit) as Hc0.
  pose proof (after_update_calls_updates frames self0 Hc0) as Hu.
  pose proof (after_update_calls_bounded frames self0 Hc0 (Fresh_Bounded _ _ Hinit)) as HB.
  destruct (after_update_calls frames self0 Hc0) as (Hc & Hf & _).
  pose proof (calls_returned_le frames self0) as Hle.
  fold self in Hu, HB, Hc, Hf. fold u in Hu.
  destruct Hinit as [_ Hf0 Hu0 _ _ _ _ _ _ _]. rewrite Hf0 in Hf. rewrite Hu0 in Hu.
  assert (updates self = u) as Hu' by lia.
  destruct (update_scene_sampled self data scene_option Hc HB) as (H4 & H5 & H6).
  fold cut shot in H4, H5, H6. rewrite Hu' in H4, H5, H6.
  split; [|split; [|split; [|split; [|split]]]].
  - intros n Hn.
    assert (Kept (entered self) (cut n).2) as [_ [_ Hf' Hu'' _ _ _ _ _ _ _]].
    { unfold cut. destruct n as [|n]; [lia|].
      rewrite take_update_scene_steps by lia.
      apply (steps_kept _ (entered self) (entered self)).
      - apply Forall_take, update_scene_inner_steps_keep.
      - by split. }
    rewrite Hf', Hu''. unfold entered. cbn [frame_count updates set_frame_count]. lia.
  - split; [lia|]. intros self' Hrun.
    destruct (update_scenes_all_returned _ _ _ Hrun) as [Hall ?]. split; [done|]. lia.
  - intros id name k Hk.
    pose proof (update_scene_run self data scene_option Hc) as (mid & [_ Hi] & Hend).
    assert (stage (update_scene data scene_option self).2 = stage mid) as Hst.
    { by destruct Hend as [[_ ->]|(e & _ & ->)]. }
    rewrite Hst in Hk. destruct (inner_keys _ _ Hi _ _ _ Hk) as [->|?]; [left|by right].
    unfold entered. cbn [updates set_frame_count]. done.
  - intros n Hn Hr. assert (n = 4 \/ n = 5 \/ n = 6)%nat as [-> | [-> | ->]] by lia.
    + by apply H4.
    + by apply H5.
    + by apply H6.
  - intros n Hn Hr. assert (n = 5 \/ n = 6)%nat as [-> | ->] by lia.
    + by apply H5.
    + by apply H6.
  - intros Hr. by apply H6.
Qed.

End Exporter.

(** ** A session on a small scene *)

(** A model without textures, seen through an offscreen buffer of 640 by 480,
    that names the geom 0 [box]. *)
Definition ex_model : MjModel.t :=
  {| MjModel.offwidth := 640; MjModel.offheight := 480;
     MjModel.textures := []; MjModel.ntexdata := 0;
     MjModel.mat_texid := []; MjModel.geom_dataid := [];
     MjModel.names := fun objtype objid =>
       match objtype with
       | mjOBJ_GEOM => if bool_decide (objid = 0) then Some "box" else None
       | _ => None
       end |}.

Definition ex_args (height width : Z) : ExporterArgs :=
  {| model := ex_model; height := height; width := width; max_geom := 10000;
     output_directory_name := "mujoco_usdpkg"; output_directory_root := "./";
     light_intensity := 10000; camera_names := Some ["top"];
     specialized_materials_file := None; verbose := true |}.

Definition ex_geom (type : mjtGeom) (objtype : mjtObj) (objid : Z) (a : float) : MjvGeom.t :=
  {| MjvGeom.type := type; MjvGeom.objtype := objtype; MjvGeom.objid := objid;
     MjvGeom.segid := 0; MjvGeom.matid := -1;
     MjvGeom.rgba := (1, 1, 1, a)%float;
     MjvGeom.pos := (0, 0, 0)%float;
     MjvGeom.mat := ((1, 0, 0), (0, 1, 0), (0, 0, 1))%float;
     MjvGeom.size := (1, 1, 1)%float |}.

(** The box of the model, two decorative geoms (an arrow and a line, both
    without an object behind them), and a geom of alpha 0. *)
Definition ex_box : MjvGeom.t := ex_geom mjGEOM_BOX mjOBJ_GEOM 0 1.
Definition ex_arrow : MjvGeom.t := ex_geom mjGEOM_ARROW mjOBJ_UNKNOWN (-1) 1.
Definition ex_line : MjvGeom.t := ex_geom mjGEOM_LINE mjOBJ_UNKNOWN (-1) 1.
Definition ex_ghost : MjvGeom.t := ex_geom mjGEOM_SPHERE mjOBJ_GEOM 1 0.

(** A mesh geom: the model has no mesh data for it. *)
Definition ex_mesh : MjvGeom.t := ex_geom mjGEOM_MESH mjOBJ_GEOM 0 1.

Definition ex_camera : MjvGLCamera.t :=
  {| MjvGLCamera.pos := (0, 0, 5)%float;
     MjvGLCamera.forward := (0, 0, -1)%float;
     MjvGLCamera.up := (0, 1, 0)%float |}.

(** A light at the origin and a lamp above the scene. *)
Definition ex_lights : list MjvLight.t :=
  [ {| MjvLight.pos := (0, 0, 0)%float; MjvLight.diffuse := (1, 1, 1)%float |};
    {| MjvLight.pos := (0, 0, 3)%float; MjvLight.diffuse := (1, 1, 1)%float |} ].

Definition ex_scene (geoms : list MjvGeom.t) : MjvScene.t :=
  {| MjvScene.geoms := geoms; MjvScene.lights := ex_lights;
     MjvScene.camera := (ex_camera, ex_camera) |}.

(** The collaborators: the simulation data of a frame is the scene it renders
    to, there is one scene option, and a record that was never visible has
    [last_visible_frame = -1]. *)
Definition ex_Renderer : MjModel.t -> Z -> Z -> Z -> MjvScene.t :=
  fun _ _ _ _ => ex_scene [].
Definition ex_render : MjModel.t -> MjvScene.t -> unit -> option string -> MjvScene.t :=
  fun _ data _ _ => data.
Definition ex_average : MjvGLCamera.t -> MjvGLCamera.t -> MjvGLCamera.t :=
  fun left _ => left.
Definition ex_euler2Quat : vec3 -> string -> vec4 := fun _ _ => (1, 0, 0, 0)%float.
Definition ex_quat2Mat : vec4 -> vec9 := fun _ => Vec9 1 0 0 0 1 0 0 0 1.
Definition ex_flat_cam_mat : vec9 -> Result mat3 :=
  fun _ => Raise (ValueError "could not broadcast input array from shape (9,) into shape (3,3)").

Definition ex_frame (geoms : list MjvGeom.t) : MjvScene.t * option unit :=
  (ex_scene geoms, None).

Definition ex_update_scenes (frames : list (MjvScene.t * option unit)) : M unit :=
  update_scenes tt ex_render ex_average (-1) frames.

(** The new exporter, and the exporter after the frames of a list. *)
Definition ex_self0 : USDExporter :=
  match __init__ ex_Renderer (ex_args 480 480) with
  | Ok self => self
  | Raise _ => new_exporter ex_Renderer (ex_args 480 480)
  end.

Definition ex_after (frames : list (MjvScene.t * option unit)) : USDExporter :=
  (ex_update_scenes frames ex_self0).2.

Lemma ex_init : __init__ ex_Renderer (ex_args 480 480) = Ok ex_self0.
Proof. vm_compute. reflexivity. Qed.

Definition ex_origin_light : MjvLight.t :=
  {| MjvLight.pos := (0, 0, 0)%float; MjvLight.diffuse := (1, 1, 1)%float |}.

(** The exporter after a first call of [update_scene] that raised, on a frame
    with the mesh geom; and the same exporter inside a second call, on a
    frame with the box, when the first [n] statements of [update_scene] have
    run. *)
Definition ex_failed : USDExporter :=
  (update_scene tt ex_render ex_average (-1) (ex_scene [ex_mesh]) None ex_self0).2.

Definition ex_second_call (n : nat) : USDExporter :=
  (for_each (take n (update_scene_steps tt ex_render ex_average (-1) (ex_scene [ex_box]) None))
     (fun step => step) ex_failed).2.

(** ** The claims that fail as stated *)

(** C1 as stated fails. The arrow and the line are two instances with the
    derived name [None_id-1]; a frame that holds both, and a later frame that
    holds one of them again, are processed without any exception, and the two
    share one record. *)
Lemma colliding_names_no_assertion :
  _get_geom_name ex_self0 ex_arrow = _get_geom_name ex_self0 ex_line
  /\ ex_arrow ≠ ex_line
  /\ (ex_update_scenes [ex_frame [ex_arrow; ex_line]; ex_frame [ex_line]] ex_self0).1 = Ok tt
  /\ dom (geom_refs (ex_after [ex_frame [ex_arrow; ex_line]; ex_frame [ex_line]]))
     = {[ "None_id-1" ]}.
Proof.
  split; [vm_compute; reflexivity|]. split.
  - intros H. apply (f_equal MjvGeom.type) in H. discriminate.
  - split; vm_compute; reflexivity.
Qed.

(** C2 as stated fails. A geom of alpha 0 is in the snapshot of the first
    call and in none afterwards; after [save_scene] its record has no
    visibility sample that is [true]: the only sample is [false], at the
    time sample 0. *)
Lemma invisible_instance_not_visible :
  ex_ghost ∈ MjvScene.geoms (snapshot tt ex_render ex_self0 (ex_frame [ex_ghost]))
  /\ exists self self' ref,
       ex_update_scenes [ex_frame [ex_ghost]] ex_self0 = (Ok tt, self)
       /\ save_scene "usd" self = (Ok tt, self')
       /\ geom_refs self' !! _get_geom_name ex_self0 ex_ghost = Some ref
       /\ samples_of (stage self') (obj_prim ref) "visibility" = {[ 0 := VBool false ]}.
Proof.
  split; [vm_compute; left|].
  exists (ex_after [ex_frame [ex_ghost]]),
    (save_scene "usd" (ex_after [ex_frame [ex_ghost]])).2,
    {| obj_prim := 4; last_visible_frame := -1 |}.
  split; [vm_compute; reflexivity|]. split; [vm_compute; reflexivity|].
  split; vm_compute; reflexivity.
Qed.


(** C9 as stated fails. The first call of [update_scene] raises, so the
    update counter is still 0 in the second call: throughout the body of the
    second call the frame counter is 2 and the update counter is 0, and the
    record of the box is written at the time sample 0. *)
Lemma counters_differ_by_two :
  (update_scene tt ex_render ex_average (-1) (ex_scene [ex_mesh]) None ex_self0).1
  = Raise IndexError
  /\ (forall n, (1 <= n <= 6)%nat ->
      frame_count (ex_second_call n) = 2 /\ updates (ex_second_call n) = 0)
  /\ exists ref,
       geom_refs (ex_second_call 4) !! "box_id0_geom" = Some ref
       /\ samples_of (stage (ex_second_call 4)) (obj_prim ref) "visibility"
          = {[ 0 := VBool true ]}.
Proof.
  split; [vm_compute; reflexivity|]. split.
  - intros n Hn.
    assert (n = 1 \/ n = 2 \/ n = 3 \/ n = 4 \/ n = 5 \/ n = 6)%nat
      as [-> | [-> | [-> | [-> | [-> | ->]]]]] by lia;
      split; vm_compute; reflexivity.
  - exists {| obj_prim := 7; last_visible_frame := 0 |}. split; vm_compute; reflexivity.
Qed.

(** ** The theorems at the example session *)

Lemma init_checks_dimensions_witness :
  ((width (ex_args 480 480) <= MjModel.offwidth (model (ex_args 480 480))
    /\ height (ex_args 480 480) <= MjModel.offheight (model (ex_args 480 480)))
   /\ __init__ ex_Renderer (ex_args 480 480)
      = constructed ((_initialize_usd_stage;; _load_textures)
                       (new_exporter ex_Renderer (ex_args 480 480))))
  /\ ((width (ex_args 480 1000) > MjModel.offwidth (model (ex_args 480 1000))
       \/ height (ex_args 480 1000) > MjModel.offheight (model (ex_args 480 1000)))
      /\ exists msg, __init__ ex_Renderer (ex_args 480 1000) = Raise (ValueError msg)).
Proof.
  assert (width (ex_args 480 480) <= MjModel.offwidth (model (ex_args 480 480))
          /\ height (ex_args 480 480) <= MjModel.offheight (model (ex_args 480 480))) as H1
    by (vm_compute; split; discriminate).
  assert (width (ex_args 480 1000) > MjModel.offwidth (model (ex_args 480 1000))
          \/ height (ex_args 480 1000) > MjModel.offheight (model (ex_args 480 1000))) as H2
    by (left; vm_compute; reflexivity).
  split; (split; [assumption|]).
  - exact (proj1 (init_checks_dimensions ex_Renderer (ex_args 480 480)) H1).
  - exact (proj2 (init_checks_dimensions ex_Renderer (ex_args 480 1000)) H2).
Defined.

Lemma save_scene_checks_filetype_witness :
  (("xml" ∉ ["usd"; "usda"; "usdc"])
   /\ save_scene "xml" ex_self0 = (Raise AssertionError, ex_self0))
  /\ ("usda" ∈ ["usd"; "usda"; "usdc"]
      /\ exists self', save_scene "usda" ex_self0 = (Ok tt, self')
           /\ exported self'
              = (exported ex_self0 ++ [(frame_path ex_self0 "usda", stage self')])%list).
Proof.
  assert ("xml" ∉ ["usd"; "usda"; "usdc"]) as H1.
  { intros H. repeat (apply elem_of_cons in H as [H|H]; [discriminate|]).
    by apply elem_of_nil in H. }
  assert ("usda" ∈ ["usd"; "usda"; "usdc"]) as H2 by (right; left).
  split; (split; [assumption|]).
  - exact (proj1 (save_scene_checks_filetype "xml" ex_self0) H1).
  - exact (proj2 (save_scene_checks_filetype "usda" ex_self0) H2).
Defined.

Lemma add_light_by_type_witness :
  ((("spot" : string) ≠ "sphere") /\ (("spot" : string) ≠ "dome")
   /\ add_light (0, 0, 2)%float 500 (Some 1%float) (1, 1, 1)%float "light_1" "spot" ex_self0
      = (Ok tt, ex_self0))
  /\ add_light (0, 0, 2)%float 500 (Some 1%float) (1, 1, 1)%float "light_1" "sphere" ex_self0
     = (Ok tt, with_new_prim
          (sphere_light_prim "light_1" (Some 1%float) (0, 0, 2)%float 500 (1, 1, 1)%float)
          ex_self0)
  /\ add_light (0, 0, 2)%float 500 (Some 1%float) (1, 1, 1)%float "light_1" "dome" ex_self0
     = (Ok tt, with_new_prim (dome_light_prim "light_1" 500 (1, 1, 1)%float) ex_self0).
Proof.
  assert (("spot" : string) ≠ "sphere") as H1 by discriminate.
  assert (("spot" : string) ≠ "dome") as H2 by discriminate.
  split; [split; [assumption|split; [assumption|]]|split].
  - exact (proj1 (add_light_by_type (0, 0, 2)%float 500 (Some 1%float) (1, 1, 1)%float
                    "light_1" "spot" ex_self0) H1 H2).
  - exact (proj1 (proj2 (add_light_by_type (0, 0, 2)%float 500 (Some 1%float)
                           (1, 1, 1)%float "light_1" "sphere" ex_self0)) eq_refl).
  - exact (proj2 (proj2 (add_light_by_type (0, 0, 2)%float 500 (Some 1%float)
                           (1, 1, 1)%float "light_1" "dome" ex_self0)) eq_refl).
Defined.

Lemma known_name_is_updated_witness :
  _get_geom_name (ex_after [ex_frame [ex_arrow]]) ex_line
    ∈ geom_names (ex_after [ex_frame [ex_arrow]])
  /\ _load_geom (-1) ex_line (ex_after [ex_frame [ex_arrow]])
     = (Raise AssertionError, ex_after [ex_frame [ex_arrow]])
  /\ exists self' ref',
       _update_geom (-1) ex_line (ex_after [ex_frame [ex_arrow]]) = (Ok tt, self')
       /\ geom_names self' = geom_names (ex_after [ex_frame [ex_arrow]])
       /\ geom_refs self'
          = <[_get_geom_name (ex_after [ex_frame [ex_arrow]]) ex_line := ref']>
              (geom_refs (ex_after [ex_frame [ex_arrow]]))
       /\ obj_prim ref' = 4%nat.
Proof.
  assert (_get_geom_name (ex_after [ex_frame [ex_arrow]]) ex_line
            ∈ geom_names (ex_after [ex_frame [ex_arrow]])) as H1
    by (vm_compute; reflexivity).
  assert (geom_refs (ex_after [ex_frame [ex_arrow]])
            !! _get_geom_name (ex_after [ex_frame [ex_arrow]]) ex_line
          = Some {| obj_prim := 4; last_visible_frame := 0 |}) as H2
    by (vm_compute; reflexivity).
  split; [assumption|]. split.
  - exact (proj1 (known_name_is_updated (-1) (ex_after [ex_frame [ex_arrow]]) ex_line) H1).
  - exact (proj2 (proj2 (known_name_is_updated (-1) (ex_after [ex_frame [ex_arrow]]) ex_line))
             _ H1 H2).
Defined.

Definition ex_frames : list (MjvScene.t * option unit) :=
  [ex_frame [ex_box; ex_arrow]; ex_frame [ex_arrow]].

Lemma time_range_after_updates_witness :
  __init__ ex_Renderer (ex_args 480 480) = Ok ex_self0
  /\ "usd" ∈ ["usd"; "usda"; "usdc"]
  /\ exists self',
       save_scene "usd"
         (after_calls tt ex_render ex_average ex_euler2Quat ex_quat2Mat ex_flat_cam_mat (-1)
            (update_calls ex_frames) ex_self0)
       = (Ok tt, self')
       /\ start_time_code (stage self') = Some 0
       /\ end_time_code (stage self') = Some 2.
Proof.
  assert (__init__ ex_Renderer (ex_args 480 480) = Ok ex_self0) as H1
    by (vm_compute; reflexivity).
  assert ("usd" ∈ ["usd"; "usda"; "usdc"]) as H2 by left.
  split; [assumption|]. split; [assumption|].
  destruct (time_range_after_updates tt ex_Renderer ex_render ex_average ex_euler2Quat
              ex_quat2Mat ex_flat_cam_mat (-1) (ex_args 480 480) ex_self0 ex_frames "usd" H1 H2)
    as (self' & Hsave & _ & Hstart & Hend).
  exists self'. split; [exact Hsave|]. split; [exact Hstart|exact Hend].
Defined.


Lemma geom_records_persist_witness :
  __init__ ex_Renderer (ex_args 480 480) = Ok ex_self0
  /\ geom_refs
       (after_calls tt ex_render ex_average ex_euler2Quat ex_quat2Mat ex_flat_cam_mat (-1)
          [Call_update_scene (ex_scene [ex_box]) None] ex_self0)
     !! "box_id0_geom"
     = Some {| obj_prim := 4; last_visible_frame := 0 |}
  /\ exists ref',
       geom_refs
         (after_calls tt ex_render ex_average ex_euler2Quat ex_quat2Mat ex_flat_cam_mat (-1)
            [Call_save_scene "usd"; Call_update_scene (ex_scene [ex_arrow]) None;
             Call_add_camera (0, 0, 5)%float (0, 0, 0)%float "camera_1";
             Call_save_scene "xml"]
            (after_calls tt ex_render ex_average ex_euler2Quat ex_quat2Mat ex_flat_cam_mat (-1)
               [Call_update_scene (ex_scene [ex_box]) None] ex_self0))
       !! "box_id0_geom" = Some ref'
       /\ obj_prim ref' = 4%nat.
Proof.
  assert (__init__ ex_Renderer (ex_args 480 480) = Ok ex_self0) as H1
    by (vm_compute; reflexivity).
  assert (geom_refs
            (after_calls tt ex_render ex_average ex_euler2Quat ex_quat2Mat ex_flat_cam_mat (-1)
               [Call_update_scene (ex_scene [ex_box]) None] ex_self0)
          !! "box_id0_geom"
          = Some {| obj_prim := 4; last_visible_frame := 0 |}) as H2
    by (vm_compute; reflexivity).
  split; [assumption|]. split; [assumption|].
  destruct (geom_records_persist tt ex_Renderer ex_render ex_average ex_euler2Quat
              ex_quat2Mat ex_flat_cam_mat (-1) (ex_args 480 480) ex_self0
              [Call_update_scene (ex_scene [ex_box]) None]
              [Call_save_scene "usd"; Call_update_scene (ex_scene [ex_arrow]) None;
               Call_add_camera (0, 0, 5)%float (0, 0, 0)%float "camera_1";
               Call_save_scene "xml"]
              "box_id0_geom" _ H1 H2)
    as (ref' & Href & Hprim & _).
  exists ref'. split; [exact Href|exact Hprim].
Defined.

Lemma counters_inside_any_update_scene_witness :
  __init__ ex_Renderer (ex_args 480 480) = Ok ex_self0
  /\ calls_returned tt ex_render ex_average (-1) [ex_frame [ex_mesh]] ex_self0 = 0%nat
  /\ (forall n, (1 <= n <= 6)%nat ->
        frame_count
          (for_each (take n (update_scene_steps tt ex_render ex_average (-1)
                               (ex_scene [ex_box]) None))
             (fun step => step)
             (after_calls tt ex_render ex_average ex_euler2Quat ex_quat2Mat ex_flat_cam_mat
                (-1) (update_calls [ex_frame [ex_mesh]]) ex_self0)).2
        = Z.of_nat 2
        /\ updates
             (for_each (take n (update_scene_steps tt ex_render ex_average (-1)
                                  (ex_scene [ex_box]) None))
                (fun step => step)
                (after_calls tt ex_render ex_average ex_euler2Quat ex_quat2Mat ex_flat_cam_mat
                   (-1) (update_calls [ex_frame [ex_mesh]]) ex_self0)).2
           = Z.of_nat (calls_returned tt ex_render ex_average (-1) [ex_frame [ex_mesh]]
                         ex_self0))
  /\ geom_sampled
       (Z.of_nat (calls_returned tt ex_render ex_average (-1) [ex_frame [ex_mesh]] ex_self0))
       (for_each (take 4 (update_scene_steps tt ex_render ex_average (-1)
                            (ex_scene [ex_box]) None))
          (fun step => step)
          (after_calls tt ex_render ex_average ex_euler2Quat ex_quat2Mat ex_flat_cam_mat
             (-1) (update_calls [ex_frame [ex_mesh]]) ex_self0)).2
       ex_box.
Proof.
  assert (__init__ ex_Renderer (ex_args 480 480) = Ok ex_self0) as H1
    by (vm_compute; reflexivity).
  assert (calls_returned tt ex_render ex_average (-1) [ex_frame [ex_mesh]] ex_self0 = 0%nat)
    as H2 by (vm_compute; reflexivity).
  assert ((4 <= 4 <= 6)%nat) as H3 by lia.
  assert ((for_each (take 4 (update_scene_steps tt ex_render ex_average (-1)
                               (ex_scene [ex_box]) None))
             (fun step => step)
             (after_calls tt ex_render ex_average ex_euler2Quat ex_quat2Mat ex_flat_cam_mat
                (-1) (update_calls [ex_frame [ex_mesh]]) ex_self0)).1 = Ok tt) as H4
    by (vm_compute; reflexivity).
  assert (ex_box ∈ MjvScene.geoms
            (snapshot tt ex_render
               (after_calls tt ex_render ex_average ex_euler2Quat ex_quat2Mat ex_flat_cam_mat
                  (-1) (update_calls [ex_frame [ex_mesh]]) ex_self0)
               (ex_scene [ex_box], None))) as H5
    by (vm_compute; left).
  split; [assumption|]. split; [assumption|].
  destruct (counters_inside_any_update_scene tt ex_Renderer ex_render ex_average
              ex_euler2Quat ex_quat2Mat ex_flat_cam_mat (-1) (ex_args 480 480) ex_self0
              [ex_frame [ex_mesh]] (ex_scene [ex_box]) None H1)
    as (Hcounters & _ & _ & Hgeoms & _).
  split; [exact Hcounters|]. exact (Hgeoms 4%nat H3 H4 ex_box H5).
Defined.

Lemma origin_light_not_exported_witness :
  __init__ ex_Renderer (ex_args 480 480) = Ok ex_self0
  /\ update_scenes tt ex_render ex_average (-1) ex_frames ex_self0 = (Ok tt, ex_after ex_frames)
  /\ MjvScene.lights (snapshot tt ex_render ex_self0 (ex_frame [ex_box; ex_arrow])) !! 0%nat
     = Some ex_origin_light
  /\ allclose_origin (MjvLight.pos ex_origin_light) = true
  /\ usd_lights (ex_after ex_frames) !! 0%nat = Some None
  /\ forall id p r,
       prims (stage (ex_after ex_frames)) !! id = Some p ->
       prim_source p = SrcSphereLight r -> prim_name p ≠ pretty 0%nat.
Proof.
  assert (__init__ ex_Renderer (ex_args 480 480) = Ok ex_self0) as H1
    by (vm_compute; reflexivity).
  assert (update_scenes tt ex_render ex_average (-1) ex_frames ex_self0 = (Ok tt, ex_after ex_frames)) as H2
    by (vm_compute; reflexivity).
  assert (MjvScene.lights (snapshot tt ex_render ex_self0 (ex_frame [ex_box; ex_arrow]))
            !! 0%nat = Some ex_origin_light) as H3 by (vm_compute; reflexivity).
  assert (allclose_origin (MjvLight.pos ex_origin_light) = true) as H4
    by (vm_compute; reflexivity).
  split; [assumption|]. split; [assumption|]. split; [assumption|]. split; [assumption|].
  destruct (origin_light_not_exported tt ex_Renderer ex_render ex_average (-1)
              (ex_args 480 480) ex_self0 (ex_after ex_frames)
              (ex_frame [ex_box; ex_arrow]) [ex_frame [ex_arrow]] 0%nat ex_origin_light
              H1 H2 H3 H4)
    as (Hslot & Hprims & _ & _).
  split; [exact Hslot|exact Hprims].
Defined.

Lemma visible_then_hidden_witness :
  __init__ ex_Renderer (ex_args 480 480) = Ok ex_self0
  /\ "usd" ∈ ["usd"; "usda"; "usdc"]
  /\ [ex_frame [ex_box; ex_arrow]] ≠ []
  /\ Forall (frame_loadable tt ex_render ex_self0)
       ([ex_frame [ex_box; ex_arrow]] ++ [ex_frame [ex_arrow]])
  /\ Forall (shows tt ex_render ex_self0 "box_id0_geom") [ex_frame [ex_box; ex_arrow]]
  /\ Forall (hides tt ex_render ex_self0 "box_id0_geom") [ex_frame [ex_arrow]]
  /\ exists self self' ref,
       update_scenes tt ex_render ex_average (-1)
         ([ex_frame [ex_box; ex_arrow]] ++ [ex_frame [ex_arrow]]) ex_self0 = (Ok tt, self)
       /\ save_scene "usd" self = (Ok tt, self')
       /\ geom_refs self' !! "box_id0_geom" = Some ref
       /\ samples_of (stage self') (obj_prim ref) "visibility" !! 0 = Some (VBool true)
       /\ samples_of (stage self') (obj_prim ref) "visibility" !! 1 = Some (VBool false)
       /\ samples_of (stage self') (obj_prim ref) "visibility" !! 2 = None.
Proof.
  assert (__init__ ex_Renderer (ex_args 480 480) = Ok ex_self0) as H1
    by (vm_compute; reflexivity).
  assert ("usd" ∈ ["usd"; "usda"; "usdc"]) as H2 by left.
  assert ([ex_frame [ex_box; ex_arrow]] ≠ []) as H3 by discriminate.
  assert (Forall (frame_loadable tt ex_render ex_self0)
            ([ex_frame [ex_box; ex_arrow]] ++ [ex_frame [ex_arrow]])) as H4
    by (vm_compute; repeat constructor).
  assert (Forall (shows tt ex_render ex_self0 "box_id0_geom")
            [ex_frame [ex_box; ex_arrow]]) as H5
    by (vm_compute; repeat (constructor || (intro; discriminate) || intro)).
  assert (Forall (hides tt ex_render ex_self0 "box_id0_geom") [ex_frame [ex_arrow]]) as H6
    by (vm_compute; repeat (constructor || (intro; discriminate))).
  split; [assumption|]. split; [assumption|]. split; [assumption|]. split; [assumption|].
  split; [assumption|]. split; [assumption|].
  destruct (visible_then_hidden tt ex_Renderer ex_render ex_average (-1)
              (ex_args 480 480) ex_self0 [ex_frame [ex_box; ex_arrow]] [ex_frame [ex_arrow]]
              "box_id0_geom" "usd" H1 H2 H3 H4 H5 H6)
    as (self & self' & ref & Hrun & Hsave & _ & Href & Htrue & Hfalse & Hnone).
  exists self, self', ref. split; [exact Hrun|]. split; [exact Hsave|]. split; [exact Href|].
  split; [apply Htrue; simpl; lia|]. split; [exact Hfalse|]. apply Hnone. simpl. lia.
Defined.

(** ** Sessions of the example exporter *)

Lemma names_match_records_witness :
  __init__ ex_Renderer (ex_args 480 480) = Ok ex_self0
  /\ geom_names
       (after_calls tt ex_render ex_average ex_euler2Quat ex_quat2Mat ex_flat_cam_mat (-1)
          [Call_update_scene (ex_scene [ex_box; ex_arrow]) None; Call_save_scene "xml";
           Call_update_scene (ex_scene [ex_line]) None] ex_self0)
     = dom (geom_refs
              (after_calls tt ex_render ex_average ex_euler2Quat ex_quat2Mat ex_flat_cam_mat (-1)
                 [Call_update_scene (ex_scene [ex_box; ex_arrow]) None; Call_save_scene "xml";
                  Call_update_scene (ex_scene [ex_line]) None] ex_self0)).
Proof.
  assert (__init__ ex_Renderer (ex_args 480 480) = Ok ex_self0) as H1
    by (vm_compute; reflexivity).
  split; [assumption|].
  exact (names_match_records tt ex_Renderer ex_render ex_average ex_euler2Quat ex_quat2Mat ex_flat_cam_mat (-1)
           (ex_args 480 480) ex_self0
           [Call_update_scene (ex_scene [ex_box; ex_arrow]) None; Call_save_scene "xml";
            Call_update_scene (ex_scene [ex_line]) None] H1).
Defined.

Lemma update_scene_moves_counters_witness :
  __init__ ex_Renderer (ex_args 480 480) = Ok ex_self0
  /\ frame_count
       (update_scene tt ex_render ex_average (-1) (ex_scene [ex_box]) None
          (after_calls tt ex_render ex_average ex_euler2Quat ex_quat2Mat ex_flat_cam_mat (-1)
             [Call_save_scene "usd"] ex_self0)).2
     = frame_count
         (after_calls tt ex_render ex_average ex_euler2Quat ex_quat2Mat ex_flat_cam_mat (-1)
            [Call_save_scene "usd"] ex_self0) + 1.
Proof.
  assert (__init__ ex_Renderer (ex_args 480 480) = Ok ex_self0) as H1
    by (vm_compute; reflexivity).
  split; [assumption|].
  exact (proj1 (update_scene_moves_counters tt ex_Renderer ex_render ex_average ex_euler2Quat
                  ex_quat2Mat ex_flat_cam_mat (-1) (ex_args 480 480) ex_self0 [Call_save_scene "usd"]
                  (ex_scene [ex_box]) None H1)).
Defined.

Lemma loadable_frames_never_raise_witness :
  __init__ ex_Renderer (ex_args 480 480) = Ok ex_self0
  /\ Forall (frame_loadable tt ex_render ex_self0) ex_frames
  /\ exists self,
       update_scenes tt ex_render ex_average (-1) ex_frames ex_self0 = (Ok tt, self)
       /\ frame_count self = Z.of_nat (length ex_frames)
       /\ updates self = Z.of_nat (length ex_frames).
Proof.
  assert (__init__ ex_Renderer (ex_args 480 480) = Ok ex_self0) as H1
    by (vm_compute; reflexivity).
  assert (Forall (frame_loadable tt ex_render ex_self0) ex_frames) as H2
    by (vm_compute; repeat constructor).
  split; [assumption|]. split; [assumption|].
  exact (loadable_frames_never_raise tt ex_Renderer ex_render ex_average (-1)
           (ex_args 480 480) ex_self0 ex_frames H1 H2).
Defined.

(** Two segments of a tendon. *)
Definition ex_segment (segid : Z) : MjvGeom.t :=
  {| MjvGeom.type := mjGEOM_CAPSULE; MjvGeom.objtype := mjOBJ_TENDON; MjvGeom.objid := 0;
     MjvGeom.segid := segid; MjvGeom.matid := -1;
     MjvGeom.rgba := (1, 1, 1, 1)%float;
     MjvGeom.pos := (0, 0, 0)%float;
     MjvGeom.mat := ((1, 0, 0), (0, 1, 0), (0, 0, 1))%float;
     MjvGeom.size := (1, 1, 1)%float |}.

Lemma _load_geom_subscripts_witness :
  ((_get_geom_name ex_self0 ex_box ∉ geom_names ex_self0)
   /\ loadable ex_self0 ex_box = true
   /\ exists self', _load_geom (-1) ex_box ex_self0 = (Ok tt, self')
        /\ geom_names self' = {[_get_geom_name ex_self0 ex_box]} ∪ geom_names ex_self0
        /\ geom_refs self'
           = <[_get_geom_name ex_self0 ex_box :=
                 {| obj_prim := next_prim ex_self0; last_visible_frame := -1 |}]>
               (geom_refs ex_self0))
  /\ ((_get_geom_name ex_self0 ex_mesh ∉ geom_names ex_self0)
      /\ loadable ex_self0 ex_mesh = false
      /\ _load_geom (-1) ex_mesh ex_self0 = (Raise IndexError, ex_self0)).
Proof.
  assert (_get_geom_name ex_self0 ex_box ∉ geom_names ex_self0) as H1
    by (vm_compute; intros H; discriminate H).
  assert (loadable ex_self0 ex_box = true) as H2 by (vm_compute; reflexivity).
  assert (_get_geom_name ex_self0 ex_mesh ∉ geom_names ex_self0) as H3
    by (vm_compute; intros H; discriminate H).
  assert (loadable ex_self0 ex_mesh = false) as H4 by (vm_compute; reflexivity).
  split.
  - split; [assumption|]. split; [assumption|].
    exact (proj1 (_load_geom_subscripts (-1) ex_self0 ex_box H1) H2).
  - split; [assumption|]. split; [assumption|].
    exact (proj2 (_load_geom_subscripts (-1) ex_self0 ex_mesh H3) H4).
Defined.

Lemma save_scene_marks_every_record_witness :
  __init__ ex_Renderer (ex_args 480 480) = Ok ex_self0
  /\ Forall (frame_loadable tt ex_render ex_self0) ex_frames
  /\ update_scenes tt ex_render ex_average (-1) ex_frames ex_self0 = (Ok tt, ex_after ex_frames)
  /\ "usdc" ∈ ["usd"; "usda"; "usdc"]
  /\ geom_refs (ex_after ex_frames) !! "box_id0_geom"
     = Some {| obj_prim := 4; last_visible_frame := 0 |}
  /\ samples_of (stage (save_scene "usdc" (ex_after ex_frames)).2) 4 "visibility"
     = <[0 + 1 := VBool false]> (samples_of (stage (ex_after ex_frames)) 4 "visibility").
Proof.
  assert (__init__ ex_Renderer (ex_args 480 480) = Ok ex_self0) as H1
    by (vm_compute; reflexivity).
  assert (Forall (frame_loadable tt ex_render ex_self0) ex_frames) as H2
    by (vm_compute; repeat constructor).
  assert (update_scenes tt ex_render ex_average (-1) ex_frames ex_self0
          = (Ok tt, ex_after ex_frames)) as H3 by (vm_compute; reflexivity).
  assert ("usdc" ∈ ["usd"; "usda"; "usdc"]) as H4 by (right; right; left).
  assert (geom_refs (ex_after ex_frames) !! "box_id0_geom"
          = Some {| obj_prim := 4; last_visible_frame := 0 |}) as H5
    by (vm_compute; reflexivity).
  split; [assumption|]. split; [assumption|]. split; [assumption|]. split; [assumption|].
  split; [assumption|].
  exact (proj1 (save_scene_marks_every_record tt ex_Renderer ex_render ex_average (-1)
                  (ex_args 480 480) ex_self0 (ex_after ex_frames) ex_frames "usdc"
                  "box_id0_geom" {| obj_prim := 4; last_visible_frame := 0 |}
                  H1 H2 H3 H4 H5)).
Defined.

Lemma light_slots_from_first_frame_witness :
  __init__ ex_Renderer (ex_args 480 480) = Ok ex_self0
  /\ update_scenes tt ex_render ex_average (-1)
       (ex_frame [ex_box; ex_arrow] :: [ex_frame [ex_arrow]]) ex_self0
     = (Ok tt, ex_after ex_frames)
  /\ length (usd_lights (ex_after ex_frames))
     = MjvScene.nlight (snapshot tt ex_render ex_self0 (ex_frame [ex_box; ex_arrow])).
Proof.
  assert (__init__ ex_Renderer (ex_args 480 480) = Ok ex_self0) as H1
    by (vm_compute; reflexivity).
  assert (update_scenes tt ex_render ex_average (-1)
            (ex_frame [ex_box; ex_arrow] :: [ex_frame [ex_arrow]]) ex_self0
          = (Ok tt, ex_after ex_frames)) as H2 by (vm_compute; reflexivity).
  split; [assumption|]. split; [assumption|].
  exact (light_slots_from_first_frame tt ex_Renderer ex_render ex_average (-1)
           (ex_args 480 480) ex_self0 (ex_after ex_frames)
           (ex_frame [ex_box; ex_arrow]) [ex_frame [ex_arrow]] H1 H2).
Defined.

Lemma tendon_segments_named_apart_witness :
  MjvGeom.objtype (ex_segment 0) = mjOBJ_TENDON
  /\ MjvGeom.objtype (ex_segment 1) = mjOBJ_TENDON
  /\ MjvGeom.objid (ex_segment 0) = MjvGeom.objid (ex_segment 1)
  /\ (_get_geom_name ex_self0 (ex_segment 0) = _get_geom_name ex_self0 (ex_segment 1)
      <-> MjvGeom.segid (ex_segment 0) = MjvGeom.segid (ex_segment 1)).
Proof.
  split; [reflexivity|]. split; [reflexivity|]. split; [reflexivity|].
  exact (tendon_segments_named_apart ex_self0 (ex_segment 0) (ex_segment 1)
           eq_refl eq_refl eq_refl).
Defined.

Lemma frame_paths_differ_witness :
  args (ex_after ex_frames) = args ex_self0
  /\ (frame_path ex_self0 "usd" = frame_path (ex_after ex_frames) "usd"
      <-> frame_count ex_self0 = frame_count (ex_after ex_frames)).
Proof.
  assert (args (ex_after ex_frames) = args ex_self0) as H1 by (vm_compute; reflexivity).
  split; [assumption|].
  exact (frame_paths_differ ex_self0 (ex_after ex_frames) "usd" H1).
Defined.

(** A model with textures of two by two pixels, and room for 24 entries of
    texture data. *)
Definition ex_tex (nchannel : N) : MjTexture.t :=
  {| MjTexture.tex_height := 2; MjTexture.tex_width := 2;
     MjTexture.tex_nchannel := nchannel; MjTexture.tex_type := 0 |}.

Definition ex_textured_args (textures : list MjTexture.t) : ExporterArgs :=
  {| model :=
       {| MjModel.offwidth := 640; MjModel.offheight := 480;
          MjModel.textures := textures; MjModel.ntexdata := 24;
          MjModel.mat_texid := [[0; -1]]; MjModel.geom_dataid := [];
          MjModel.names := fun _ _ => None |};
     height := 480; width := 640; max_geom := 10000;
     output_directory_name := "mujoco_usdpkg"; output_directory_root := "./";
     light_intensity := 10000; camera_names := None;
     specialized_materials_file := None; verbose := false |}.

Definition ex_textured_self0 : USDExporter :=
  match __init__ ex_Renderer (ex_textured_args [ex_tex 3; ex_tex 3]) with
  | Ok self => self
  | Raise _ => new_exporter ex_Renderer (ex_textured_args [ex_tex 3; ex_tex 3])
  end.

Lemma texture_files_named_by_index_witness :
  __init__ ex_Renderer (ex_textured_args [ex_tex 3; ex_tex 3]) = Ok ex_textured_self0
  /\ texture_files ex_textured_self0 = texture_path <$> seq 0 2.
Proof.
  assert (__init__ ex_Renderer (ex_textured_args [ex_tex 3; ex_tex 3])
          = Ok ex_textured_self0) as H1 by (vm_compute; reflexivity).
  split; [assumption|].
  exact (texture_files_named_by_index ex_Renderer (ex_textured_args [ex_tex 3; ex_tex 3])
           ex_textured_self0 H1).
Defined.

Lemma init_needs_rgb_textures_witness :
  width (ex_textured_args [ex_tex 3; ex_tex 1])
    <= MjModel.offwidth (model (ex_textured_args [ex_tex 3; ex_tex 1]))
  /\ height (ex_textured_args [ex_tex 3; ex_tex 1])
       <= MjModel.offheight (model (ex_textured_args [ex_tex 3; ex_tex 1]))
  /\ tex_data_size [ex_tex 3; ex_tex 1] <= 24
  /\ Exists (fun tex => MjTexture.tex_nchannel tex ≠ 3%N
                        /\ MjTexture.tex_height tex ≠ 0%N /\ MjTexture.tex_width tex ≠ 0%N)
       [ex_tex 3; ex_tex 1]
  /\ exists msg,
       __init__ ex_Renderer (ex_textured_args [ex_tex 3; ex_tex 1]) = Raise (ValueError msg).
Proof.
  assert (width (ex_textured_args [ex_tex 3; ex_tex 1])
          <= MjModel.offwidth (model (ex_textured_args [ex_tex 3; ex_tex 1]))) as H1
    by (simpl; lia).
  assert (height (ex_textured_args [ex_tex 3; ex_tex 1])
          <= MjModel.offheight (model (ex_textured_args [ex_tex 3; ex_tex 1]))) as H2
    by (simpl; lia).
  assert (tex_data_size [ex_tex 3; ex_tex 1] <= 24) as H3 by (vm_compute; discriminate).
  assert (Exists (fun tex => MjTexture.tex_nchannel tex ≠ 3%N
                             /\ MjTexture.tex_height tex ≠ 0%N
                             /\ MjTexture.tex_width tex ≠ 0%N)
            [ex_tex 3; ex_tex 1]) as H4.
  { apply Exists_cons_tl, Exists_cons_hd. split; [discriminate|]. split; discriminate. }
  split; [assumption|]. split; [assumption|]. split; [assumption|]. split; [assumption|].
  exact (proj2 (init_needs_rgb_textures ex_Renderer (ex_textured_args [ex_tex 3; ex_tex 1])
                  H1 H2 H3) H4).
Defined.

Lemma first_update_scene_replaces_stage_witness :
  updates ex_self0 = 0
  /\ (0 < next_prim ex_self0)%nat
  /\ prims (stage (update_scene tt ex_render ex_average (-1) (ex_scene [ex_box]) None
                     ex_self0).2) !! 0%nat = None.
Proof.
  assert (updates ex_self0 = 0) as H1 by (vm_compute; reflexivity).
  assert (0 < next_prim ex_self0)%nat as H2 by (vm_compute; lia).
  split; [assumption|]. split; [assumption|].
  exact (first_update_scene_replaces_stage tt ex_render ex_average (-1) ex_self0
           (ex_scene [ex_box]) None 0%nat H1 H2).
Defined.

Lemma prims_stay_after_first_update_witness :
  updates (ex_after ex_frames) ≠ 0
  /\ is_Some (prims (stage (ex_after ex_frames)) !! 4%nat)
  /\ is_Some (prims (stage (run_call tt ex_render ex_average ex_euler2Quat ex_quat2Mat ex_flat_cam_mat (-1)
                              (Call_update_scene (ex_scene [ex_arrow]) None)
                              (ex_after ex_frames)).2) !! 4%nat).
Proof.
  assert (updates (ex_after ex_frames) ≠ 0) as H1 by (vm_compute; discriminate).
  assert (is_Some (prims (stage (ex_after ex_frames)) !! 4%nat)) as H2
    by (vm_compute; eexists; reflexivity).
  split; [assumption|]. split; [assumption|].
  exact (prims_stay_after_first_update tt ex_render ex_average ex_euler2Quat ex_quat2Mat ex_flat_cam_mat (-1)
           (Call_update_scene (ex_scene [ex_arrow]) None) (ex_after ex_frames) 4%nat
           (fun _ _ _ => H1) H2).
Defined.

Lemma light_before_first_update_is_lost_witness :
  updates ex_self0 = 0
  /\ prims (stage (update_scene tt ex_render ex_average (-1) (ex_scene [ex_box]) None
                     (add_light (0, 0, 3)%float 100 (Some 1%float) (1, 1, 1)%float
                        "light_1" "dome" ex_self0).2).2) !! next_prim ex_self0 = None.
Proof.
  assert (updates ex_self0 = 0) as H1 by (vm_compute; reflexivity).
  split; [assumption|].
  exact (proj2 (light_before_first_update_is_lost tt ex_render ex_average (-1)
                  (0, 0, 3)%float 100 (Some 1%float) (1, 1, 1)%float "light_1" "dome"
                  (ex_scene [ex_box]) None ex_self0 H1 (or_intror eq_refl))).
Defined.

(** The example exporter after a first frame that holds the mesh geom, for
    which [update_scene] raises, and a second frame. *)
Definition ex_stuck : USDExporter :=
  after_calls tt ex_render ex_average ex_euler2Quat ex_quat2Mat ex_flat_cam_mat (-1)
    (update_calls [ex_frame [ex_mesh]; ex_frame [ex_box]]) ex_self0.

Lemma _update_cameras_subscripts_witness :
  (length (default [] (camera_names (args ex_stuck))) < length (usd_cameras ex_stuck))%nat
  /\ (_update_cameras ex_render ex_average (ex_scene []) tt ex_stuck).1
     = Raise (match camera_names (args ex_stuck) with
              | None => TypeError
              | Some _ => IndexError
              end).
Proof.
  assert (length (default [] (camera_names (args ex_stuck))) < length (usd_cameras ex_stuck))%nat
    as H1 by (vm_compute; lia).
  split; [assumption|].
  exact (proj1 (proj2 (_update_cameras_subscripts ex_render ex_average ex_stuck
                         (ex_scene []) tt)) H1).
Defined.

Lemma first_block_appends_records_witness :
  updates ex_self0 = 0
  /\ length (usd_cameras (update_scene tt ex_render ex_average (-1) (ex_scene [ex_mesh]) None
                            ex_self0).2)
     = (length (usd_cameras ex_self0)
        + length (default [] (camera_names (args ex_self0))))%nat.
Proof.
  assert (updates ex_self0 = 0) as H1 by (vm_compute; reflexivity).
  split; [assumption|].
  exact (proj2 (proj1 (first_block_appends_records tt ex_render ex_average (-1) ex_self0
                         (ex_scene [ex_mesh]) None) H1)).
Defined.

Lemma no_recovery_after_failed_first_frame_witness :
  __init__ ex_Renderer (ex_args 480 480) = Ok ex_self0
  /\ default [] (camera_names (ex_args 480 480)) ≠ []
  /\ (update_scene tt ex_render ex_average (-1) (ex_frame [ex_mesh]).1 (ex_frame [ex_mesh]).2
        ex_self0).1 ≠ Ok tt
  /\ (update_scene tt ex_render ex_average (-1) (ex_scene [ex_box]) None
        (after_calls tt ex_render ex_average ex_euler2Quat ex_quat2Mat ex_flat_cam_mat (-1)
           (update_calls (ex_frame [ex_mesh] :: [ex_frame [ex_box]])) ex_self0)).1 ≠ Ok tt.
Proof.
  assert (__init__ ex_Renderer (ex_args 480 480) = Ok ex_self0) as H1
    by (vm_compute; reflexivity).
  assert (default [] (camera_names (ex_args 480 480)) ≠ []) as H2 by (simpl; discriminate).
  assert ((update_scene tt ex_render ex_average (-1) (ex_frame [ex_mesh]).1
             (ex_frame [ex_mesh]).2 ex_self0).1 ≠ Ok tt) as H3
    by (vm_compute; discriminate).
  split; [assumption|]. split; [assumption|]. split; [assumption|].
  exact (proj1 (no_recovery_after_failed_first_frame tt ex_Renderer ex_render ex_average
                  ex_euler2Quat ex_quat2Mat ex_flat_cam_mat (-1) (ex_args 480 480) ex_self0
                  (ex_frame [ex_mesh]) [ex_frame [ex_box]] (ex_scene [ex_box]) None
                  H1 H2 H3)).
Defined.

Lemma add_camera_adds_one_prim_witness :
  0%nat ≠ next_prim ex_self0
  /\ prims (stage (add_camera ex_euler2Quat ex_quat2Mat ex_flat_cam_mat (0, 0, 5)%float
                     (0, 0, 0)%float "camera_1" ex_self0).2) !! 0%nat
     = prims (stage ex_self0) !! 0%nat.
Proof.
  assert (0%nat ≠ next_prim ex_self0) as H1 by (vm_compute; lia).
  split; [assumption|].
  exact (proj1 (proj2 (proj2 (proj2 (proj2 (proj2 (proj2 (proj2
           (add_camera_adds_one_prim ex_euler2Quat ex_quat2Mat ex_flat_cam_mat
              (0, 0, 5)%float (0, 0, 0)%float "camera_1" ex_self0)))))))) 0%nat H1).
Defined.

Lemma _load_lights_one_slot_per_light_witness :
  usd_lights ex_self0 = []
  /\ MjvScene.lights (scene ex_self0) !! 1%nat
     = Some {| MjvLight.pos := (0, 0, 3)%float; MjvLight.diffuse := (1, 1, 1)%float |}
  /\ (_load_lights ex_self0).1 = Ok tt
  /\ length (usd_lights (_load_lights ex_self0).2) = MjvScene.nlight (scene ex_self0).
Proof.
  assert (usd_lights ex_self0 = []) as H1 by (vm_compute; reflexivity).
  assert (MjvScene.lights (scene ex_self0) !! 1%nat
          = Some {| MjvLight.pos := (0, 0, 3)%float; MjvLight.diffuse := (1, 1, 1)%float |})
    as H2 by (vm_compute; reflexivity).
  split; [assumption|]. split; [assumption|].
  destruct (_load_lights_one_slot_per_light ex_self0 1%nat _ H1 H2) as (Hr & Hlen & _).
  split; [exact Hr|exact Hlen].
Defined.

Lemma save_scene_twice_same_visibility_witness :
  __init__ ex_Renderer (ex_args 480 480) = Ok ex_self0
  /\ Forall (frame_loadable tt ex_render ex_self0) ex_frames
  /\ update_scenes tt ex_render ex_average (-1) ex_frames ex_self0 = (Ok tt, ex_after ex_frames)
  /\ "usd" ∈ ["usd"; "usda"; "usdc"]
  /\ "usda" ∈ ["usd"; "usda"; "usdc"]
  /\ geom_refs (ex_after ex_frames) !! "box_id0_geom"
     = Some {| obj_prim := 4; last_visible_frame := 0 |}
  /\ samples_of (stage (save_scene "usda" (save_scene "usd" (ex_after ex_frames)).2).2) 4
       "visibility"
     = samples_of (stage (save_scene "usd" (ex_after ex_frames)).2) 4 "visibility".
Proof.
  assert (__init__ ex_Renderer (ex_args 480 480) = Ok ex_self0) as H1
    by (vm_compute; reflexivity).
  assert (Forall (frame_loadable tt ex_render ex_self0) ex_frames) as H2
    by (vm_compute; repeat constructor).
  assert (update_scenes tt ex_render ex_average (-1) ex_frames ex_self0
          = (Ok tt, ex_after ex_frames)) as H3 by (vm_compute; reflexivity).
  assert ("usd" ∈ ["usd"; "usda"; "usdc"]) as H4 by left.
  assert ("usda" ∈ ["usd"; "usda"; "usdc"]) as H5 by (right; left).
  assert (geom_refs (ex_after ex_frames) !! "box_id0_geom"
          = Some {| obj_prim := 4; last_visible_frame := 0 |}) as H6
    by (vm_compute; reflexivity).
  split; [assumption|]. split; [assumption|]. split; [assumption|]. split; [assumption|].
  split; [assumption|]. split; [assumption|].
  exact (proj1 (save_scene_twice_same_visibility tt ex_Renderer ex_render ex_average (-1)
                  (ex_args 480 480) ex_self0 (ex_after ex_frames) ex_frames "usd" "usda"
                  "box_id0_geom" {| obj_prim := 4; last_visible_frame := 0 |}
                  H1 H2 H3 H4 H5 H6)).
Defined.

Lemma samples_within_time_range_witness :
  __init__ ex_Renderer (ex_args 480 480) = Ok ex_self0
  /\ "usd" ∈ ["usd"; "usda"; "usdc"]
  /\ forall id name k,
       k ∈ dom (samples_of
                  (stage (save_scene "usd"
                            (after_calls tt ex_render ex_average ex_euler2Quat ex_quat2Mat ex_flat_cam_mat (-1)
                               [Call_update_scene (ex_scene [ex_ghost; ex_box]) None;
                                Call_save_scene "usda";
                                Call_update_scene (ex_scene [ex_box]) None]
                               ex_self0)).2) id name) ->
       0 <= k <= frame_count
                   (save_scene "usd"
                      (after_calls tt ex_render ex_average ex_euler2Quat ex_quat2Mat ex_flat_cam_mat (-1)
                         [Call_update_scene (ex_scene [ex_ghost; ex_box]) None;
                          Call_save_scene "usda";
                          Call_update_scene (ex_scene [ex_box]) None]
                         ex_self0)).2
       \/ k = -1 + 1.
Proof.
  assert (__init__ ex_Renderer (ex_args 480 480) = Ok ex_self0) as H1
    by (vm_compute; reflexivity).
  assert ("usd" ∈ ["usd"; "usda"; "usdc"]) as H2 by left.
  split; [assumption|]. split; [assumption|].
  exact (proj2 (samples_within_time_range tt ex_Renderer ex_render ex_average ex_euler2Quat
                  ex_quat2Mat ex_flat_cam_mat (-1) (ex_args 480 480) ex_self0
                  [Call_update_scene (ex_scene [ex_ghost; ex_box]) None;
                   Call_save_scene "usda";
                   Call_update_scene (ex_scene [ex_box]) None] "usd" H1 H2)).
Defined.
